(** * USB-PD specification parser: table of contents, sections, reconciliation

    A shallow embedding of [main.py].  Python [str] values are lists of
    characters; a character is a code point in U+0000..U+00FF, so the
    character classes below are the restrictions of Python's Unicode classes
    to that range.  Integers are [Z]; exceptions are values of [exn] carried
    by the [result] type. *)

From Stdlib Require Import Ascii String List ZArith Lia Bool Arith PeanoNat.
From Stdlib Require Import Sorting.Sorted Sorting.Permutation.
From Stdlib Require Import DecimalString.
Import ListNotations.

(** ** Exceptions *)

Inductive exn : Type :=
| IndexError
| KeyError
| RuntimeError (msg : string).

Inductive result (A : Type) : Type :=
| Ok (a : A)
| Raise (e : exn).

Arguments Ok {A} a.
Arguments Raise {A} e.

Definition bind {A B : Type} (m : result A) (f : A -> result B) : result B :=
  match m with
  | Ok a => f a
  | Raise e => Raise e
  end.

Notation "x <- m ;; k" := (bind m (fun x => k))
  (at level 61, m at next level, right associativity).

(** ** Python strings *)

Module PyStr.

Definition str : Type := list ascii.

(** A literal, written as a Rocq string. *)
Definition L (s : string) : str := list_ascii_of_string s.

Definition code (c : ascii) : nat := nat_of_ascii c.

Definition between (lo hi n : nat) : bool := (lo <=? n) && (n <=? hi).

(** [str.isspace] on one character, also the regex class [\s]. *)
Definition is_space (c : ascii) : bool :=
  let n := code c in
  between 9 13 n || between 28 32 n || (n =? 133) || (n =? 160).

(** The regex class [\d]: a decimal digit. *)
Definition is_digit (c : ascii) : bool := between 48 57 (code c).

(** The regex class [[A-Za-z]]. *)
Definition is_ascii_letter (c : ascii) : bool :=
  let n := code c in between 65 90 n || between 97 122 n.

(** The regex class [\w]: alphanumeric in the Unicode sense, or underscore. *)
Definition is_word (c : ascii) : bool :=
  let n := code c in
  is_digit c || is_ascii_letter c || (n =? 95)
  || (n =? 170) || (n =? 181) || (n =? 186)
  || (n =? 178) || (n =? 179) || (n =? 185) || between 188 190 n
  || between 192 214 n || between 216 246 n || between 248 255 n.

(** Simple lower-casing, as the regex engine applies it under IGNORECASE. *)
Definition to_lower (c : ascii) : ascii :=
  let n := code c in
  if between 65 90 n || between 192 214 n || between 216 222 n
  then ascii_of_nat (n + 32) else c.

Definition eqc (a b : ascii) : bool := Ascii.eqb a b.

Fixpoint drop_while (p : ascii -> bool) (s : str) : str :=
  match s with
  | [] => []
  | c :: s' => if p c then drop_while p s' else s
  end.

Definition lstrip (s : str) : str := drop_while is_space s.
Definition rstrip (s : str) : str := rev (drop_while is_space (rev s)).

(** [s.strip()] *)
Definition strip (s : str) : str := rstrip (lstrip s).

(** [s.split(sep)] for a one-character separator: never an empty list. *)
Fixpoint split (sep : ascii) (s : str) : list str :=
  match s with
  | [] => [[]]
  | c :: s' =>
      if eqc c sep then [] :: split sep s'
      else match split sep s' with
           | [] => [[c]]
           | w :: ws => (c :: w) :: ws
           end
  end.

(** [sep.join(parts)] *)
Fixpoint join (sep : str) (parts : list str) : str :=
  match parts with
  | [] => []
  | [p] => p
  | p :: ps => p ++ sep ++ join sep ps
  end.

Fixpoint starts_with (p s : str) : bool :=
  match p, s with
  | [], _ => true
  | _ :: _, [] => false
  | a :: p', b :: s' => eqc a b && starts_with p' s'
  end.

(** [p in s] *)
Fixpoint contains (p s : str) : bool :=
  starts_with p s ||
  match s with
  | [] => false
  | _ :: s' => contains p s'
  end.

(** [int(s)] on a run of decimal digits.  Integers are unbounded; the
    interpreter's configurable cap on the number of digits is not part of
    the model. *)
Definition digit_val (c : ascii) : Z := Z.of_nat (code c) - 48.

Definition int_of_digits (s : str) : Z :=
  fold_left (fun acc c => (10 * acc + digit_val c)%Z) s 0%Z.

(** [l[i]] with Python's negative indices. *)
Definition index {A : Type} (l : list A) (i : Z) : result A :=
  let n := Z.of_nat (length l) in
  let j := if (i <? 0)%Z then (n + i)%Z else i in
  if (j <? 0)%Z then Raise IndexError
  else match nth_error l (Z.to_nat j) with
       | Some x => Ok x
       | None => Raise IndexError
       end.

(** [range(a, b)] *)
Definition range (a b : Z) : list Z :=
  map (fun k => (a + Z.of_nat k)%Z) (seq 0 (Z.to_nat (b - a))).

(** [enumerate(l)] *)
Definition enumerate {A : Type} (l : list A) : list (nat * A) :=
  combine (seq 0 (length l)) l.

End PyStr.

Import PyStr.

(** ** The regular-expression engine

    Patterns are written as syntax trees; the matcher is the backtracking
    search of Python's [re]: alternatives left to right, greedy repetition,
    first success wins.  Only named groups are recorded. *)

Module Re.

Inductive regex : Type :=
| Empty
| Chr (p : ascii -> bool)
| Seq (r1 r2 : regex)
| Alt (r1 r2 : regex)
| Star (r : regex)
| Grp (name : string) (r : regex)
| Bol
| Eol
| WordB.

Definition Plus (r : regex) : regex := Seq r (Star r).

(** [r{3,}] *)
Definition AtLeast3 (r : regex) : regex := Seq r (Seq r (Seq r (Star r))).

Fixpoint Lit (mk : ascii -> regex) (s : str) : regex :=
  match s with
  | [] => Empty
  | c :: s' => Seq (mk c) (Lit mk s')
  end.

(** A literal character, and the same under IGNORECASE. *)
Definition chr (c : ascii) : regex := Chr (eqc c).
Definition chr_ci (c : ascii) : regex :=
  Chr (fun x => eqc (to_lower x) (to_lower c)).

(** Matcher state: the text already consumed (last character first), the
    text still ahead, and the named groups closed so far. *)
Record mstate : Type := MState {
  seen : str;
  ahead : str;
  caps : list (string * str)
}.

Definition set_cap (g : string) (v : str) (cs : list (string * str))
  : list (string * str) :=
  (g, v) :: filter (fun kv => negb (String.eqb (fst kv) g)) cs.

Fixpoint get_cap (g : string) (cs : list (string * str)) : option str :=
  match cs with
  | [] => None
  | (k, v) :: cs' => if String.eqb k g then Some v else get_cap g cs'
  end.

(** The text consumed between two states of one run. *)
Definition consumed (st0 st1 : mstate) : str :=
  rev (firstn (length (seen st1) - length (seen st0)) (seen st1)).

Definition at_eol (s : str) : bool :=
  match s with
  | [] => true
  | [c] => code c =? 10
  | _ => false
  end.

Definition word_before (st : mstate) : bool :=
  match seen st with c :: _ => is_word c | [] => false end.

Definition word_after (st : mstate) : bool :=
  match ahead st with c :: _ => is_word c | [] => false end.

(** One greedy repetition loop: try the body once more, and only when that
    leads nowhere go on with what follows.  An iteration has to consume
    text, which every repeated sub-pattern of this program does; [n] bounds
    the iterations by the length of the text ahead. *)
Fixpoint star_loop {A : Type}
  (body : mstate -> (mstate -> option A) -> option A)
  (k : mstate -> option A) (n : nat) (st : mstate) : option A :=
  match n with
  | O => k st
  | S n' =>
      match body st (fun st1 =>
              if length (ahead st1) <? length (ahead st)
              then star_loop body k n' st1 else None) with
      | Some x => Some x
      | None => k st
      end
  end.

Fixpoint run {A : Type} (r : regex) (st : mstate) (k : mstate -> option A)
  : option A :=
  match r with
  | Empty => k st
  | Chr p =>
      match ahead st with
      | c :: tl =>
          if p c then k (MState (c :: seen st) tl (caps st)) else None
      | [] => None
      end
  | Seq r1 r2 => run r1 st (fun st1 => run r2 st1 k)
  | Alt r1 r2 =>
      match run r1 st k with
      | Some x => Some x
      | None => run r2 st k
      end
  | Star r1 => star_loop (run r1) k (length (ahead st)) st
  | Grp g r1 =>
      run r1 st (fun st1 =>
        k (MState (seen st1) (ahead st1) (set_cap g (consumed st st1) (caps st1))))
  | Bol => match seen st with [] => k st | _ :: _ => None end
  | Eol => if at_eol (ahead st) then k st else None
  | WordB => if xorb (word_before st) (word_after st) then k st else None
  end.

(** A match object: where the match starts and ends, and its named groups. *)
Record match_obj : Type := Match {
  m_start : nat;
  m_end : nat;
  m_groups : list (string * str)
}.

Definition match_at (r : regex) (s : str) (i : nat) : option match_obj :=
  run r (MState (rev (firstn i s)) (skipn i s) [])
      (fun st => Some (Match i (length (seen st)) (caps st))).

(** [pattern.match(s)] *)
Definition re_match (r : regex) (s : str) : option match_obj := match_at r s 0.

Fixpoint first_some {A B : Type} (f : A -> option B) (l : list A) : option B :=
  match l with
  | [] => None
  | x :: l' => match f x with Some y => Some y | None => first_some f l' end
  end.

(** [pattern.search(s)]: the leftmost start position that matches. *)
Definition re_search (r : regex) (s : str) : option match_obj :=
  first_some (match_at r s) (seq 0 (S (length s))).

(** [m.group(name)] for a group that took part in the match. *)
Definition group (m : match_obj) (g : string) : str :=
  match get_cap g (m_groups m) with Some v => v | None => [] end.

End Re.

Import Re.

(** ** The patterns of the program *)

Definition DIGITS : regex := Plus (Chr is_digit).
Definition SPACES : regex := Plus (Chr is_space).
Definition DOT : regex := chr "."%char.

(** The patterns are quoted in verbose form: the blanks inside the quotes
    are not part of the pattern.

    [ \d+ ( \. \d+ )* ] *)
Definition DOTTED : regex := Seq DIGITS (Star (Seq DOT DIGITS)).

(** [[
    ^ (?P<section_id> ( \d+ ( \. \d+ )* ) | ( [A-Za-z] [\w\s]* ) ) \s+
      (?P<title> [^\.]{3,} ) \s+
      (?P<page> \d+ ) \s* $
    ]] *)
Definition TOC_ENTRY_PATTERN : regex :=
  Seq Bol
  (Seq (Grp "section_id"
          (Alt DOTTED
               (Seq (Chr is_ascii_letter)
                    (Star (Chr (fun c => is_word c || is_space c))))))
  (Seq SPACES
  (Seq (Grp "title" (AtLeast3 (Chr (fun c => negb (eqc c "."%char)))))
  (Seq SPACES
  (Seq (Grp "page" DIGITS)
  (Seq (Star (Chr is_space)) Eol)))))).

(** [ \b (Figure|Table) \s+ \d+ ] compiled with IGNORECASE. *)
Definition FIGURE_TABLE_PATTERN : regex :=
  Seq WordB
  (Seq (Alt (Lit chr_ci (L "Figure")) (Lit chr_ci (L "Table")))
  (Seq SPACES DIGITS)).

(** [ ^ \d+ ( \. \d+ )* $ ] *)
Definition NUMERIC_ID_PATTERN : regex := Seq Bol (Seq DOTTED Eol).

(** [re.escape(s)] compiled under IGNORECASE: the characters of [s], each
    compared after lower-casing. *)
Definition escaped_ci (s : str) : regex := Lit chr_ci s.

(** ** Entries and sections *)

Record entry : Type := Entry {
  doc_title : str;
  section_id : str;
  title : str;
  page : Z;
  level : nat;
  parent_id : option str;
  full_path : str;
  tags : list str
}.

(** [entry['page'] = p] *)
Definition set_page (e : entry) (p : Z) : entry :=
  Entry (doc_title e) (section_id e) (title e) p (level e) (parent_id e)
        (full_path e) (tags e).

(** A section is a copy of its entry with the key [content] added. *)
Record section : Type := Section_ {
  sec_entry : entry;
  content : str
}.

(** ** The table of contents *)

Definition is_match (m : option match_obj) : bool :=
  match m with Some _ => true | None => false end.

(** Hierarchy level and parent of a section id. *)
Definition hierarchy (sid : str) : nat * option str :=
  if is_match (re_match NUMERIC_ID_PATTERN sid) then
    let parts := split "."%char sid in
    let level := length parts in
    (level, if 1 <? level then Some (join (L ".") (removelast parts)) else None)
  else (1, None).

(** The tags of a title. *)
Definition derive_tags (title : str) : list str :=
  if is_match (re_search FIGURE_TABLE_PATTERN title)
  then [if contains (L "Figure") title then L "figure" else L "table"]
  else [].

Definition parse_toc_entry (line : str) (doc_title : str) : option entry :=
  match re_match TOC_ENTRY_PATTERN (strip line) with
  | None => None
  | Some m =>
      let section_id := strip (group m "section_id") in
      let title := strip (group m "title") in
      let page := int_of_digits (strip (group m "page")) in
      let (level, parent_id) := hierarchy section_id in
      let full_path := strip (section_id ++ L " " ++ title) in
      Some (Entry doc_title section_id title page level parent_id full_path
                  (derive_tags title))
  end.

(** The lines of one page that look like entries, each with the page index. *)
Definition toc_lines_of_page (i : nat) (text : str) : list (nat * str) :=
  map (fun line => (i, strip line))
      (filter (fun line => is_match (re_match TOC_ENTRY_PATTERN (strip line)))
              (split (ascii_of_nat 10) text)).

Definition find_toc_content (text_pages : list str) : result (list (nat * str)) :=
  let toc_lines :=
    flat_map (fun it => toc_lines_of_page (fst it) (snd it))
             (enumerate text_pages) in
  match toc_lines with
  | [] => Raise (RuntimeError
                   "Could not find Table of Contents content in the document.")
  | _ :: _ => Ok toc_lines
  end.

Definition parse_toc_entries (toc_lines : list (nat * str)) (doc_title : str)
  : list entry :=
  flat_map (fun pl =>
              match parse_toc_entry (snd pl) doc_title with
              | Some e => [set_page e (Z.of_nat (fst pl) + 1)]
              | None => []
              end) toc_lines.

(** ** Section extraction *)

(** The body of the loop over the middle pages. *)
Definition append_page (text_pages : list str) (acc : result (list str))
  (page_num : Z) : result (list str) :=
  parts <- acc ;;
  text <- index text_pages page_num ;;
  Ok (parts ++ [strip text]).

Definition _extract_section_content (text_pages : list str) (sec : entry)
  (next_section : option entry) : result str :=
  let n := Z.of_nat (length text_pages) in
  let start_page := (page sec - 1)%Z in
  let end_page :=
    match next_section with
    | Some nx => (page nx - 1)%Z
    | None => n
    end in
  let start_page := Z.max 0 (Z.min start_page (n - 1)) in
  let end_page := Z.min end_page n in
  page_text <- index text_pages start_page ;;
  let content_parts :=
    match re_search (escaped_ci (section_id sec)) page_text with
    | Some m => [strip (skipn (m_end m) page_text)]
    | None => [strip page_text]
    end in
  content_parts <-
    fold_left (append_page text_pages) (range (start_page + 1) end_page)
              (Ok content_parts) ;;
  content_parts <-
    match next_section with
    | Some nx =>
        if (end_page <? n)%Z then
          end_page_text <- index text_pages end_page ;;
          match re_search (escaped_ci (section_id nx)) end_page_text with
          | Some m =>
              Ok (content_parts ++ [strip (firstn (m_start m) end_page_text)])
          | None => Ok (content_parts ++ [strip end_page_text])
          end
        else Ok content_parts
    | None => Ok content_parts
    end ;;
  Ok (strip (join (L " ") content_parts)).

(** [sorted(l, key=page)]: the stable sort by page. *)
Fixpoint insert_by_page (e : entry) (l : list entry) : list entry :=
  match l with
  | [] => [e]
  | x :: l' =>
      if (page x <? page e)%Z then x :: insert_by_page e l' else e :: l
  end.

Definition sorted_by_page (l : list entry) : list entry :=
  fold_right insert_by_page [] l.

Definition parse_document_sections (text_pages : list str)
  (toc_entries : list entry) : result (list section) :=
  let sorted_toc := sorted_by_page toc_entries in
  fold_left
    (fun acc it =>
       parsed_sections <- acc ;;
       let next_section := nth_error sorted_toc (fst it + 1) in
       content <- _extract_section_content text_pages (snd it) next_section ;;
       Ok (parsed_sections ++ [Section_ (snd it) content]))
    (enumerate sorted_toc) (Ok []).

(** ** Reconciliation report

    Data frames are lists of rows.  A missing value (NaN) is [None].  The
    order in which an outer merge lists its rows depends on the version of
    the data-frame library; the rows are given here left frame first, and
    only facts that do not depend on their order are stated about them. *)

Module Report.

Inductive cell : Type :=
| CStr (s : str)
| CInt (z : Z)
| NaN.

Record sheet : Type := Sheet {
  columns : list str;
  rows : list (list cell)
}.

(** The workbook with its two sheets, "Summary" and "Detailed Comparison". *)
Record workbook : Type := Workbook {
  summary : sheet;
  detailed : sheet
}.

(** A row of a frame restricted to section_id, title, page. *)
Definition frame_row : Type := (str * str * Z)%type.

Definition key (r : frame_row) : str := fst (fst r).

Definition of_entry (e : entry) : frame_row := (section_id e, title e, page e).

(** A row of the merged frame. *)
Record merged_row : Type := Merged {
  m_section_id : str;
  title_toc : option str;
  page_toc : option Z;
  title_parsed : option str;
  page_parsed : option Z
}.

Fixpoint str_eqb (a b : str) : bool :=
  match a, b with
  | [], [] => true
  | x :: a', y :: b' => eqc x y && str_eqb a' b'
  | _, _ => false
  end.

Definition same_key (a b : frame_row) : bool := str_eqb (key a) (key b).

Definition both (l r : frame_row) : merged_row :=
  Merged (key l) (Some (snd (fst l))) (Some (snd l))
         (Some (snd (fst r))) (Some (snd r)).

Definition left_only (l : frame_row) : merged_row :=
  Merged (key l) (Some (snd (fst l))) (Some (snd l)) None None.

Definition right_only (r : frame_row) : merged_row :=
  Merged (key r) None None (Some (snd (fst r))) (Some (snd r)).

(** [pd.merge(left, right, on="section_id", how="outer")] *)
Definition merge_outer (left right : list frame_row) : list merged_row :=
  flat_map (fun l =>
              match filter (same_key l) right with
              | [] => [left_only l]
              | ms => map (both l) ms
              end) left
  ++ map right_only
       (filter (fun r => negb (existsb (fun l => same_key l r) left)) right).

Definition isna {A : Type} (v : option A) : bool :=
  match v with None => true | Some _ => false end.

(** [df.dropna()]: the rows without any missing value. *)
Definition dropna (df : list merged_row) : list merged_row :=
  filter (fun r => negb (isna (title_toc r) || isna (page_toc r)
                         || isna (title_parsed r) || isna (page_parsed r))) df.

Definition opt_str (v : option str) : cell :=
  match v with Some s => CStr s | None => NaN end.

Definition opt_int (v : option Z) : cell :=
  match v with Some z => CInt z | None => NaN end.

Definition cells_of_row (r : merged_row) : list cell :=
  [CStr (m_section_id r); opt_str (title_toc r); opt_int (page_toc r);
   opt_str (title_parsed r); opt_int (page_parsed r)].

(** The text an f-string gives for a title cell. *)
Definition fmt_title (v : option str) : str :=
  match v with Some s => s | None => L "nan" end.

Definition count {A : Type} (l : list A) : cell := CInt (Z.of_nat (length l)).

Definition generate_validation_report (toc_entries : list entry)
  (parsed_sections : list section) : result workbook :=
  match toc_entries with
  | [] =>
      Ok (Workbook
            (Sheet [L "Status"] [[CStr (L "No TOC entries found")]])
            (Sheet [L "section_id"; L "title"; L "page"] []))
  | _ :: _ =>
      let toc_df := map of_entry toc_entries in
      parsed_df <-
        match parsed_sections with
        | [] => Raise KeyError
        | _ :: _ => Ok (map (fun s => of_entry (sec_entry s)) parsed_sections)
        end ;;
      let comparison_df := merge_outer toc_df parsed_df in
      let toc_only := filter (fun r => isna (title_parsed r)) comparison_df in
      let parsed_only := filter (fun r => isna (title_toc r)) comparison_df in
      let report_data :=
        [ [CStr (L "Total Sections in TOC"); count toc_entries];
          [CStr (L "Total Sections Parsed"); count parsed_sections];
          [CStr (L "Sections Matched"); count (dropna comparison_df)];
          [CStr (L "Sections in TOC only"); count toc_only];
          [CStr (L "Sections in Parsed only"); count parsed_only] ] in
      let report_data :=
        match toc_only with
        | [] => report_data
        | _ :: _ =>
            report_data ++ [[CStr (L "Sections in TOC only:"); CStr []]]
            ++ map (fun r => [CStr (m_section_id r ++ L " - "
                                      ++ fmt_title (title_toc r)); CStr []])
                   toc_only
        end in
      let report_data :=
        match parsed_only with
        | [] => report_data
        | _ :: _ =>
            report_data ++ [[CStr (L "Sections in Parsed only:"); CStr []]]
            ++ map (fun r => [CStr (m_section_id r ++ L " - "
                                      ++ fmt_title (title_parsed r)); CStr []])
                   parsed_only
        end in
      Ok (Workbook
            (Sheet [L "Metric"; L "Value"] report_data)
            (Sheet [L "section_id"; L "title_toc"; L "page_toc";
                    L "title_parsed"; L "page_parsed"]
                   (map cells_of_row comparison_df)))
  end.

End Report.

Import Report.

(** ** Vocabulary of the specification

    The definitions below follow the wording of the specification, not the
    code; the theorems compare them with the program. *)

Module Spec.

Definition nl : ascii := ascii_of_nat 10.

(** What a pattern denotes: [matches r b s a] says that [r] matches the
    text [s] when [b] is the text before it (last character first) and [a]
    the text after it. *)
Inductive matches : regex -> str -> str -> str -> Prop :=
| M_Empty b a : matches Empty b [] a
| M_Chr p c b a : p c = true -> matches (Chr p) b [c] a
| M_Seq r1 r2 b s1 s2 a :
    matches r1 b s1 (s2 ++ a) ->
    matches r2 (rev s1 ++ b) s2 a ->
    matches (Seq r1 r2) b (s1 ++ s2) a
| M_AltL r1 r2 b s a : matches r1 b s a -> matches (Alt r1 r2) b s a
| M_AltR r1 r2 b s a : matches r2 b s a -> matches (Alt r1 r2) b s a
| M_Star0 r b a : matches (Star r) b [] a
| M_StarS r b s1 s2 a :
    s1 <> [] ->
    matches r b s1 (s2 ++ a) ->
    matches (Star r) (rev s1 ++ b) s2 a ->
    matches (Star r) b (s1 ++ s2) a
| M_Grp g r b s a : matches r b s a -> matches (Grp g r) b s a
| M_Bol a : matches Bol [] [] a
| M_Eol b a : at_eol a = true -> matches Eol b [] a
| M_WordB b a :
    xorb (word_before (MState b a [])) (word_after (MState b a [])) = true ->
    matches WordB b [] a.

(** A text that does not start with a character of the class [p]. *)
Definition clean_head (p : ascii -> bool) (s : str) : Prop :=
  match s with
  | [] => True
  | c :: _ => p c = false
  end.

(** A text without white space at either end: its own trimmed form. *)
Definition trimmed (s : str) : Prop :=
  clean_head is_space s /\ clean_head is_space (rev s).

(** A non-empty run of decimal digits. *)
Definition all_digits (s : str) : bool :=
  match s with
  | [] => false
  | _ :: _ => forallb is_digit s
  end.

(** "digits(.digits)*": every dot-separated component is a run of digits. *)
Definition dotted_digits (s : str) : bool :=
  forallb all_digits (split "."%char s).

(** The Entry Recognizer accepts a line. *)
Definition accepts (line : str) : bool :=
  match parse_toc_entry line [] with
  | Some _ => true
  | None => false
  end.

(** [p] occurs at the very start of [s], letter case ignored. *)
Fixpoint ci_prefix (p s : str) : bool :=
  match p, s with
  | [], _ => true
  | _ :: _, [] => false
  | a :: p', b :: s' => eqc (to_lower b) (to_lower a) && ci_prefix p' s'
  end.

(** Position of the first case-insensitive occurrence of [p] in [s]. *)
Fixpoint find_ci (p s : str) : option nat :=
  if ci_prefix p s then Some 0
  else match s with
       | [] => None
       | _ :: s' => option_map S (find_ci p s')
       end.

(** The text after the end of the first occurrence of the heading, the
    whole text when there is none. *)
Definition after_heading (sid text : str) : str :=
  match find_ci sid text with
  | Some i => skipn (i + length sid) text
  | None => text
  end.

(** The text before the first occurrence of the heading, the whole text
    when there is none. *)
Definition before_heading (sid text : str) : str :=
  match find_ci sid text with
  | Some i => firstn i text
  | None => text
  end.

Definition page_count (text_pages : list str) : Z :=
  Z.of_nat (length text_pages).

(** An entry of the data model: its page is a positive integer. *)
Definition valid_entry (e : entry) : Prop := (1 <= page e)%Z.

(** Step 1: entry.page - 1 clamped into [0, pageCount - 1]. *)
Definition start_page_of (text_pages : list str) (e : entry) : Z :=
  Z.max 0 (Z.min (page e - 1) (page_count text_pages - 1)).

(** Step 2: next_entry.page - 1, or pageCount without a next entry. *)
Definition end_page_of (text_pages : list str) (next : option entry) : Z :=
  match next with
  | Some nx => (page nx - 1)%Z
  | None => page_count text_pages
  end.

Definition valid_index (text_pages : list str) (i : Z) : bool :=
  (0 <=? i)%Z && (i <? page_count text_pages)%Z.

Definition page_at (text_pages : list str) (i : Z) : str :=
  nth (Z.to_nat i) text_pages [].

(** The pages strictly between two indices, in page order. *)
Definition pages_between (text_pages : list str) (a b : Z) : list str :=
  map snd
      (filter (fun it => (a <? Z.of_nat (fst it))%Z && (Z.of_nat (fst it) <? b)%Z)
              (enumerate text_pages)).

(** The fragments (a), (b), (c) of a section. *)
Definition fragments (text_pages : list str) (e : entry) (next : option entry)
  : list str :=
  let sp := start_page_of text_pages e in
  let ep := end_page_of text_pages next in
  [after_heading (section_id e) (page_at text_pages sp)]
  ++ pages_between text_pages sp ep
  ++ match next with
     | Some nx =>
         if valid_index text_pages ep
         then [before_heading (section_id nx) (page_at text_pages ep)]
         else []
     | None => []
     end.

(** The content as the claim words it: the fragments joined, then trimmed. *)
Definition joined_content (text_pages : list str) (e : entry)
  (next : option entry) : str :=
  strip (join (L " ") (fragments text_pages e next)).

(** The content with every fragment trimmed before the join. *)
Definition trimmed_content (text_pages : list str) (e : entry)
  (next : option entry) : str :=
  strip (join (L " ") (map strip (fragments text_pages e next))).

(** The window of an entry is degenerate when its end page is its start
    page. *)
Definition degenerate (text_pages : list str) (e : entry) (next : option entry)
  : Prop :=
  exists nx, next = Some nx /\
             start_page_of text_pages e = end_page_of text_pages next.

(** Both frames hold the same (section_id, title, page) rows. *)
Definition same_rows (toc : list entry) (parsed : list section) : Prop :=
  map (fun s => of_entry (sec_entry s)) parsed = map of_entry toc.

(** Rows of the detailed sheet by kind. *)
Definition is_nan (c : cell) : bool :=
  match c with NaN => true | _ => false end.

Definition toc_only_row (cells : list cell) : bool := is_nan (nth 3 cells NaN).
Definition parsed_only_row (cells : list cell) : bool := is_nan (nth 1 cells NaN).
Definition matched_row (cells : list cell) : bool :=
  forallb (fun c => negb (is_nan c)) cells.

Definition count_rows (p : list cell -> bool) (sh : sheet) : nat :=
  length (filter p (rows sh)).

End Spec.

Import Spec.

(** ** Sample documents *)

(** The document title that [main] passes on. *)
Definition doc0 : str :=
  L "Universal Serial Bus Power Delivery Specification, Revision 3.2, Version 1.1, 2024-10".

(** Three pages; the first and the last carry one entry line each. *)
Definition pages3 : list str :=
  [ L "1 Intro text 9" ++ [nl] ++ L "hello" ++ [nl];
    L "body" ++ [nl];
    L "2 Next part 9" ++ [nl] ++ L "more" ].

(** One page with two entry lines. *)
Definition pages1 : list str :=
  [ L "1 Intro text 5" ++ [nl] ++ L "2 Next part 7" ++ [nl] ].

(** The first steps of [main] on the page texts of a document. *)
Definition entries_of (text_pages : list str) : result (list entry) :=
  toc_lines <- find_toc_content text_pages ;;
  Ok (parse_toc_entries toc_lines doc0).

Definition sections_of (text_pages : list str) : result (list section) :=
  toc_entries <- entries_of text_pages ;;
  parse_document_sections text_pages toc_entries.

Definition or_nil {A : Type} (r : result (list A)) : list A :=
  match r with Ok l => l | Raise _ => [] end.

(** The entries assembled from the sample documents. *)
Definition toc3 : list entry := Eval vm_compute in or_nil (entries_of pages3).
Definition toc1 : list entry := Eval vm_compute in or_nil (entries_of pages1).

Definition contents_of (r : result (list section)) : result (list str) :=
  secs <- r ;; Ok (map content secs).

(** Two pages that repeat one entry line. *)
Definition pages_dup : list str :=
  [ L "1 Intro text 5" ++ [nl]; L "1 Intro text 5" ++ [nl] ].

Definition toc_dup : list entry :=
  Eval vm_compute in or_nil (entries_of pages_dup).

Definition secs_dup : list section :=
  Eval vm_compute in or_nil (parse_document_sections pages_dup toc_dup).

Definition secs3 : list section :=
  Eval vm_compute in or_nil (parse_document_sections pages3 toc3).

(** ** Named groups in what a pattern denotes *)

Module Captures.

(** [captures r b s a cs cs'] refines [matches r b s a]: starting with the
    groups [cs], matching [s] leaves the groups [cs']. *)
Inductive captures :
  regex -> str -> str -> str ->
  list (string * str) -> list (string * str) -> Prop :=
| C_Empty b a cs : captures Empty b [] a cs cs
| C_Chr p c b a cs : p c = true -> captures (Chr p) b [c] a cs cs
| C_Seq r1 r2 b s1 s2 a cs cs1 cs2 :
    captures r1 b s1 (s2 ++ a) cs cs1 ->
    captures r2 (rev s1 ++ b) s2 a cs1 cs2 ->
    captures (Seq r1 r2) b (s1 ++ s2) a cs cs2
| C_AltL r1 r2 b s a cs cs1 :
    captures r1 b s a cs cs1 -> captures (Alt r1 r2) b s a cs cs1
| C_AltR r1 r2 b s a cs cs1 :
    captures r2 b s a cs cs1 -> captures (Alt r1 r2) b s a cs cs1
| C_Star0 r b a cs : captures (Star r) b [] a cs cs
| C_StarS r b s1 s2 a cs cs1 cs2 :
    s1 <> [] ->
    captures r b s1 (s2 ++ a) cs cs1 ->
    captures (Star r) (rev s1 ++ b) s2 a cs1 cs2 ->
    captures (Star r) b (s1 ++ s2) a cs cs2
| C_Grp g r b s a cs cs1 :
    captures r b s a cs cs1 ->
    captures (Grp g r) b s a cs (set_cap g s cs1)
| C_Bol a cs : captures Bol [] [] a cs cs
| C_Eol b a cs : at_eol a = true -> captures Eol b [] a cs cs
| C_WordB b a cs :
    xorb (word_before (MState b a [])) (word_after (MState b a [])) = true ->
    captures WordB b [] a cs cs.

(** A pattern without named groups. *)
Fixpoint groupless (r : regex) : bool :=
  match r with
  | Seq r1 r2 | Alt r1 r2 => groupless r1 && groupless r2
  | Star r1 => groupless r1
  | Grp _ _ => false
  | _ => true
  end.

End Captures.

Import Captures.

(** ** The shape of an entry line *)

Module Shape.

Definition no_period (c : ascii) : bool := negb (eqc c "."%char).

Definition word_or_space (c : ascii) : bool := is_word c || is_space c.

(** A letter followed by word characters and white space. *)
Definition alpha_id (s : str) : bool :=
  match s with
  | [] => false
  | c :: r => is_ascii_letter c && forallb word_or_space r
  end.

(** A non-empty run of white space. *)
Definition blanks (s : str) : bool :=
  match s with
  | [] => false
  | _ :: _ => forallb is_space s
  end.

(** Identifier, gap, title of three or more characters without a period,
    gap, page digits. *)
Definition entry_line (sid gap1 ttl gap2 pg : str) : Prop :=
  (dotted_digits sid = true \/ alpha_id sid = true) /\
  blanks gap1 = true /\
  3 <= length ttl /\ forallb no_period ttl = true /\
  blanks gap2 = true /\
  all_digits pg = true.

(** The number of periods of a text. *)
Definition periods (s : str) : nat :=
  length (filter (fun c => eqc c "."%char) s).

(** A reference to a figure or a table: the word in any letter case, not
    preceded by a word character, then white space, then a digit. *)
Definition reference (pre w gap : str) (d : ascii) : Prop :=
  clean_head is_word (rev pre) /\
  (map to_lower w = L "figure" \/ map to_lower w = L "table") /\
  blanks gap = true /\
  is_digit d = true.

End Shape.

Import Shape.

(** ** Writing the records: [json.dumps] and [save_jsonl]

    The encoder is the default one: keys in insertion order, ", " and ": "
    as separators, every character outside the printable ASCII range
    escaped. *)

Module Json.

Definition quote : ascii := ascii_of_nat 34.
Definition backslash : ascii := ascii_of_nat 92.

Definition hex (n : nat) : ascii := nth n (L "0123456789abcdef") "0"%char.

Definition escape_char (c : ascii) : str :=
  let n := code c in
  if n =? 34 then [backslash; quote]
  else if n =? 92 then [backslash; backslash]
  else if n =? 10 then L "\n"
  else if n =? 13 then L "\r"
  else if n =? 9 then L "\t"
  else if n =? 8 then L "\b"
  else if n =? 12 then L "\f"
  else if between 32 126 n then [c]
  else L "\u00" ++ [hex (n / 16); hex (n mod 16)].

Definition dumps_str (s : str) : str :=
  [quote] ++ flat_map escape_char s ++ [quote].

Definition dumps_int (z : Z) : str := L (NilZero.string_of_int (Z.to_int z)).

Definition dumps_opt (v : option str) : str :=
  match v with
  | Some s => dumps_str s
  | None => L "null"
  end.

Definition dumps_list (l : list str) : str :=
  L "[" ++ join (L ", ") (map dumps_str l) ++ L "]".

Definition dumps_dict (items : list (str * str)) : str :=
  L "{"
  ++ join (L ", ") (map (fun kv => dumps_str (fst kv) ++ L ": " ++ snd kv) items)
  ++ L "}".

(** The keys of an entry, in the order the program inserts them. *)
Definition entry_items (e : entry) : list (str * str) :=
  [ (L "doc_title", dumps_str (doc_title e));
    (L "section_id", dumps_str (section_id e));
    (L "title", dumps_str (title e));
    (L "page", dumps_int (page e));
    (L "level", dumps_int (Z.of_nat (level e)));
    (L "parent_id", dumps_opt (parent_id e));
    (L "full_path", dumps_str (full_path e));
    (L "tags", dumps_list (tags e)) ].

Definition dumps_entry (e : entry) : str := dumps_dict (entry_items e).

Definition dumps_section (s : section) : str :=
  dumps_dict (entry_items (sec_entry s)
              ++ [(L "content", dumps_str (content s))]).

(** A printable ASCII character: from the blank to the tilde. *)
Definition printable (c : ascii) : bool := between 32 126 (code c).

(** The text [save_jsonl] writes: one record and a line break per item. *)
Definition save_jsonl {A : Type} (dumps : A -> str) (data : list A) : str :=
  flat_map (fun item => dumps item ++ [nl]) data.

End Json.

Import Json.

(** ** Entries and sections with and without a partner *)

Module Tally.

Definition same_id (e : entry) (s : section) : bool :=
  str_eqb (section_id e) (section_id (sec_entry s)).

(** The entries whose identifier no section carries. *)
Definition unmatched_entries (toc : list entry) (parsed : list section)
  : list entry :=
  filter (fun e => negb (existsb (same_id e) parsed)) toc.

(** The sections whose identifier no entry carries. *)
Definition unmatched_sections (toc : list entry) (parsed : list section)
  : list section :=
  filter (fun s => negb (existsb (fun e => same_id e s) toc)) parsed.

(** The pairs of an entry and a section with the same identifier. *)
Definition matching_pairs (toc : list entry) (parsed : list section)
  : list (entry * section) :=
  filter (fun pr => same_id (fst pr) (snd pr)) (list_prod toc parsed).

End Tally.

Import Tally.

(** ** The driver

    What the file system and the PDF library answer is a parameter; the
    effects of a run are listed in the order they happen.  Console output
    is left out. *)

Module Driver.

Definition PDF_PATH : str := L "USB_PD_R3_2 V1.1 2024-10.pdf".
Definition OUTPUT_DIR : str := L "output_fixed".

Inductive failure : Type :=
| FileNotFoundError (msg : str)
| IOError (msg : str)
| Raised (e : exn).

(** Whether a path exists, and what opening and reading it gives: the page
    texts, or the text of the exception the library raises. *)
Record world : Type := World {
  path_exists : str -> bool;
  read_pages : str -> str + list str
}.

Inductive effect : Type :=
| Makedirs (dir : str)
| WriteText (dir filename body : str)
| WriteWorkbook (dir filename : str) (wb : workbook).

Definition extract_text_from_pdf (w : world) (pdf_path : str)
  : failure + list str :=
  if negb (path_exists w pdf_path)
  then inl (FileNotFoundError (L "PDF file not found at: " ++ pdf_path))
  else match read_pages w pdf_path with
       | inl e => inl (IOError (L "Error opening or reading PDF file: " ++ e))
       | inr pages => inr pages
       end.

(** The effects of [main] and the exception it ends with, if any. *)
Definition main (w : world) : list effect * option failure :=
  let done := [Makedirs OUTPUT_DIR] in
  match extract_text_from_pdf w PDF_PATH with
  | inl f => (done, Some f)
  | inr text_pages =>
      match find_toc_content text_pages with
      | Raise e => (done, Some (Raised e))
      | Ok toc_lines =>
          let toc_entries := parse_toc_entries toc_lines doc0 in
          match parse_document_sections text_pages toc_entries with
          | Raise e => (done, Some (Raised e))
          | Ok parsed_sections =>
              let done :=
                done
                ++ [WriteText OUTPUT_DIR (L "usb_pd_toc_fixed.jsonl")
                              (save_jsonl dumps_entry toc_entries);
                    WriteText OUTPUT_DIR (L "usb_pd_spec_fixed.jsonl")
                              (save_jsonl dumps_section parsed_sections)] in
              match generate_validation_report toc_entries parsed_sections with
              | Raise e => (done, Some (Raised e))
              | Ok wb =>
                  (done ++ [WriteWorkbook OUTPUT_DIR
                              (L "validation_report_fixed.xlsx") wb],
                   None)
              end
          end
      end
  end.

(** A world in which every path exists and holds the given pages. *)
Definition world_of (text_pages : list str) : world :=
  World (fun _ => true) (fun _ => inr text_pages).

End Driver.

Import Driver.

(** * Properties *)

Ltac inv H := inversion H; subst; clear H.

(** ** Strings *)

Section DropWhile.

Variable p : ascii -> bool.

Lemma drop_while_clean (s : str) : clean_head p (drop_while p s).
Proof.
  induction s as [|c s IH]; simpl; [exact I|].
  destruct (p c) eqn:E; [exact IH|]. simpl. exact E.
Qed.

Lemma drop_while_id (s : str) : clean_head p s -> drop_while p s = s.
Proof.
  destruct s as [|c s]; simpl; [reflexivity|].
  intros ->. reflexivity.
Qed.

Lemma drop_while_split (s : str) :
  exists pre, s = pre ++ drop_while p s /\ forallb p pre = true.
Proof.
  induction s as [|c s (pre & E & F)]; simpl.
  - exists []. split; reflexivity.
  - destruct (p c) eqn:Pc.
    + exists (c :: pre). simpl. rewrite Pc, F. split; [congruence|reflexivity].
    + exists []. split; reflexivity.
Qed.

Lemma clean_head_prefix (u v : str) :
  clean_head p (u ++ v) -> clean_head p u.
Proof. destruct u; simpl; auto. Qed.

End DropWhile.

Lemma rstrip_prefix (s : str) : exists suf, s = rstrip s ++ suf.
Proof.
  unfold rstrip.
  destruct (drop_while_split is_space (rev s)) as (pre & E & _).
  exists (rev pre).
  rewrite <- rev_app_distr, <- E. symmetry. apply rev_involutive.
Qed.

Lemma strip_trimmed (s : str) : trimmed (strip s).
Proof.
  unfold trimmed, strip. split.
  - destruct (rstrip_prefix (lstrip s)) as (suf & E).
    apply clean_head_prefix with (v := suf). rewrite <- E.
    apply drop_while_clean.
  - unfold rstrip. rewrite rev_involutive. apply drop_while_clean.
Qed.

Lemma trimmed_strip (s : str) : trimmed s -> strip s = s.
Proof.
  intros [H1 H2]. unfold strip, lstrip, rstrip.
  rewrite (drop_while_id _ _ H1), (drop_while_id _ _ H2).
  apply rev_involutive.
Qed.

Lemma strip_idempotent (s : str) : strip (strip s) = strip s.
Proof. apply trimmed_strip, strip_trimmed. Qed.

Lemma trimmed_last (s : str) (c : ascii) :
  trimmed (s ++ [c]) -> is_space c = false.
Proof.
  intros [_ H]. rewrite rev_app_distr in H. exact H.
Qed.

Lemma drop_while_all (p : ascii -> bool) (s : str) :
  forallb p s = true -> drop_while p s = [].
Proof.
  induction s as [|c s IH]; simpl; [reflexivity|].
  intros H. apply andb_prop in H as [-> H]. apply IH. exact H.
Qed.

Lemma drop_while_nil (p : ascii -> bool) (s : str) :
  drop_while p s = [] -> forallb p s = true.
Proof.
  intros H. destruct (drop_while_split p s) as (pre & E & F).
  rewrite H, app_nil_r in E. subst. exact F.
Qed.

Lemma forallb_rev_true (p : ascii -> bool) (s : str) :
  forallb p (rev s) = true -> forallb p s = true.
Proof.
  rewrite !forallb_forall. intros H c Hc. apply H, in_rev.
  rewrite rev_involutive. exact Hc.
Qed.

(** Trimming leaves nothing exactly when the text is all white space. *)
Lemma strip_nil_iff (s : str) : strip s = [] <-> forallb is_space s = true.
Proof.
  unfold strip, rstrip, lstrip. split.
  - intros H. apply (f_equal (@rev ascii)) in H.
    rewrite rev_involutive in H. simpl in H.
    apply drop_while_nil, forallb_rev_true in H.
    pose proof (drop_while_clean is_space s) as C.
    destruct (drop_while is_space s) as [|c t] eqn:E.
    + apply drop_while_nil. exact E.
    + simpl in C, H. rewrite C in H. discriminate.
  - intros H. rewrite (drop_while_all _ _ H). reflexivity.
Qed.

Lemma eqc_eq (a b : ascii) : eqc a b = true <-> a = b.
Proof. apply Ascii.eqb_eq. Qed.

Lemma eqc_refl (a : ascii) : eqc a a = true.
Proof. apply Ascii.eqb_refl. Qed.

(** ** The matcher and what patterns denote *)

Section Engine.

Variable A : Type.

Lemma state_eta (st : mstate) : MState (seen st) (ahead st) (caps st) = st.
Proof. destruct st; reflexivity. Qed.

Lemma star_loop_sound (r : regex) (k : mstate -> option A) (x : A) :
  (forall st k', run r st k' = Some x ->
     exists s a' cs', ahead st = s ++ a' /\ matches r (seen st) s a' /\
                      k' (MState (rev s ++ seen st) a' cs') = Some x) ->
  forall n st, star_loop (run r) k n st = Some x ->
    exists s a' cs', ahead st = s ++ a' /\ matches (Star r) (seen st) s a' /\
                     k (MState (rev s ++ seen st) a' cs') = Some x.
Proof.
  intros IHr n. induction n as [|n IHn]; intros st H; simpl in H.
  - exists [], (ahead st), (caps st). simpl. rewrite state_eta.
    repeat split; [constructor | exact H].
  - destruct (run r st _) as [y|] eqn:E.
    + injection H as ->.
      apply IHr in E. destruct E as (s1 & a1 & cs1 & E1 & M1 & K1). simpl in K1.
      destruct (length a1 <? length (ahead st)) eqn:Lt; [|discriminate].
      apply IHn in K1. simpl in K1.
      destruct K1 as (s2 & a2 & cs2 & E2 & M2 & K2).
      exists (s1 ++ s2), a2, cs2. repeat split.
      * rewrite E1, E2. apply app_assoc.
      * apply M_StarS; [| rewrite <- E2; exact M1 | exact M2].
        intros ->. simpl in E1. rewrite E1 in Lt.
        apply Nat.ltb_lt in Lt. lia.
      * rewrite rev_app_distr, <- app_assoc. exact K2.
    + exists [], (ahead st), (caps st). simpl. rewrite state_eta.
      repeat split; [constructor | exact H].
Qed.

(** Soundness: a run that succeeds has consumed a text the pattern denotes,
    and what follows the pattern has succeeded on the rest. *)
Lemma run_sound (r : regex) :
  forall st (k : mstate -> option A) x, run r st k = Some x ->
    exists s a' cs', ahead st = s ++ a' /\ matches r (seen st) s a' /\
                     k (MState (rev s ++ seen st) a' cs') = Some x.
Proof.
  induction r as [|p|r1 IH1 r2 IH2|r1 IH1 r2 IH2|r IH|g r IH| | |];
    intros st k x H; simpl in H.
  - exists [], (ahead st), (caps st). simpl. rewrite state_eta.
    repeat split; [constructor | exact H].
  - destruct (ahead st) as [|c tl] eqn:E; [discriminate|].
    destruct (p c) eqn:Pc; [|discriminate].
    exists [c], tl, (caps st). repeat split; [constructor; exact Pc | exact H].
  - apply IH1 in H. destruct H as (s1 & a1 & cs1 & E1 & M1 & K1).
    apply IH2 in K1. simpl in K1. destruct K1 as (s2 & a2 & cs2 & E2 & M2 & K2).
    exists (s1 ++ s2), a2, cs2. repeat split.
    + rewrite E1, E2. apply app_assoc.
    + constructor; [rewrite <- E2; exact M1 | exact M2].
    + rewrite rev_app_distr, <- app_assoc. exact K2.
  - destruct (run r1 st k) as [y|] eqn:E.
    + injection H as ->. apply IH1 in E.
      destruct E as (s & a' & cs' & E1 & M1 & K1).
      exists s, a', cs'. repeat split; [exact E1 | apply M_AltL; exact M1 | exact K1].
    + apply IH2 in H. destruct H as (s & a' & cs' & E1 & M1 & K1).
      exists s, a', cs'. repeat split; [exact E1 | apply M_AltR; exact M1 | exact K1].
  - eapply star_loop_sound; [|exact H]. intros st' k'. apply IH.
  - apply IH in H. destruct H as (s & a' & cs' & E1 & M1 & K1). simpl in K1.
    exists s, a'. eexists. repeat split; [exact E1 | constructor; exact M1 | exact K1].
  - destruct (seen st) eqn:E; [|discriminate].
    exists [], (ahead st), (caps st). simpl. rewrite <- E, state_eta.
    rewrite E. repeat split; [constructor | exact H].
  - destruct (at_eol (ahead st)) eqn:E; [|discriminate].
    exists [], (ahead st), (caps st). simpl. rewrite state_eta.
    repeat split; [constructor; exact E | exact H].
  - destruct (xorb _ _) eqn:E; [|discriminate].
    exists [], (ahead st), (caps st). simpl. rewrite state_eta.
    repeat split; [constructor; exact E | exact H].
Qed.

Lemma run_fail (r : regex) (st : mstate) (k : mstate -> option A) :
  (forall st', k st' = None) -> run r st k = None.
Proof.
  intros Hk. destruct (run r st k) as [x|] eqn:E; [|reflexivity].
  apply run_sound in E. destruct E as (s & a' & cs' & _ & _ & K).
  rewrite Hk in K. discriminate.
Qed.

Lemma star_loop_ext (body : mstate -> (mstate -> option A) -> option A)
  (k1 k2 : mstate -> option A) :
  (forall st f g, (forall st', f st' = g st') -> body st f = body st g) ->
  (forall st, k1 st = k2 st) ->
  forall n st, star_loop body k1 n st = star_loop body k2 n st.
Proof.
  intros Hb Hk n. induction n as [|n IH]; intros st; simpl.
  - apply Hk.
  - rewrite Hk.
    rewrite (Hb st _ (fun st1 =>
               if length (ahead st1) <? length (ahead st)
               then star_loop body k2 n st1 else None)).
    + reflexivity.
    + intros st'. destruct (_ <? _); [apply IH | reflexivity].
Qed.

Lemma run_ext (r : regex) :
  forall st (f g : mstate -> option A),
    (forall st', f st' = g st') -> run r st f = run r st g.
Proof.
  induction r as [|p|r1 IH1 r2 IH2|r1 IH1 r2 IH2|r IH|g0 r IH| | |];
    intros st f g H; simpl.
  - apply H.
  - destruct (ahead st); [reflexivity|]. destruct (p a); [apply H | reflexivity].
  - apply IH1. intros st'. apply IH2. exact H.
  - rewrite (IH1 st f g H), (IH2 st f g H). reflexivity.
  - apply star_loop_ext; [exact IH | exact H].
  - apply IH. intros st'. apply H.
  - destruct (seen st); [apply H | reflexivity].
  - destruct (at_eol _); [apply H | reflexivity].
  - destruct (xorb _ _); [apply H | reflexivity].
Qed.

(** The bound of a repetition loop does not matter once it covers the text
    ahead. *)
Lemma star_loop_fuel (r : regex) (k : mstate -> option A) :
  forall n m st, length (ahead st) <= n -> length (ahead st) <= m ->
    star_loop (run r) k n st = star_loop (run r) k m st.
Proof.
  assert (Z0 : forall m st, length (ahead st) = 0 ->
            star_loop (run r) k m st = k st).
  { intros [|m] st E; simpl; [reflexivity|].
    rewrite run_fail; [reflexivity|].
    intros st'. rewrite E. reflexivity. }
  induction n as [|n IH]; intros m st Hn Hm.
  - rewrite (Z0 m st) by lia. reflexivity.
  - destruct m as [|m].
    + rewrite (Z0 (S n) st) by lia. reflexivity.
    + simpl.
      rewrite (run_ext r st _ (fun st1 =>
                 if length (ahead st1) <? length (ahead st)
                 then star_loop (run r) k m st1 else None)).
      * reflexivity.
      * intros st'. destruct (_ <? _) eqn:Lt; [|reflexivity].
        apply Nat.ltb_lt in Lt. apply IH; lia.
Qed.

(** Completeness: when the pattern denotes a prefix of the text ahead and
    what follows succeeds on the rest, the run succeeds. *)
Lemma run_complete (r : regex) (b s a : str) :
  matches r b s a ->
  forall (k : mstate -> option A) cs,
    (forall cs', k (MState (rev s ++ b) a cs') <> None) ->
    run r (MState b (s ++ a) cs) k <> None.
Proof.
  induction 1 as [b a|p c b a Pc|r1 r2 b s1 s2 a _ IH1 _ IH2
                 |r1 r2 b s a _ IH|r1 r2 b s a _ IH|r b a
                 |r b s1 s2 a Ne _ IH1 _ IH2|g r b s a _ IH|a|b a E|b a E];
    intros k cs Hk.
  - apply Hk.
  - simpl. rewrite Pc. apply Hk.
  - simpl. rewrite <- app_assoc. apply IH1. intros cs1. apply IH2. intros cs2.
    specialize (Hk cs2). rewrite rev_app_distr, <- app_assoc in Hk. exact Hk.
  - simpl. destruct (run r1 _ k) eqn:E; [discriminate|].
    exfalso. revert E. apply IH. exact Hk.
  - simpl. destruct (run r1 _ k) eqn:E; [discriminate|]. apply IH. exact Hk.
  - simpl. destruct (length a); simpl; [apply Hk|].
    destruct (run r _ _); [discriminate | apply Hk].
  - cbn [run ahead]. rewrite <- app_assoc.
    remember (length (s1 ++ s2 ++ a)) as n eqn:En.
    destruct n as [|n].
    { destruct s1; [congruence | discriminate]. }
    cbn [star_loop ahead].
    match goal with |- match ?X with _ => _ end <> None =>
      destruct X eqn:E; [discriminate|] end.
    exfalso. revert E. apply IH1. intros cs1. cbn [ahead].
    assert (Lt : length (s2 ++ a) < length (s1 ++ s2 ++ a)).
    { rewrite (length_app s1). destruct s1; [congruence | simpl; lia]. }
    apply Nat.ltb_lt in Lt as Lt'. rewrite Lt'.
    rewrite (star_loop_fuel r k n (length (s2 ++ a))); cbn [ahead]; [|lia|lia].
    apply (IH2 k cs1). intros cs2. specialize (Hk cs2).
    rewrite rev_app_distr, <- app_assoc in Hk. exact Hk.
  - simpl. apply IH. intros cs1. simpl. apply Hk.
  - apply Hk.
  - simpl. rewrite E. apply Hk.
  - simpl. unfold word_before, word_after in *. simpl in *. rewrite E. apply Hk.
Qed.

End Engine.

(** ** Section identifiers made of digits and dots *)

Lemma matches_star_chr (p : ascii -> bool) (b s a : str) :
  matches (Star (Chr p)) b s a <-> forallb p s = true.
Proof.
  split.
  - intros H. remember (Star (Chr p)) as r eqn:Er.
    induction H as [| | | | | |r0 b s1 s2 a Ne M1 _ M2 IH2| | | |];
      try discriminate; [reflexivity|].
    injection Er as ->. rewrite forallb_app, IH2 by reflexivity.
    inv M1. simpl.
    match goal with H : p _ = true |- _ => rewrite H end. reflexivity.
  - revert b. induction s as [|c s IH]; intros b H.
    + constructor.
    + simpl in H. apply andb_prop in H as [Pc Ps].
      change (c :: s) with ([c] ++ s).
      apply M_StarS; [discriminate | constructor; exact Pc | apply IH; exact Ps].
Qed.

Lemma matches_digits (b s a : str) :
  matches DIGITS b s a <-> all_digits s = true.
Proof.
  unfold DIGITS, Plus. split.
  - intros H. inv H.
    match goal with H : matches (Chr _) _ _ _ |- _ => inv H end.
    match goal with H : matches (Star _) _ _ _ |- _ =>
      apply matches_star_chr in H; rename H into Hs end.
    match goal with H : is_digit _ = true |- _ => rename H into Hc end.
    simpl. rewrite Hc, Hs. reflexivity.
  - destruct s as [|c s]; simpl; [discriminate|]. intros H.
    apply andb_prop in H as [Pc Ps]. change (c :: s) with ([c] ++ s).
    constructor; [constructor; exact Pc | apply matches_star_chr; exact Ps].
Qed.

Lemma digit_not_dot (c : ascii) : is_digit c = true -> eqc c "."%char = false.
Proof.
  intros H. destruct (eqc c "."%char) eqn:E; [|reflexivity].
  apply eqc_eq in E. subst. discriminate.
Qed.

Lemma split_digits (d : str) :
  forallb is_digit d = true -> split "."%char d = [d].
Proof.
  induction d as [|c d IH]; simpl; [reflexivity|].
  intros H. apply andb_prop in H as [Pc Pd].
  rewrite (digit_not_dot c Pc), (IH Pd). reflexivity.
Qed.

Lemma split_at_dot (d rest : str) :
  forallb is_digit d = true ->
  split "."%char (d ++ "."%char :: rest) = d :: split "."%char rest.
Proof.
  induction d as [|c d IH]; simpl; [reflexivity|].
  intros H. apply andb_prop in H as [Pc Pd].
  rewrite (digit_not_dot c Pc), (IH Pd). reflexivity.
Qed.

Lemma all_digits_forallb (d : str) :
  all_digits d = true -> forallb is_digit d = true.
Proof. destruct d; [discriminate | exact (fun H => H)]. Qed.

Lemma dotted_tail_split (b t a : str) :
  matches (Star (Seq DOT DIGITS)) b t a ->
  forall d, all_digits d = true ->
    forallb all_digits (split "."%char (d ++ t)) = true.
Proof.
  intros H. remember (Star (Seq DOT DIGITS)) as r eqn:Er.
  induction H as [| | | | | |r0 b s1 s2 a Ne M1 _ M2 IH2| | | |];
    try discriminate; intros d Hd.
  - rewrite app_nil_r, split_digits by (apply all_digits_forallb; exact Hd).
    simpl. rewrite Hd. reflexivity.
  - injection Er as ->. inv M1.
    match goal with H : matches DOT _ _ _ |- _ => inv H end.
    match goal with H : eqc _ _ = true |- _ => apply eqc_eq in H; subst end.
    match goal with H : matches DIGITS _ _ _ |- _ =>
      apply matches_digits in H; rename H into Hs end.
    cbn [app].
    rewrite split_at_dot by (apply all_digits_forallb; exact Hd).
    simpl. rewrite Hd. simpl. apply IH2; [reflexivity | exact Hs].
Qed.

Lemma split_nonempty (sep : ascii) (s : str) : split sep s <> [].
Proof.
  destruct s as [|c s]; simpl; [discriminate|].
  destruct (eqc c sep); [discriminate|].
  destruct (split sep s); discriminate.
Qed.

Lemma split_dotted_tail (s : str) :
  forall b a w ws,
    split "."%char s = w :: ws ->
    forallb is_digit w = true ->
    forallb all_digits ws = true ->
    exists t, s = w ++ t /\ matches (Star (Seq DOT DIGITS)) (rev w ++ b) t a.
Proof.
  induction s as [|c s IH]; intros b a w ws E Hw Hws; simpl in E.
  - injection E as <- <-. exists []. split; [reflexivity | constructor].
  - destruct (eqc c "."%char) eqn:Ec.
    + injection E as <- <-. apply eqc_eq in Ec. subst c.
      destruct (split "."%char s) as [|w' ws'] eqn:Es.
      { exfalso. exact (split_nonempty _ _ Es). }
      simpl in Hws. apply andb_prop in Hws as [Hw' Hws'].
      destruct (IH ("."%char :: b) a w' ws' eq_refl
                   (all_digits_forallb w' Hw') Hws') as (t' & E' & M').
      exists ("."%char :: s). split; [reflexivity|]. simpl.
      rewrite E'. change ("."%char :: w' ++ t') with (("."%char :: w') ++ t').
      apply M_StarS; [discriminate | |].
      * change ("."%char :: w') with (["."%char] ++ w').
        constructor; [constructor; apply eqc_refl|].
        apply matches_digits. exact Hw'.
      * simpl. rewrite <- app_assoc. exact M'.
    + destruct (split "."%char s) as [|w' ws'] eqn:Es.
      * exfalso. exact (split_nonempty _ _ Es).
      * injection E as <- <-. simpl in Hw. apply andb_prop in Hw as [Pc Hw'].
        destruct (IH (c :: b) a w' ws' eq_refl Hw' Hws) as (t' & E' & M').
        exists t'. split; [simpl; congruence|].
        simpl. rewrite <- app_assoc. exact M'.
Qed.

(** The pattern for dotted numbers denotes exactly the texts whose
    dot-separated components are all runs of digits. *)
Lemma matches_dotted (b s a : str) :
  matches DOTTED b s a <-> dotted_digits s = true.
Proof.
  unfold DOTTED, dotted_digits. split.
  - intros H. inv H.
    match goal with H : matches DIGITS _ _ _ |- _ =>
      apply matches_digits in H; rename H into Hd end.
    match goal with H : matches (Star _) _ _ _ |- _ =>
      eapply dotted_tail_split; [exact H | exact Hd] end.
  - intros H. destruct (split "."%char s) as [|w ws] eqn:Es.
    { exfalso. exact (split_nonempty _ _ Es). }
    simpl in H. apply andb_prop in H as [Hw Hws].
    destruct (split_dotted_tail s b a w ws Es (all_digits_forallb w Hw) Hws)
      as (t & E & M).
    subst s. constructor; [apply matches_digits; exact Hw | exact M].
Qed.

Lemma numeric_id_match (s : str) :
  is_match (re_match NUMERIC_ID_PATTERN s) = true <->
  exists u v, s = u ++ v /\ dotted_digits u = true /\ at_eol v = true.
Proof.
  unfold re_match, match_at, NUMERIC_ID_PATTERN. simpl firstn. simpl skipn.
  split.
  - intros H. destruct (run _ _ _) as [m|] eqn:E; [|discriminate].
    apply run_sound in E. destruct E as (s' & a' & _ & E1 & M & _).
    simpl in E1, M. inv M.
    match goal with H : matches Bol _ _ _ |- _ => inv H end.
    match goal with H : matches (Seq _ _) _ _ _ |- _ => inv H end.
    match goal with H : matches Eol _ _ _ |- _ => inv H end.
    match goal with H : matches DOTTED _ _ _ |- _ =>
      apply matches_dotted in H; rename H into Hd end.
    match goal with H : at_eol _ = true |- _ => rename H into He end.
    simpl. rewrite app_nil_r. eexists _, a'.
    repeat split; [exact Hd | exact He].
  - intros (u & v & -> & D & V).
    destruct (run _ _ _) as [m|] eqn:E; [reflexivity|]. exfalso.
    revert E.
    apply (run_complete match_obj (Seq Bol (Seq DOTTED Eol)) [] u v).
    + change u with ([] ++ u). constructor; [constructor|]. simpl.
      rewrite <- (app_nil_r u).
      constructor; [apply matches_dotted; exact D | constructor; exact V].
    + intros cs'. discriminate.
Qed.

Lemma is_space_nl : is_space nl = true.
Proof. reflexivity. Qed.

Lemma dotted_digits_nonempty (s : str) : dotted_digits s = true -> s <> [].
Proof. intros H ->. discriminate. Qed.

(** On a trimmed text, the program's test for a numeric identifier is the
    property "digits separated by dots". *)
Lemma numeric_id_trimmed (s : str) :
  trimmed s ->
  is_match (re_match NUMERIC_ID_PATTERN s) = dotted_digits s.
Proof.
  intros T. destruct (dotted_digits s) eqn:D.
  - apply numeric_id_match. exists s, []. rewrite app_nil_r. auto.
  - destruct (is_match _) eqn:E; [|reflexivity].
    apply numeric_id_match in E. destruct E as (u & v & -> & Du & V).
    destruct v as [|c [|c' v]]; simpl in V; try discriminate.
    + rewrite app_nil_r in D. congruence.
    + apply trimmed_last in T. apply Nat.eqb_eq in V.
      assert (c = nl).
      { unfold code in V. rewrite <- (ascii_nat_embedding c), V. reflexivity. }
      subst c. discriminate.
Qed.

(** ** Recognised entries *)

Lemma parse_toc_entry_inv (line doc : str) (e : entry) :
  parse_toc_entry line doc = Some e ->
  exists m,
    re_match TOC_ENTRY_PATTERN (strip line) = Some m /\
    section_id e = strip (group m "section_id") /\
    title e = strip (group m "title") /\
    (level e, parent_id e) = hierarchy (section_id e) /\
    tags e = derive_tags (title e).
Proof.
  unfold parse_toc_entry. intros H.
  destruct (re_match TOC_ENTRY_PATTERN (strip line)) as [m|]; [|discriminate].
  exists m. destruct (hierarchy _) as [lv par] eqn:Eh.
  injection H as <-. simpl. rewrite Eh. repeat split; reflexivity.
Qed.

Lemma accepts_iff_match (line : str) :
  accepts line = is_match (re_match TOC_ENTRY_PATTERN (strip line)).
Proof.
  unfold accepts, parse_toc_entry.
  destruct (re_match TOC_ENTRY_PATTERN (strip line)) as [m|]; [|reflexivity].
  destruct (hierarchy _). reflexivity.
Qed.

Lemma parse_toc_entry_some_iff (line doc : str) :
  (exists e, parse_toc_entry line doc = Some e) <-> accepts line = true.
Proof.
  rewrite accepts_iff_match. unfold parse_toc_entry.
  destruct (re_match TOC_ENTRY_PATTERN (strip line)) as [m|]; simpl.
  - destruct (hierarchy _). split; [reflexivity | eauto].
  - split; [intros [e H]; discriminate | discriminate].
Qed.

(** The title of a recognised entry is its own trimmed form. *)
Lemma title_is_trimmed (line doc : str) (e : entry) :
  parse_toc_entry line doc = Some e ->
  trimmed (title e) /\ strip (title e) = title e.
Proof.
  intros H. apply parse_toc_entry_inv in H.
  destruct H as (m & _ & _ & -> & _).
  split; [apply strip_trimmed | apply strip_idempotent].
Qed.

(** The title of a recognised entry is empty exactly when the text taken
    for the title is all white space. *)
Lemma title_empty_iff (line doc : str) (e : entry) :
  parse_toc_entry line doc = Some e ->
  (title e = [] <->
   exists m, re_match TOC_ENTRY_PATTERN (strip line) = Some m /\
             forallb is_space (group m "title") = true).
Proof.
  intros H. apply parse_toc_entry_inv in H.
  destruct H as (m & Em & _ & -> & _). rewrite strip_nil_iff. split.
  - intros F. exists m. auto.
  - intros (m' & Em' & F). congruence.
Qed.

(** C5, at the line "1     5" (a digit, five blanks, a digit): the line is
    recognised, the three blanks taken for the title are trimmed away, and
    the entry carries the empty title. *)
Theorem blank_title_is_recognised :
  accepts (L "1     5") = true /\
  option_map title (parse_toc_entry (L "1     5") doc0) = Some [] /\
  option_map section_id (parse_toc_entry (L "1     5") doc0) = Some (L "1").
Proof. vm_compute. repeat split; reflexivity. Qed.

(** C4, at the title "see figure 12 here": the pattern finds the figure
    reference whatever its letter case, the test for the word "Figure" is
    case-sensitive, and the tag attached is "table". *)
Theorem lowercase_figure_tagged_table :
  is_match (re_search FIGURE_TABLE_PATTERN (L "see figure 12 here")) = true /\
  derive_tags (L "see figure 12 here") = [L "table"] /\
  option_map tags (parse_toc_entry (L "2 see figure 12 here 7") doc0)
  = Some [L "table"].
Proof. vm_compute. repeat split; reflexivity. Qed.

(** At most one tag is attached, and none without a figure or table
    reference; the tag is "figure" exactly when the title holds the word
    "Figure" in this very letter case. *)
Lemma derive_tags_cases (title : str) :
  derive_tags title
  = if is_match (re_search FIGURE_TABLE_PATTERN title)
    then (if contains (L "Figure") title then [L "figure"] else [L "table"])
    else [].
Proof.
  unfold derive_tags.
  destruct (is_match _); [|reflexivity].
  destruct (contains _ _); reflexivity.
Qed.

Lemma hierarchy_level_pos (sid : str) : 1 <= fst (hierarchy sid).
Proof.
  unfold hierarchy. destruct (is_match _); simpl; [|lia].
  pose proof (split_nonempty "."%char sid) as Hne.
  destruct (split "."%char sid); [congruence | simpl; lia].
Qed.

(** C6: for a recognised entry whose section_id is digits separated by
    dots, level is the number of dot-separated components and parent_id is
    the join of all components but the last, absent at level 1; for any
    other section_id, level is 1 and parent_id is absent. *)
Theorem level_and_parent_of_entry (line doc : str) (e : entry) :
  parse_toc_entry line doc = Some e ->
  let parts := split "."%char (section_id e) in
  (dotted_digits (section_id e) = true ->
     level e = length parts /\
     parent_id e = if level e =? 1 then None
                   else Some (join (L ".") (removelast parts))) /\
  (dotted_digits (section_id e) = false ->
     level e = 1 /\ parent_id e = None).
Proof.
  intros H parts. apply parse_toc_entry_inv in H.
  destruct H as (m & _ & Es & _ & Eh & _).
  assert (T : trimmed (section_id e)) by (rewrite Es; apply strip_trimmed).
  unfold hierarchy in Eh. rewrite (numeric_id_trimmed _ T) in Eh.
  fold parts in Eh. split; intros D; rewrite D in Eh; injection Eh as -> ->.
  - split; [reflexivity|].
    pose proof (split_nonempty "."%char (section_id e)) as Hne. fold parts in Hne.
    destruct parts as [|p0 [|p1 ps]]; [congruence | reflexivity | reflexivity].
  - split; reflexivity.
Qed.

Lemma level_and_parent_of_entry_witness :
  exists e, parse_toc_entry (L "1.2.3 Some title here 12") doc0 = Some e /\
            level e = 3 /\ parent_id e = Some (L "1.2").
Proof.
  eexists. split; [vm_compute; reflexivity|].
  apply (level_and_parent_of_entry (L "1.2.3 Some title here 12") doc0).
  - vm_compute. reflexivity.
  - vm_compute. reflexivity.
Defined.

(** ** Scanning the pages for entry lines *)

Lemma in_combine_seq {A : Type} (l : list A) :
  forall o i x,
    In (i, x) (combine (seq o (length l)) l) <->
    o <= i /\ nth_error l (i - o) = Some x.
Proof.
  induction l as [|y l IH]; intros o i x; simpl.
  - split; [tauto|]. intros [_ H]. destruct (i - o); discriminate.
  - rewrite IH. split.
    + intros [E | [Le E]].
      * injection E as <- <-. rewrite Nat.sub_diag. split; [lia | reflexivity].
      * split; [lia|]. replace (i - o) with (S (i - S o)) by lia. exact E.
    + intros [Le E]. destruct (Nat.eq_dec i o) as [->|Ne].
      * rewrite Nat.sub_diag in E. injection E as ->. left. reflexivity.
      * right. split; [lia|].
        replace (i - o) with (S (i - S o)) in E by lia. exact E.
Qed.

Lemma in_enumerate {A : Type} (l : list A) (i : nat) (x : A) :
  In (i, x) (enumerate l) <-> nth_error l i = Some x.
Proof.
  unfold enumerate. rewrite in_combine_seq, Nat.sub_0_r.
  split; [tauto | split; [lia | assumption]].
Qed.

Lemma in_toc_lines_of_page (i j : nat) (text l : str) :
  In (j, l) (toc_lines_of_page i text) <->
  j = i /\ exists raw, In raw (split nl text) /\ accepts raw = true /\ l = strip raw.
Proof.
  unfold toc_lines_of_page. rewrite in_map_iff. split.
  - intros (raw & E & Hin). injection E as <- <-.
    apply filter_In in Hin as [Hin Acc].
    split; [reflexivity|]. exists raw. rewrite accepts_iff_match. auto.
  - intros (-> & raw & Hin & Acc & ->). exists raw. split; [reflexivity|].
    apply filter_In. rewrite <- accepts_iff_match. auto.
Qed.

(** What the scan retains: the accepted lines, trimmed, each with the index
    of its page. *)
Lemma in_scan (text_pages : list str) (i : nat) (l : str) :
  In (i, l) (flat_map (fun it => toc_lines_of_page (fst it) (snd it))
                      (enumerate text_pages)) <->
  exists text raw, nth_error text_pages i = Some text /\
                   In raw (split nl text) /\ accepts raw = true /\ l = strip raw.
Proof.
  rewrite in_flat_map. split.
  - intros ([j text] & Hin & Hl). simpl in Hl.
    apply in_toc_lines_of_page in Hl as (-> & raw & Hraw).
    apply in_enumerate in Hin. exists text, raw. tauto.
  - intros (text & raw & Hn & Hraw). exists (i, text). split.
    + apply in_enumerate. exact Hn.
    + simpl. apply in_toc_lines_of_page. split; [reflexivity|].
      exists raw. exact Hraw.
Qed.

(** C7: the scan fails with the document-level error if and only if no
    line of any page is accepted by the Entry Recognizer; otherwise it
    returns, without error, the retained (page_index, line) pairs. *)
Theorem scan_fails_iff_nothing_accepted (text_pages : list str) :
  (find_toc_content text_pages
   = Raise (RuntimeError
              "Could not find Table of Contents content in the document.")
   <->
   forall i text raw, nth_error text_pages i = Some text ->
                      In raw (split nl text) -> accepts raw = false)
  /\
  ((exists i text raw, nth_error text_pages i = Some text /\
                       In raw (split nl text) /\ accepts raw = true)
   <->
   exists toc_lines,
     find_toc_content text_pages = Ok toc_lines /\
     forall i l, In (i, l) toc_lines <->
       exists text raw, nth_error text_pages i = Some text /\
                        In raw (split nl text) /\ accepts raw = true /\
                        l = strip raw).
Proof.
  pose proof (in_scan text_pages) as S.
  unfold find_toc_content.
  destruct (flat_map _ _) as [|[j l0] rest] eqn:E.
  - assert (None_acc : forall i text raw, nth_error text_pages i = Some text ->
                         In raw (split nl text) -> accepts raw = false).
    { intros i text raw Hn Hin. destruct (accepts raw) eqn:Acc; [|reflexivity].
      exfalso. apply (proj2 (S i (strip raw))). exists text, raw. auto. }
    split; [split; [intros _; exact None_acc | reflexivity]|].
    split.
    + intros (i & text & raw & Hn & Hin & Acc).
      rewrite (None_acc i text raw Hn Hin) in Acc. discriminate.
    + intros (tl & Habs & _). discriminate.
  - assert (Some_acc : exists i text raw, nth_error text_pages i = Some text /\
                         In raw (split nl text) /\ accepts raw = true).
    { destruct (proj1 (S j l0) (or_introl eq_refl)) as (text & raw & Hn & Hin & Acc & _).
      exists j, text, raw. auto. }
    split.
    + split; [discriminate|]. intros Hnone.
      destruct Some_acc as (i & text & raw & Hn & Hin & Acc).
      rewrite (Hnone i text raw Hn Hin) in Acc. discriminate.
    + split; [|intros _; exact Some_acc].
      intros _. eexists. split; [reflexivity | exact S].
Qed.

(** ** Page numbers of assembled entries *)

Lemma find_toc_content_index (text_pages : list str) (toc_lines : list (nat * str)) :
  find_toc_content text_pages = Ok toc_lines ->
  forall i l, In (i, l) toc_lines -> i < length text_pages.
Proof.
  unfold find_toc_content. intros H i l Hin.
  destruct (flat_map _ _) as [|x rest] eqn:E; [discriminate|].
  injection H as <-. rewrite <- E in Hin.
  apply in_scan in Hin as (text & raw & Hn & _).
  apply nth_error_Some. congruence.
Qed.

Lemma in_parse_toc_entries (toc_lines : list (nat * str)) (doc : str) (e : entry) :
  In e (parse_toc_entries toc_lines doc) ->
  exists i l, In (i, l) toc_lines /\ page e = (Z.of_nat i + 1)%Z.
Proof.
  unfold parse_toc_entries. rewrite in_flat_map.
  intros ([i l] & Hin & He). simpl in He.
  destruct (parse_toc_entry l doc) as [e0|]; [|contradiction].
  destruct He as [<-|[]]. exists i, l. split; [exact Hin | reflexivity].
Qed.

(** C10: every entry assembled from a sequence of n pages has
    1 <= page <= n, so clamping page - 1 into [0, n - 1] leaves it as it
    is. *)
Theorem assembled_page_in_range (text_pages : list str)
  (toc_lines : list (nat * str)) (doc : str) (e : entry) :
  find_toc_content text_pages = Ok toc_lines ->
  In e (parse_toc_entries toc_lines doc) ->
  (1 <= page e <= Z.of_nat (length text_pages))%Z /\
  Z.max 0 (Z.min (page e - 1) (Z.of_nat (length text_pages) - 1))
  = (page e - 1)%Z.
Proof.
  intros Hf He. apply in_parse_toc_entries in He as (i & l & Hin & ->).
  pose proof (find_toc_content_index text_pages toc_lines Hf i l Hin). lia.
Qed.

Lemma assembled_page_in_range_witness :
  exists toc_lines e,
    find_toc_content pages3 = Ok toc_lines /\
    In e (parse_toc_entries toc_lines doc0) /\
    page e = 3%Z /\
    (1 <= page e <= 3)%Z /\
    Z.max 0 (Z.min (page e - 1) (3 - 1)) = (page e - 1)%Z.
Proof.
  eexists. eexists.
  assert (F : find_toc_content pages3
              = Ok [(0, L "1 Intro text 9"); (2, L "2 Next part 9")])
    by (vm_compute; reflexivity).
  assert (I : In (Entry doc0 (L "2") (L "Next part") 3 1 None
                        (L "2 Next part") [])
                 (parse_toc_entries [(0, L "1 Intro text 9"); (2, L "2 Next part 9")] doc0))
    by (vm_compute; right; left; reflexivity).
  split; [exact F|]. split; [exact I|]. split; [reflexivity|].
  exact (assembled_page_in_range pages3 _ doc0 _ F I).
Defined.

(** ** Searching for a heading *)

Lemma run_escaped_ci {A : Type} (p : str) :
  forall st (k : mstate -> option A),
    run (escaped_ci p) st k
    = if ci_prefix p (ahead st)
      then k (MState (rev (firstn (length p) (ahead st)) ++ seen st)
                     (skipn (length p) (ahead st)) (caps st))
      else None.
Proof.
  unfold escaped_ci.
  induction p as [|a p IH]; intros [sn ah cs] k; simpl.
  - reflexivity.
  - destruct ah as [|b s']; [reflexivity|]. simpl.
    destruct (eqc (to_lower b) (to_lower a)); simpl; [|reflexivity].
    rewrite IH. simpl. rewrite <- app_assoc. reflexivity.
Qed.

Lemma ci_prefix_length (p s : str) : ci_prefix p s = true -> length p <= length s.
Proof.
  revert s. induction p as [|a p IH]; intros [|b s] H; simpl in *;
    try lia; try discriminate.
  apply andb_prop in H as [_ H]. apply IH in H. lia.
Qed.

Lemma match_at_escaped_ci (p pre s : str) :
  match_at (escaped_ci p) (pre ++ s) (length pre)
  = if ci_prefix p s
    then Some (Match (length pre) (length pre + length p) [])
    else None.
Proof.
  unfold match_at. rewrite run_escaped_ci. simpl.
  rewrite skipn_app, skipn_all, Nat.sub_diag. simpl.
  destruct (ci_prefix p s) eqn:E; [|reflexivity].
  apply ci_prefix_length in E.
  rewrite firstn_app, firstn_all, Nat.sub_diag. simpl. rewrite app_nil_r.
  rewrite length_app, !length_rev, length_firstn.
  f_equal. f_equal. lia.
Qed.

Lemma search_escaped_ci_from (p s : str) :
  forall pre,
    first_some (match_at (escaped_ci p) (pre ++ s))
               (seq (length pre) (S (length s)))
    = option_map (fun i => Match (length pre + i) (length pre + i + length p) [])
                 (find_ci p s).
Proof.
  induction s as [|c s IH]; intros pre.
  - simpl. rewrite match_at_escaped_ci.
    destruct (ci_prefix p []); simpl; [|reflexivity].
    rewrite !Nat.add_0_r. reflexivity.
  - cbn [length seq first_some]. rewrite match_at_escaped_ci.
    cbn [find_ci]. destruct (ci_prefix p (c :: s)); simpl.
    + rewrite !Nat.add_0_r. reflexivity.
    + specialize (IH (pre ++ [c])).
      rewrite <- app_assoc, length_app in IH. simpl in IH.
      rewrite Nat.add_1_r in IH. cbn [length seq] in IH. rewrite IH.
      destruct (find_ci p s); simpl; [|reflexivity].
      f_equal. f_equal; lia.
Qed.

(** Searching for an escaped identifier, letter case ignored, finds its
    first occurrence. *)
Lemma search_escaped_ci (p s : str) :
  re_search (escaped_ci p) s
  = option_map (fun i => Match i (i + length p) []) (find_ci p s).
Proof. exact (search_escaped_ci_from p s []). Qed.

(** ** Indexing and ranges *)

Lemma index_valid {A : Type} (l : list A) (i : Z) (d : A) :
  (0 <= i < Z.of_nat (length l))%Z ->
  index l i = Ok (nth (Z.to_nat i) l d).
Proof.
  intros H. unfold index.
  destruct (i <? 0)%Z eqn:E1; [apply Z.ltb_lt in E1; lia|]. rewrite E1.
  destruct (nth_error l (Z.to_nat i)) as [x|] eqn:E2.
  - rewrite (nth_error_nth l _ d E2). reflexivity.
  - apply nth_error_None in E2. lia.
Qed.

Lemma range_nil (a b : Z) : (b <= a)%Z -> range a b = [].
Proof.
  intros H. unfold range. replace (Z.to_nat (b - a)) with 0 by lia. reflexivity.
Qed.

Lemma range_cons (a b : Z) : (a < b)%Z -> range a b = a :: range (a + 1) b.
Proof.
  intros H. unfold range.
  replace (Z.to_nat (b - a)) with (S (Z.to_nat (b - (a + 1)))) by lia.
  simpl. rewrite Z.add_0_r. f_equal.
  rewrite <- seq_shift, map_map. apply map_ext. intros k. lia.
Qed.

Lemma in_range (a b z : Z) : In z (range a b) -> (a <= z < b)%Z.
Proof.
  unfold range. rewrite in_map_iff. intros (k & <- & Hk).
  apply in_seq in Hk. lia.
Qed.

Lemma filter_window_range (a b : Z) (l : list str) :
  forall o,
    map snd (filter (fun it => (a <? Z.of_nat (fst it))%Z
                               && (Z.of_nat (fst it) <? b)%Z)
                    (combine (seq o (length l)) l))
    = map (fun z => nth (Z.to_nat z - o) l [])
          (range (Z.max (a + 1) (Z.of_nat o))
                 (Z.min b (Z.of_nat (o + length l)))).
Proof.
  induction l as [|x l IH]; intros o.
  - simpl. rewrite range_nil by lia. reflexivity.
  - cbn [length seq combine filter fst]. specialize (IH (S o)).
    assert (Shift : forall lo hi, (Z.of_nat (S o) <= lo)%Z ->
              map (fun z => nth (Z.to_nat z - o) (x :: l) []) (range lo hi)
              = map (fun z => nth (Z.to_nat z - S o) l []) (range lo hi)).
    { intros lo hi Hlo. apply map_ext_in. intros z Hz. apply in_range in Hz.
      replace (Z.to_nat z - o) with (S (Z.to_nat z - S o)) by lia. reflexivity. }
    destruct (a <? Z.of_nat o)%Z eqn:E1; destruct (Z.of_nat o <? b)%Z eqn:E2;
      cbn [andb map snd];
      try apply Z.ltb_lt in E1; try apply Z.ltb_ge in E1;
      try apply Z.ltb_lt in E2; try apply Z.ltb_ge in E2.
    + rewrite (range_cons (Z.max (a + 1) (Z.of_nat o))) by lia.
      cbn [map]. replace (Z.max (a + 1) (Z.of_nat o)) with (Z.of_nat o) by lia.
      rewrite Nat2Z.id, Nat.sub_diag. cbn [nth]. f_equal.
      rewrite IH, Shift by lia.
      replace (Z.max (a + 1) (Z.of_nat (S o))) with (Z.of_nat o + 1)%Z by lia.
      replace (o + S (length l)) with (S o + length l) by lia. reflexivity.
    + rewrite IH. rewrite !range_nil by lia. reflexivity.
    + rewrite IH.
      replace (Z.max (a + 1) (Z.of_nat (S o))) with (Z.max (a + 1) (Z.of_nat o)) by lia.
      replace (o + S (length l)) with (S o + length l) by lia.
      symmetry. apply Shift. lia.
    + rewrite IH. rewrite !range_nil by lia. reflexivity.
Qed.

(** The pages strictly between two indices are the pages the loop over the
    range visits. *)
Lemma pages_between_range (text_pages : list str) (a b : Z) :
  (0 <= a)%Z ->
  pages_between text_pages a b
  = map (page_at text_pages) (range (a + 1) (Z.min b (page_count text_pages))).
Proof.
  intros Ha. unfold pages_between, enumerate, page_count.
  rewrite filter_window_range. simpl Z.of_nat at 1.
  replace (Z.max (a + 1) 0) with (a + 1)%Z by lia. simpl plus.
  apply map_ext. intros z. unfold page_at. rewrite Nat.sub_0_r. reflexivity.
Qed.

Lemma middle_pages_loop (text_pages : list str) (zs : list Z) :
  (forall z, In z zs -> (0 <= z < page_count text_pages)%Z) ->
  forall acc,
    fold_left (append_page text_pages) zs (Ok acc)
    = Ok (acc ++ map (fun z => strip (page_at text_pages z)) zs).
Proof.
  induction zs as [|z zs IH]; intros Hz acc; simpl.
  - rewrite app_nil_r. reflexivity.
  - rewrite (index_valid text_pages z []) by (apply Hz; left; reflexivity).
    simpl. rewrite IH by (intros z' Hin; apply Hz; right; exact Hin).
    rewrite <- app_assoc. reflexivity.
Qed.

(** ** Extraction of one section *)

Lemma start_fragment (sid text : str) :
  match re_search (escaped_ci sid) text with
  | Some m => [strip (skipn (m_end m) text)]
  | None => [strip text]
  end = [strip (after_heading sid text)].
Proof.
  rewrite search_escaped_ci. unfold after_heading.
  destruct (find_ci sid text); reflexivity.
Qed.

Lemma end_fragment (sid text : str) (parts : list str) :
  match re_search (escaped_ci sid) text with
  | Some m => Ok (parts ++ [strip (firstn (m_start m) text)])
  | None => Ok (parts ++ [strip text])
  end = Ok (parts ++ [strip (before_heading sid text)]).
Proof.
  rewrite search_escaped_ci. unfold before_heading.
  destruct (find_ci sid text); reflexivity.
Qed.

Lemma start_page_valid (text_pages : list str) (e : entry) :
  text_pages <> [] ->
  (0 <= start_page_of text_pages e < page_count text_pages)%Z.
Proof.
  intros Hne. unfold start_page_of, page_count.
  destruct text_pages; [congruence|]. simpl length. lia.
Qed.

(** What the extraction computes: every fragment trimmed, the fragments
    joined with single blanks, the result trimmed.  It needs a first page
    to read, and a next entry whose page number is positive. *)
Lemma extract_section_content_spec (text_pages : list str) (e : entry)
  (next : option entry) :
  text_pages <> [] ->
  (forall nx, next = Some nx -> valid_entry nx) ->
  _extract_section_content text_pages e next
  = Ok (trimmed_content text_pages e next).
Proof.
  intros Hne Hnext.
  pose proof (start_page_valid text_pages e Hne) as Hsp.
  unfold _extract_section_content, trimmed_content, fragments. cbv zeta.
  fold (page_count text_pages). fold (start_page_of text_pages e).
  fold (end_page_of text_pages next).
  set (sp := start_page_of text_pages e) in *.
  set (ep := end_page_of text_pages next).
  set (n := page_count text_pages) in *.
  rewrite (index_valid text_pages sp []) by exact Hsp.
  cbn [bind]. fold (page_at text_pages sp).
  rewrite start_fragment.
  rewrite middle_pages_loop
    by (intros z Hz; apply in_range in Hz; fold n; lia).
  cbn [bind].
  rewrite (pages_between_range text_pages sp ep) by lia. fold n.
  rewrite !map_app, !map_map. cbn [map].
  destruct next as [nx|].
  - specialize (Hnext nx eq_refl). unfold valid_entry in Hnext.
    assert (Hep : (0 <= ep)%Z) by (unfold ep, end_page_of; lia).
    unfold valid_index. fold n.
    destruct (Z.min ep n <? n)%Z eqn:Lt.
    + apply Z.ltb_lt in Lt.
      replace (Z.min ep n) with ep in * by lia.
      rewrite (index_valid text_pages ep []) by (fold (page_count text_pages); fold n; lia).
      cbn [bind]. fold (page_at text_pages ep).
      rewrite end_fragment. cbn [bind].
      replace (0 <=? ep)%Z with true by (symmetry; apply Z.leb_le; lia).
      replace (ep <? n)%Z with true by (symmetry; apply Z.ltb_lt; lia).
      cbn [andb map]. rewrite <- app_assoc. reflexivity.
    + apply Z.ltb_ge in Lt.
      replace (ep <? n)%Z with false by (symmetry; apply Z.ltb_ge; lia).
      rewrite andb_false_r. cbn [bind map]. rewrite app_nil_r. reflexivity.
  - cbn [bind map]. rewrite app_nil_r. reflexivity.
Qed.

(** On a degenerate window the end-page step runs on the start page: the
    content is the text of that page after the entry's own heading,
    followed by the text of the same page before the next heading. *)
Lemma degenerate_window_content (text_pages : list str) (e nx : entry) :
  text_pages <> [] ->
  valid_entry nx ->
  start_page_of text_pages e = end_page_of text_pages (Some nx) ->
  let text := page_at text_pages (start_page_of text_pages e) in
  _extract_section_content text_pages e (Some nx)
  = Ok (strip (join (L " ") [strip (after_heading (section_id e) text);
                             strip (before_heading (section_id nx) text)])).
Proof.
  intros Hne Hnx Hdeg text.
  rewrite extract_section_content_spec;
    [|exact Hne | intros nx' [= <-]; exact Hnx].
  pose proof (start_page_valid text_pages e Hne) as Hsp.
  unfold trimmed_content, fragments.
  rewrite pages_between_range by lia.
  rewrite range_nil by lia.
  rewrite <- Hdeg. unfold valid_index.
  replace (0 <=? start_page_of text_pages e)%Z with true
    by (symmetry; apply Z.leb_le; lia).
  replace (start_page_of text_pages e <? page_count text_pages)%Z with true
    by (symmetry; apply Z.ltb_lt; lia).
  reflexivity.
Qed.

Lemma index_wrapped {A : Type} (l : list A) (i : Z) :
  (- Z.of_nat (length l) <= i < Z.of_nat (length l))%Z ->
  exists x, index l i = Ok x.
Proof.
  intros H. unfold index.
  destruct (i <? 0)%Z eqn:E1;
    [apply Z.ltb_lt in E1 | apply Z.ltb_ge in E1].
  - destruct (Z.of_nat (length l) + i <? 0)%Z eqn:E2;
      [apply Z.ltb_lt in E2; lia|].
    destruct (nth_error l _) as [x|] eqn:E3; [eauto|].
    apply nth_error_None in E3. lia.
  - destruct (i <? 0)%Z eqn:E2; [apply Z.ltb_lt in E2; lia|].
    destruct (nth_error l _) as [x|] eqn:E3; [eauto|].
    apply nth_error_None in E3. lia.
Qed.

Lemma index_out {A : Type} (l : list A) (i : Z) :
  (i < - Z.of_nat (length l) \/ Z.of_nat (length l) <= i)%Z ->
  index l i = Raise IndexError.
Proof.
  intros H. unfold index.
  destruct (i <? 0)%Z eqn:E1;
    [apply Z.ltb_lt in E1 | apply Z.ltb_ge in E1].
  - destruct (Z.of_nat (length l) + i <? 0)%Z eqn:E2; [reflexivity|].
    apply Z.ltb_ge in E2. lia.
  - destruct (i <? 0)%Z eqn:E2; [apply Z.ltb_lt in E2; lia|].
    destruct (nth_error l _) as [x|] eqn:E3; [|reflexivity].
    assert (Z.to_nat i < length l) by (apply nth_error_Some; congruence). lia.
Qed.

(** Where the extraction raises: on an empty page sequence, and on a next
    entry whose page number is so far below 1 that the index of its page,
    counted from the end of the sequence, falls before the first page. *)
Lemma extraction_raises_exactly (text_pages : list str) (e : entry)
  (next : option entry) :
  (exists c, _extract_section_content text_pages e next = Ok c) <->
  text_pages <> [] /\
  (forall nx, next = Some nx -> (- page_count text_pages <= page nx - 1)%Z).
Proof.
  assert (Hcase : text_pages = [] \/ text_pages <> [])
    by (destruct text_pages; [left; reflexivity | right; discriminate]).
  unfold _extract_section_content. cbv zeta.
  destruct Hcase as [->|Hne].
  { rewrite index_out by (simpl; lia). cbn [bind].
    split; [intros [c H]; discriminate | intros [H _]; congruence]. }
  pose proof (start_page_valid text_pages e Hne) as Hsp.
  fold (page_count text_pages). fold (start_page_of text_pages e).
  set (sp := start_page_of text_pages e) in *.
  set (n := page_count text_pages) in *.
  rewrite (index_valid text_pages sp []) by exact Hsp.
  cbn [bind]. fold (page_at text_pages sp). rewrite start_fragment.
  rewrite middle_pages_loop
    by (intros z Hz; apply in_range in Hz; fold n; lia).
  cbn [bind].
  destruct next as [nx|].
  - destruct (Z.min (page nx - 1) n <? n)%Z eqn:Lt;
      [apply Z.ltb_lt in Lt | apply Z.ltb_ge in Lt].
    + replace (Z.min (page nx - 1) n) with (page nx - 1)%Z in * by lia.
      destruct (Z_lt_le_dec (page nx - 1) (- n)) as [Far|Near].
      * rewrite index_out by (fold (page_count text_pages); fold n; lia).
        cbn [bind]. split; [intros [c H]; discriminate|].
        intros [_ H]. specialize (H nx eq_refl). lia.
      * destruct (index_wrapped text_pages (page nx - 1)) as [x Hx];
          [fold (page_count text_pages); fold n; lia|].
        rewrite Hx. cbn [bind]. rewrite end_fragment. cbn [bind].
        split; [|eauto]. intros _. split; [exact Hne|].
        intros nx' [= <-]. exact Near.
    + cbn [bind]. split; [|eauto]. intros _. split; [exact Hne|].
      intros nx' [= <-]. lia.
  - cbn [bind]. split; [|eauto]. intros _. split; [exact Hne|].
    intros nx' H. discriminate.
Qed.

(** C8: for every entry and every non-empty page-text sequence, the
    extraction raises no error and returns a string, whether or not a
    heading is found on a boundary page.  The next entry, when there is
    one, is an entry of the data model: its page is a positive integer. *)
Theorem extraction_never_raises (text_pages : list str) (e : entry)
  (next : option entry) :
  text_pages <> [] ->
  (forall nx, next = Some nx -> valid_entry nx) ->
  exists c : str, _extract_section_content text_pages e next = Ok c.
Proof.
  intros Hne Hnext. exists (trimmed_content text_pages e next).
  apply extract_section_content_spec; assumption.
Qed.

Lemma extraction_never_raises_witness :
  exists c : str,
    _extract_section_content pages1 (nth 0 toc1 (Entry [] [] [] 0 0 None [] []))
                            (nth_error toc1 1) = Ok c.
Proof.
  apply extraction_never_raises.
  - discriminate.
  - intros nx H. vm_compute in H. injection H as <-. vm_compute. discriminate.
Defined.

(** ** Extraction of all sections *)

(** The sample lists are what the program computes on the sample pages. *)
Lemma samples_assembled :
  entries_of pages3 = Ok toc3 /\
  parse_document_sections pages3 toc3 = Ok secs3 /\
  entries_of pages1 = Ok toc1 /\
  entries_of pages_dup = Ok toc_dup /\
  parse_document_sections pages_dup toc_dup = Ok secs_dup.
Proof. vm_compute. repeat split; reflexivity. Qed.

Lemma in_insert_by_page (e x : entry) (l : list entry) :
  In x (insert_by_page e l) <-> x = e \/ In x l.
Proof.
  induction l as [|y l IH]; simpl.
  - split; [intros [H|[]]; auto | intros [H|[]]; auto].
  - destruct (page y <? page e)%Z; simpl; [rewrite IH|]; intuition congruence.
Qed.

Lemma in_sorted_by_page (x : entry) (l : list entry) :
  In x (sorted_by_page l) <-> In x l.
Proof.
  induction l as [|y l IH]; simpl; [tauto|].
  rewrite in_insert_by_page, IH. intuition congruence.
Qed.

Lemma length_insert_by_page (e : entry) (l : list entry) :
  length (insert_by_page e l) = S (length l).
Proof.
  induction l as [|y l IH]; simpl; [reflexivity|].
  destruct (page y <? page e)%Z; simpl; [rewrite IH|]; reflexivity.
Qed.

Lemma length_sorted_by_page (l : list entry) :
  length (sorted_by_page l) = length l.
Proof.
  induction l as [|y l IH]; simpl; [reflexivity|].
  rewrite length_insert_by_page, IH. reflexivity.
Qed.

(** The model of [sorted]: a permutation, ascending by page, that keeps
    entries of the same page in their original order. *)
Lemma insert_by_page_perm (e : entry) (l : list entry) :
  Permutation (e :: l) (insert_by_page e l).
Proof.
  induction l as [|x l IH]; simpl; [apply Permutation_refl|].
  destruct (page x <? page e)%Z; [|apply Permutation_refl].
  eapply perm_trans; [apply perm_swap|]. apply perm_skip. exact IH.
Qed.

Lemma sorted_by_page_perm (l : list entry) :
  Permutation l (sorted_by_page l).
Proof.
  induction l as [|x l IH]; simpl; [apply perm_nil|].
  eapply perm_trans; [apply perm_skip; exact IH | apply insert_by_page_perm].
Qed.

Lemma insert_by_page_sorted (e : entry) (l : list entry) :
  StronglySorted (fun a b => (page a <= page b)%Z) l ->
  StronglySorted (fun a b => (page a <= page b)%Z) (insert_by_page e l).
Proof.
  induction 1 as [|x l Hs IH Hx]; simpl.
  - constructor; constructor.
  - destruct (page x <? page e)%Z eqn:E.
    + apply Z.ltb_lt in E. constructor; [exact IH|].
      apply Forall_forall. intros y Hy.
      apply in_insert_by_page in Hy as [->|Hy]; [lia|].
      rewrite Forall_forall in Hx. apply Hx. exact Hy.
    + apply Z.ltb_ge in E. constructor; [constructor; assumption|].
      constructor; [exact E|].
      rewrite Forall_forall in *. intros y Hy. specialize (Hx y Hy). lia.
Qed.

Lemma sorted_by_page_sorted (l : list entry) :
  StronglySorted (fun a b => (page a <= page b)%Z) (sorted_by_page l).
Proof.
  induction l as [|x l IH]; simpl; [constructor|].
  apply insert_by_page_sorted. exact IH.
Qed.

Lemma insert_by_page_stable (p : Z) (e : entry) (l : list entry) :
  filter (fun x => (page x =? p)%Z) (insert_by_page e l)
  = filter (fun x => (page x =? p)%Z) (e :: l).
Proof.
  induction l as [|x l IH]; [reflexivity|]. cbn [insert_by_page].
  destruct (page x <? page e)%Z eqn:E; [|reflexivity].
  apply Z.ltb_lt in E. cbn [filter] in *. rewrite IH.
  destruct (page e =? p)%Z eqn:Ee; [|reflexivity].
  destruct (page x =? p)%Z eqn:Ex; [|reflexivity].
  apply Z.eqb_eq in Ee, Ex. lia.
Qed.

Lemma sorted_by_page_stable (p : Z) (l : list entry) :
  filter (fun x => (page x =? p)%Z) (sorted_by_page l)
  = filter (fun x => (page x =? p)%Z) l.
Proof.
  induction l as [|x l IH]; [reflexivity|]. cbn [sorted_by_page fold_right].
  fold (sorted_by_page l). rewrite insert_by_page_stable.
  cbn [filter]. rewrite IH. reflexivity.
Qed.

Lemma nth_error_combine_seq {A : Type} (l : list A) :
  forall o i,
    nth_error (combine (seq o (length l)) l) i
    = option_map (pair (o + i)) (nth_error l i).
Proof.
  induction l as [|x l IH]; intros o [|i]; simpl; try reflexivity.
  - rewrite Nat.add_0_r. reflexivity.
  - rewrite IH. replace (S o + i) with (o + S i) by lia. reflexivity.
Qed.

Lemma nth_error_enumerate {A : Type} (l : list A) (i : nat) :
  nth_error (enumerate l) i = option_map (pair i) (nth_error l i).
Proof. apply (nth_error_combine_seq l 0 i). Qed.

Lemma sections_loop (h : nat * entry -> result str) (g : nat * entry -> str)
  (l : list (nat * entry)) :
  (forall it, In it l -> h it = Ok (g it)) ->
  forall acc,
    fold_left (fun acc it =>
                 parsed_sections <- acc ;;
                 content <- h it ;;
                 Ok (parsed_sections ++ [Section_ (snd it) content]))
              l (Ok acc)
    = Ok (acc ++ map (fun it => Section_ (snd it) (g it)) l).
Proof.
  induction l as [|it l IH]; intros Hh acc; simpl.
  - rewrite app_nil_r. reflexivity.
  - rewrite (Hh it) by (left; reflexivity). simpl.
    rewrite IH by (intros it' Hin; apply Hh; right; exact Hin).
    rewrite <- app_assoc. reflexivity.
Qed.

(** Every entry of the page-sorted list gets its section, in that order. *)
Lemma parse_document_sections_spec (text_pages : list str) (toc : list entry) :
  text_pages <> [] ->
  (forall e, In e toc -> valid_entry e) ->
  parse_document_sections text_pages toc
  = Ok (map (fun it =>
               Section_ (snd it)
                 (trimmed_content text_pages (snd it)
                    (nth_error (sorted_by_page toc) (fst it + 1))))
            (enumerate (sorted_by_page toc))).
Proof.
  intros Hne Hpos. unfold parse_document_sections. cbv zeta.
  apply (sections_loop
           (fun it => _extract_section_content text_pages (snd it)
                        (nth_error (sorted_by_page toc) (fst it + 1)))
           (fun it => trimmed_content text_pages (snd it)
                        (nth_error (sorted_by_page toc) (fst it + 1)))).
  intros it _. apply extract_section_content_spec; [exact Hne|].
  intros nx Hnx. apply Hpos, in_sorted_by_page.
  eapply nth_error_In. exact Hnx.
Qed.

(** The entries the assembler produces meet what the extraction needs: on
    a document whose scan succeeds, the sections are extracted without
    error. *)
Lemma assembled_sections_total (text_pages : list str)
  (toc_lines : list (nat * str)) (doc : str) :
  find_toc_content text_pages = Ok toc_lines ->
  exists secs,
    parse_document_sections text_pages (parse_toc_entries toc_lines doc)
    = Ok secs.
Proof.
  intros Hf. eexists. apply parse_document_sections_spec.
  - intros ->. discriminate.
  - intros e He. apply in_parse_toc_entries in He as (i & l & _ & Hp).
    unfold valid_entry. lia.
Qed.

(** C1 as amended: for every entry of the page-sorted list whose window is
    not degenerate, the extracted content is made of the fragments (a), (b)
    and (c) of the claim, each of them trimmed, joined with single blanks,
    and trimmed as a whole.  One section is produced per entry. *)
Theorem content_is_trimmed_fragments (text_pages : list str) (toc : list entry) :
  text_pages <> [] ->
  (forall e, In e toc -> valid_entry e) ->
  exists secs,
    parse_document_sections text_pages toc = Ok secs /\
    length secs = length toc /\
    forall i e,
      nth_error (sorted_by_page toc) i = Some e ->
      ~ degenerate text_pages e (nth_error (sorted_by_page toc) (i + 1)) ->
      nth_error secs i
      = Some (Section_ e (trimmed_content text_pages e
                            (nth_error (sorted_by_page toc) (i + 1)))).
Proof.
  intros Hne Hpos. eexists. split; [|split].
  - apply parse_document_sections_spec; assumption.
  - rewrite length_map. unfold enumerate.
    rewrite length_combine, length_seq, Nat.min_id.
    apply length_sorted_by_page.
  - intros i e Hi _.
    rewrite nth_error_map, nth_error_enumerate, Hi. reflexivity.
Qed.

Lemma content_is_trimmed_fragments_witness :
  exists secs,
    parse_document_sections pages3 toc3 = Ok secs /\
    length secs = length toc3 /\
    forall i e,
      nth_error (sorted_by_page toc3) i = Some e ->
      ~ degenerate pages3 e (nth_error (sorted_by_page toc3) (i + 1)) ->
      nth_error secs i
      = Some (Section_ e (trimmed_content pages3 e
                            (nth_error (sorted_by_page toc3) (i + 1)))).
Proof.
  apply (content_is_trimmed_fragments pages3 toc3).
  - discriminate.
  - intros e [<-|[<-|[]]]; vm_compute; discriminate.
Defined.

(** C1 as worded fails on the three-page sample: the window of the first
    entry runs from page 1 to page 3, its content is extracted without the
    line breaks that end its first two fragments, while joining the
    untrimmed fragments keeps them. *)
Lemma joined_content_differs :
  entries_of pages3 = Ok toc3 /\
  (exists e1 e2,
     sorted_by_page toc3 = [e1; e2] /\
     ~ degenerate pages3 e1 (Some e2) /\
     _extract_section_content pages3 e1 (Some e2)
     = Ok (L "Intro text 9" ++ [nl] ++ L "hello body") /\
     joined_content pages3 e1 (Some e2)
     = L "Intro text 9" ++ [nl] ++ L "hello" ++ [nl] ++ L " body") /\
  ~ (forall text_pages toc secs i e s,
       parse_document_sections text_pages toc = Ok secs ->
       nth_error (sorted_by_page toc) i = Some e ->
       nth_error secs i = Some s ->
       content s = joined_content text_pages e
                     (nth_error (sorted_by_page toc) (i + 1))).
Proof.
  split; [vm_compute; reflexivity|]. split.
  - eexists. eexists. split; [vm_compute; reflexivity|]. split.
    + intros (nx & E & H). vm_compute in H. discriminate.
    + split; vm_compute; reflexivity.
  - intros H.
    specialize (H pages3 toc3 secs3 0 _ _ eq_refl eq_refl eq_refl).
    vm_compute in H. discriminate.
Qed.

(** C2, on the one-page sample whose page carries two entry lines: both
    entries start on page 1, so the window of the first is degenerate; its
    content holds the text after its own heading up to the end of the page
    and then, a second time, the text of that page before the heading of
    the next entry. *)
Theorem shared_page_included_twice :
  entries_of pages1 = Ok toc1 /\
  (exists e1 e2,
     sorted_by_page toc1 = [e1; e2] /\
     start_page_of pages1 e1 = 0%Z /\
     end_page_of pages1 (Some e2) = 0%Z /\
     _extract_section_content pages1 e1 (Some e2)
     = Ok (L "Intro text 5" ++ [nl] ++ L "2 Next part 7"
             ++ L " " ++ L "1 Intro text 5")) /\
  contents_of (sections_of pages1)
  = Ok [ L "Intro text 5" ++ [nl] ++ L "2 Next part 7 1 Intro text 5";
         L "Next part 7" ].
Proof.
  split; [vm_compute; reflexivity|]. split.
  - eexists. eexists. split; [vm_compute; reflexivity|].
    vm_compute. repeat split; reflexivity.
  - vm_compute. reflexivity.
Qed.

(** ** Reconciliation *)

(** C9: with an empty ToC entry list the report is the minimal one: a
    summary holding the single status "No TOC entries found", and a detailed
    table with the columns section_id, title, page and no row.  The parsed
    sections are not looked at, and no error is raised. *)
Theorem empty_toc_minimal_report (parsed_sections : list section) :
  generate_validation_report [] parsed_sections
  = Ok (Workbook
          (Sheet [L "Status"] [[CStr (L "No TOC entries found")]])
          (Sheet [L "section_id"; L "title"; L "page"] [])).
Proof. reflexivity. Qed.

Lemma str_eqb_eq (a b : str) : str_eqb a b = true <-> a = b.
Proof.
  revert b. induction a as [|x a IH]; intros [|y b]; simpl;
    try (split; [discriminate | discriminate]); [tauto|].
  rewrite andb_true_iff, eqc_eq, IH. split; [intros [-> ->] | intros [= -> ->]]; auto.
Qed.

Lemma same_key_refl (r : frame_row) : same_key r r = true.
Proof. apply str_eqb_eq. reflexivity. Qed.

Lemma flat_map_ext_in {A B : Type} (f g : A -> list B) (l : list A) :
  (forall x, In x l -> f x = g x) -> flat_map f l = flat_map g l.
Proof.
  induction l as [|x l IH]; intros H; simpl; [reflexivity|].
  rewrite (H x) by (left; reflexivity).
  rewrite IH by (intros y Hy; apply H; right; exact Hy). reflexivity.
Qed.

Lemma filter_nil_iff {A : Type} (p : A -> bool) (l : list A) :
  (forall x, In x l -> p x = false) -> filter p l = [].
Proof.
  induction l as [|x l IH]; intros H; simpl; [reflexivity|].
  rewrite (H x) by (left; reflexivity).
  apply IH. intros y Hy. apply H. right. exact Hy.
Qed.

(** Merging a frame with itself pairs every row with the rows of its key. *)
Lemma merge_outer_self (T : list frame_row) :
  merge_outer T T
  = flat_map (fun l => map (both l) (filter (same_key l) T)) T.
Proof.
  unfold merge_outer.
  rewrite (filter_nil_iff (fun r => negb (existsb (fun l => same_key l r) T))).
  - simpl. rewrite app_nil_r. apply flat_map_ext_in. intros l Hl.
    destruct (filter (same_key l) T) eqn:E; [|reflexivity].
    assert (Hin : In l (filter (same_key l) T))
      by (apply filter_In; split; [exact Hl | apply same_key_refl]).
    rewrite E in Hin. destruct Hin.
  - intros r Hr. apply negb_false_iff, existsb_exists.
    exists r. split; [exact Hr | apply same_key_refl].
Qed.

Lemma filter_const_in {A : Type} (p : A -> bool) (v : bool) (l : list A) :
  (forall x, In x l -> p x = v) ->
  filter p l = if v then l else [].
Proof.
  induction l as [|x l IH]; intros H; simpl; [destruct v; reflexivity|].
  rewrite (H x) by (left; reflexivity).
  rewrite IH by (intros y Hy; apply H; right; exact Hy).
  destruct v; reflexivity.
Qed.

Lemma in_self_merge (T : list frame_row) (m : merged_row) :
  In m (merge_outer T T) -> exists l r, m = both l r.
Proof.
  rewrite merge_outer_self, in_flat_map. intros (l & _ & Hm).
  apply in_map_iff in Hm as (r & <- & _). exists l, r. reflexivity.
Qed.

Lemma self_merge_rows (T : list frame_row) (p : list cell -> bool) (v : bool) :
  (forall l r, p (cells_of_row (both l r)) = v) ->
  filter p (map cells_of_row (merge_outer T T))
  = if v then map cells_of_row (merge_outer T T) else [].
Proof.
  intros H. apply filter_const_in. intros cells Hc.
  apply in_map_iff in Hc as (m & <- & Hm).
  apply in_self_merge in Hm as (l & r & ->). apply H.
Qed.

Lemma filter_same_key_absent (l : frame_row) (T : list frame_row) :
  ~ In (key l) (map key T) -> filter (same_key l) T = [].
Proof.
  intros H. apply filter_nil_iff. intros x Hx.
  destruct (same_key l x) eqn:E; [|reflexivity].
  apply str_eqb_eq in E. exfalso. apply H. rewrite E. apply in_map. exact Hx.
Qed.

Lemma filter_same_key_unique (T : list frame_row) :
  NoDup (map key T) ->
  forall l, In l T -> filter (same_key l) T = [l].
Proof.
  induction T as [|x T IH]; intros Hnd l Hl; [destruct Hl|].
  simpl in Hnd. apply NoDup_cons_iff in Hnd as [Hx Hnd].
  simpl. destruct Hl as [->|Hl].
  - rewrite same_key_refl, (filter_same_key_absent l T Hx). reflexivity.
  - destruct (same_key l x) eqn:E.
    + apply str_eqb_eq in E. exfalso. apply Hx. rewrite <- E.
      apply in_map. exact Hl.
    + apply IH; assumption.
Qed.

Lemma length_flat_map_single {A B : Type} (f : A -> list B) (l : list A) :
  (forall x, In x l -> length (f x) = 1) -> length (flat_map f l) = length l.
Proof.
  induction l as [|x l IH]; intros H; simpl; [reflexivity|].
  rewrite length_app, (H x) by (left; reflexivity).
  rewrite IH by (intros y Hy; apply H; right; exact Hy). reflexivity.
Qed.

Lemma length_self_merge (T : list frame_row) :
  NoDup (map key T) -> length (merge_outer T T) = length T.
Proof.
  intros Hnd. rewrite merge_outer_self. apply length_flat_map_single.
  intros l Hl. rewrite (filter_same_key_unique T Hnd l Hl). reflexivity.
Qed.

Lemma map_key_of_entry (toc : list entry) :
  map key (map of_entry toc) = map section_id toc.
Proof. rewrite map_map. reflexivity. Qed.

(** The report on a non-empty list reconciled with its own rows. *)
Lemma report_of_identical_lists (toc : list entry) (parsed : list section) :
  toc <> [] ->
  same_rows toc parsed ->
  generate_validation_report toc parsed
  = Ok (Workbook
          (Sheet [L "Metric"; L "Value"]
             [ [CStr (L "Total Sections in TOC"); count toc];
               [CStr (L "Total Sections Parsed"); count parsed];
               [CStr (L "Sections Matched");
                count (merge_outer (map of_entry toc) (map of_entry toc))];
               [CStr (L "Sections in TOC only"); CInt 0];
               [CStr (L "Sections in Parsed only"); CInt 0] ])
          (Sheet [L "section_id"; L "title_toc"; L "page_toc";
                  L "title_parsed"; L "page_parsed"]
             (map cells_of_row
                  (merge_outer (map of_entry toc) (map of_entry toc)))))
  /\ length parsed = length toc.
Proof.
  intros Hne Same. unfold same_rows in Same.
  assert (Len : length parsed = length toc).
  { rewrite <- (length_map (fun s => of_entry (sec_entry s)) parsed), Same.
    apply length_map. }
  split; [|exact Len].
  destruct toc as [|e0 toc']; [congruence|].
  destruct parsed as [|s0 parsed']; [discriminate|].
  unfold generate_validation_report. cbn [bind]. rewrite Same.
  rewrite (filter_const_in (fun r => isna (title_parsed r)) false)
    by (intros m Hm; apply in_self_merge in Hm as (l & r & ->); reflexivity).
  rewrite (filter_const_in (fun r => isna (title_toc r)) false)
    by (intros m Hm; apply in_self_merge in Hm as (l & r & ->); reflexivity).
  unfold dropna.
  rewrite (filter_const_in _ true)
    by (intros m Hm; apply in_self_merge in Hm as (l & r & ->); reflexivity).
  reflexivity.
Qed.

(** C3 as amended: when the parsed sections carry the same section_ids,
    titles and pages as the ToC entries, no row of the comparison is
    ToC-only or parsed-only, whether or not section_ids repeat; when the
    section_ids are pairwise distinct, the matched rows are as many as the
    entries, and the summary of a non-empty list reports the totals, the
    matched count equal to them, and zero for both one-sided counts. *)
Theorem identical_lists_reconcile (toc : list entry) (parsed : list section) :
  same_rows toc parsed ->
  exists wb,
    generate_validation_report toc parsed = Ok wb /\
    count_rows toc_only_row (detailed wb) = 0 /\
    count_rows parsed_only_row (detailed wb) = 0 /\
    (NoDup (map section_id toc) ->
       count_rows matched_row (detailed wb) = length toc /\
       (toc <> [] ->
          rows (summary wb)
          = [ [CStr (L "Total Sections in TOC"); CInt (Z.of_nat (length toc))];
              [CStr (L "Total Sections Parsed"); CInt (Z.of_nat (length toc))];
              [CStr (L "Sections Matched"); CInt (Z.of_nat (length toc))];
              [CStr (L "Sections in TOC only"); CInt 0];
              [CStr (L "Sections in Parsed only"); CInt 0] ])).
Proof.
  intros Same. destruct toc as [|e0 toc'].
  - eexists. split; [reflexivity|]. repeat split; try reflexivity.
    intros Hne. congruence.
  - destruct (report_of_identical_lists (e0 :: toc') parsed) as [E Len];
      [discriminate | exact Same |].
    set (toc := e0 :: toc') in *. set (T := map of_entry toc) in *.
    eexists. split; [exact E|].
    cbn [detailed summary rows]. unfold count_rows. cbn [rows].
    rewrite (self_merge_rows T toc_only_row false) by reflexivity.
    rewrite (self_merge_rows T parsed_only_row false) by reflexivity.
    rewrite (self_merge_rows T matched_row true) by reflexivity.
    split; [reflexivity|]. split; [reflexivity|].
    intros Hnd.
    assert (LenM : length (merge_outer T T) = length toc).
    { rewrite length_self_merge
        by (unfold T; rewrite map_key_of_entry; exact Hnd).
      apply length_map. }
    split.
    + rewrite length_map. exact LenM.
    + intros _. unfold count. rewrite LenM, Len. reflexivity.
Qed.

Lemma identical_lists_reconcile_witness :
  same_rows toc3 secs3 /\
  exists wb,
    generate_validation_report toc3 secs3 = Ok wb /\
    count_rows toc_only_row (detailed wb) = 0 /\
    count_rows parsed_only_row (detailed wb) = 0 /\
    (NoDup (map section_id toc3) ->
       count_rows matched_row (detailed wb) = length toc3 /\
       (toc3 <> [] ->
          rows (summary wb)
          = [ [CStr (L "Total Sections in TOC"); CInt (Z.of_nat (length toc3))];
              [CStr (L "Total Sections Parsed"); CInt (Z.of_nat (length toc3))];
              [CStr (L "Sections Matched"); CInt (Z.of_nat (length toc3))];
              [CStr (L "Sections in TOC only"); CInt 0];
              [CStr (L "Sections in Parsed only"); CInt 0] ])).
Proof.
  assert (Same : same_rows toc3 secs3) by (vm_compute; reflexivity).
  split; [exact Same|].
  exact (identical_lists_reconcile toc3 secs3 Same).
Defined.

(** C3 as worded fails when a section_id repeats: the two-page sample
    assembles two entries with the identifier "1"; the merge pairs each of
    them with both parsed rows, and the summary reports four matched
    sections for two entries. *)
Lemma repeated_ids_overcount :
  same_rows toc_dup secs_dup /\
  length toc_dup = 2 /\
  (exists wb,
     generate_validation_report toc_dup secs_dup = Ok wb /\
     nth 2 (rows (summary wb)) [] = [CStr (L "Sections Matched"); CInt 4] /\
     count_rows matched_row (detailed wb) = 4) /\
  ~ (forall toc parsed wb,
       same_rows toc parsed ->
       generate_validation_report toc parsed = Ok wb ->
       count_rows matched_row (detailed wb) = length toc).
Proof.
  assert (Same : same_rows toc_dup secs_dup) by (vm_compute; reflexivity).
  split; [exact Same|]. split; [reflexivity|]. split.
  - eexists. split; [vm_compute; reflexivity|].
    split; vm_compute; reflexivity.
  - intros H. specialize (H toc_dup secs_dup _ Same eq_refl).
    vm_compute in H. discriminate.
Qed.

(** * Further properties of the program *)

(** ** Named groups of a successful run *)

Lemma consumed_between (b s a a' : str) (cs cs' : list (string * str)) :
  consumed (MState b a cs) (MState (rev s ++ b) a' cs') = s.
Proof.
  unfold consumed. simpl.
  rewrite length_app, Nat.add_sub, firstn_app, Nat.sub_diag, firstn_all.
  simpl. rewrite app_nil_r. apply rev_involutive.
Qed.

Section EngineGroups.

Variable A : Type.

Lemma star_loop_sound_caps (r : regex) (k : mstate -> option A) (x : A) :
  (forall st k', run r st k' = Some x ->
     exists s a' cs', ahead st = s ++ a' /\
                      captures r (seen st) s a' (caps st) cs' /\
                      k' (MState (rev s ++ seen st) a' cs') = Some x) ->
  forall n st, star_loop (run r) k n st = Some x ->
    exists s a' cs', ahead st = s ++ a' /\
                     captures (Star r) (seen st) s a' (caps st) cs' /\
                     k (MState (rev s ++ seen st) a' cs') = Some x.
Proof.
  intros IHr n. induction n as [|n IHn]; intros st H; simpl in H.
  - exists [], (ahead st), (caps st). simpl. rewrite state_eta.
    repeat split; [constructor | exact H].
  - destruct (run r st _) as [y|] eqn:E.
    + injection H as ->.
      apply IHr in E. destruct E as (s1 & a1 & cs1 & E1 & M1 & K1). simpl in K1.
      destruct (length a1 <? length (ahead st)) eqn:Lt; [|discriminate].
      apply IHn in K1. simpl in K1.
      destruct K1 as (s2 & a2 & cs2 & E2 & M2 & K2).
      exists (s1 ++ s2), a2, cs2. repeat split.
      * rewrite E1, E2. apply app_assoc.
      * eapply C_StarS; [| rewrite <- E2; exact M1 | exact M2].
        intros ->. simpl in E1. rewrite E1 in Lt.
        apply Nat.ltb_lt in Lt. lia.
      * rewrite rev_app_distr, <- app_assoc. exact K2.
    + exists [], (ahead st), (caps st). simpl. rewrite state_eta.
      repeat split; [constructor | exact H].
Qed.

(** A run that succeeds has consumed a text the pattern denotes and has
    recorded the groups that go with it. *)
Lemma run_sound_caps (r : regex) :
  forall st (k : mstate -> option A) x, run r st k = Some x ->
    exists s a' cs', ahead st = s ++ a' /\
                     captures r (seen st) s a' (caps st) cs' /\
                     k (MState (rev s ++ seen st) a' cs') = Some x.
Proof.
  induction r as [|p|r1 IH1 r2 IH2|r1 IH1 r2 IH2|r IH|g r IH| | |];
    intros st k x H; simpl in H.
  - exists [], (ahead st), (caps st). simpl. rewrite state_eta.
    repeat split; [constructor | exact H].
  - destruct (ahead st) as [|c tl] eqn:E; [discriminate|].
    destruct (p c) eqn:Pc; [|discriminate].
    exists [c], tl, (caps st). repeat split; [constructor; exact Pc | exact H].
  - apply IH1 in H. destruct H as (s1 & a1 & cs1 & E1 & M1 & K1).
    apply IH2 in K1. simpl in K1. destruct K1 as (s2 & a2 & cs2 & E2 & M2 & K2).
    exists (s1 ++ s2), a2, cs2. repeat split.
    + rewrite E1, E2. apply app_assoc.
    + econstructor; [rewrite <- E2; exact M1 | exact M2].
    + rewrite rev_app_distr, <- app_assoc. exact K2.
  - destruct (run r1 st k) as [y|] eqn:E.
    + injection H as ->. apply IH1 in E.
      destruct E as (s & a' & cs' & E1 & M1 & K1).
      exists s, a', cs'. repeat split; [exact E1 | apply C_AltL; exact M1 | exact K1].
    + apply IH2 in H. destruct H as (s & a' & cs' & E1 & M1 & K1).
      exists s, a', cs'. repeat split; [exact E1 | apply C_AltR; exact M1 | exact K1].
  - eapply star_loop_sound_caps; [|exact H]. intros st' k'. apply IH.
  - apply IH in H. destruct H as (s & a' & cs' & E1 & M1 & K1). simpl in K1.
    destruct st as [b ah cs]. simpl in *.
    rewrite consumed_between in K1.
    exists s, a'. eexists. repeat split; [exact E1 | constructor; exact M1 | exact K1].
  - destruct (seen st) eqn:E; [|discriminate].
    exists [], (ahead st), (caps st). simpl. rewrite <- E, state_eta.
    rewrite E. repeat split; [constructor | exact H].
  - destruct (at_eol (ahead st)) eqn:E; [|discriminate].
    exists [], (ahead st), (caps st). simpl. rewrite state_eta.
    repeat split; [constructor; exact E | exact H].
  - destruct (xorb _ _) eqn:E; [|discriminate].
    exists [], (ahead st), (caps st). simpl. rewrite state_eta.
    repeat split; [constructor; exact E | exact H].
Qed.

End EngineGroups.

Lemma captures_matches (r : regex) (b s a : str) (cs cs' : list (string * str)) :
  captures r b s a cs cs' -> matches r b s a.
Proof.
  induction 1; econstructor; eassumption.
Qed.

Lemma captures_groupless (r : regex) (b s a : str) (cs cs' : list (string * str)) :
  captures r b s a cs cs' -> groupless r = true -> cs' = cs.
Proof.
  induction 1 as [| |r1 r2 b s1 s2 a cs cs1 cs2 _ IH1 _ IH2| | |
                 |r b s1 s2 a cs cs1 cs2 _ _ IH1 _ IH2| | | |];
    simpl; intros G; try reflexivity; try discriminate.
  - apply andb_prop in G as [G1 G2]. rewrite (IH2 G2). apply IH1. exact G1.
  - apply andb_prop in G as [G1 G2]. auto.
  - apply andb_prop in G as [G1 G2]. auto.
  - rewrite (IH2 G). apply IH1. exact G.
Qed.

Lemma re_match_captures (r : regex) (line : str) (m : match_obj) :
  re_match r line = Some m ->
  exists s a, line = s ++ a /\ captures r [] s a [] (m_groups m) /\
              m_start m = 0 /\ m_end m = length s.
Proof.
  unfold re_match, match_at. simpl. intros H.
  apply run_sound_caps in H. simpl in H.
  destruct H as (s & a & cs' & E & C & K). injection K as <-.
  exists s, a. simpl. rewrite app_nil_r, length_rev. auto.
Qed.

(** ** The lines the Entry Recognizer accepts *)

Lemma matches_plus_chr (p : ascii -> bool) (b s a : str) :
  matches (Plus (Chr p)) b s a <-> s <> [] /\ forallb p s = true.
Proof.
  unfold Plus. split.
  - intros H. inv H.
    match goal with H : matches (Chr _) _ _ _ |- _ => inv H end.
    match goal with H : matches (Star _) _ _ _ |- _ =>
      apply matches_star_chr in H; rename H into Hs end.
    match goal with H : p _ = true |- _ => rename H into Hc end.
    split; [discriminate|]. simpl. rewrite Hc, Hs. reflexivity.
  - intros [Hne H]. destruct s as [|c s]; [congruence|]. simpl in H.
    apply andb_prop in H as [Pc Ps]. change (c :: s) with ([c] ++ s).
    constructor; [constructor; exact Pc | apply matches_star_chr; exact Ps].
Qed.

Lemma matches_spaces (b s a : str) :
  matches SPACES b s a <-> blanks s = true.
Proof.
  unfold SPACES. rewrite matches_plus_chr. unfold blanks.
  destruct s; [split; [intros [H _]; congruence | discriminate]|].
  split; [tauto | split; [discriminate | assumption]].
Qed.

Lemma matches_at_least3 (p : ascii -> bool) (b s a : str) :
  matches (AtLeast3 (Chr p)) b s a <-> 3 <= length s /\ forallb p s = true.
Proof.
  unfold AtLeast3. split.
  - intros H. inv H.
    repeat match goal with
           | H : matches (Seq _ _) _ _ _ |- _ => inv H
           | H : matches (Chr _) _ _ _ |- _ => inv H
           end.
    match goal with H : matches (Star _) _ _ _ |- _ =>
      apply matches_star_chr in H; rename H into Hs end.
    simpl. split; [lia|].
    repeat match goal with H : p _ = true |- _ => rewrite H; clear H end.
    exact Hs.
  - intros [Hl H]. destruct s as [|c1 [|c2 [|c3 s]]]; simpl in Hl; try lia.
    simpl in H.
    apply andb_prop in H as [P1 H]. apply andb_prop in H as [P2 H].
    apply andb_prop in H as [P3 H].
    change (c1 :: c2 :: c3 :: s) with ([c1] ++ [c2] ++ [c3] ++ s).
    repeat (constructor; [constructor; assumption|]).
    apply matches_star_chr. exact H.
Qed.

Lemma matches_alpha_id (b s a : str) :
  matches (Seq (Chr is_ascii_letter)
               (Star (Chr (fun c => is_word c || is_space c)))) b s a
  <-> alpha_id s = true.
Proof.
  split.
  - intros H. inv H.
    match goal with H : matches (Chr _) _ _ _ |- _ => inv H end.
    match goal with H : matches (Star _) _ _ _ |- _ =>
      apply matches_star_chr in H; rename H into Hs end.
    match goal with H : is_ascii_letter _ = true |- _ => rename H into Hc end.
    simpl. rewrite Hc. exact Hs.
  - destruct s as [|c s]; simpl; [discriminate|]. intros H.
    apply andb_prop in H as [Pc Ps]. change (c :: s) with ([c] ++ s).
    constructor; [constructor; exact Pc | apply matches_star_chr; exact Ps].
Qed.

Lemma at_eol_spaces (a : str) : at_eol a = true -> forallb is_space a = true.
Proof.
  destruct a as [|c [|c' a]]; simpl; try discriminate; [reflexivity|].
  intros H. apply Nat.eqb_eq in H.
  assert (c = nl)
    by (unfold code in H; rewrite <- (ascii_nat_embedding c), H; reflexivity).
  subst. reflexivity.
Qed.

Ltac caps_same H :=
  let E := fresh "E" in
  pose proof (captures_groupless _ _ _ _ _ _ H eq_refl) as E;
  apply captures_matches in H.

Lemma groups_of_entry_line (sid ttl pg : str) :
  let cs := set_cap "page" pg (set_cap "title" ttl (set_cap "section_id" sid [])) in
  get_cap "section_id" cs = Some sid /\
  get_cap "title" cs = Some ttl /\
  get_cap "page" cs = Some pg.
Proof. repeat split; reflexivity. Qed.

(** The anatomy of a match of the entry pattern: the text is the three
    groups with white space between them and after them. *)
Lemma toc_pattern_groups (line : str) (m : match_obj) :
  re_match TOC_ENTRY_PATTERN line = Some m ->
  exists gap1 gap2 tail,
    line = group m "section_id" ++ gap1 ++ group m "title" ++ gap2
           ++ group m "page" ++ tail /\
    entry_line (group m "section_id") gap1 (group m "title") gap2
               (group m "page") /\
    forallb is_space tail = true.
Proof.
  intros H. apply re_match_captures in H.
  destruct H as (s & a & -> & C & _). unfold TOC_ENTRY_PATTERN in C.
  inv C.
  match goal with H : captures Bol _ _ _ _ _ |- _ => inv H end.
  match goal with H : captures (Seq (Grp _ _) _) _ _ _ _ _ |- _ => inv H end.
  match goal with H : captures (Grp "section_id" _) _ _ _ _ _ |- _ => inv H end.
  match goal with H : captures (Alt _ _) _ _ _ _ _ |- _ =>
    caps_same H; rename H into Hid end.
  subst.
  match goal with H : captures (Seq SPACES _) _ _ _ _ _ |- _ => inv H end.
  match goal with H : captures SPACES _ _ _ _ _ |- _ =>
    caps_same H; apply matches_spaces in H; rename H into Hg1 end.
  subst.
  match goal with H : captures (Seq (Grp _ _) _) _ _ _ _ _ |- _ => inv H end.
  match goal with H : captures (Grp "title" _) _ _ _ _ _ |- _ => inv H end.
  match goal with H : captures (AtLeast3 _) _ _ _ _ _ |- _ =>
    caps_same H; apply matches_at_least3 in H; rename H into Ht end.
  subst.
  match goal with H : captures (Seq SPACES _) _ _ _ _ _ |- _ => inv H end.
  match goal with H : captures SPACES _ _ _ _ _ |- _ =>
    caps_same H; apply matches_spaces in H; rename H into Hg2 end.
  subst.
  match goal with H : captures (Seq (Grp _ _) _) _ _ _ _ _ |- _ => inv H end.
  match goal with H : captures (Grp "page" _) _ _ _ _ _ |- _ => inv H end.
  match goal with H : captures DIGITS _ _ _ _ _ |- _ =>
    caps_same H; apply matches_digits in H; rename H into Hp end.
  subst.
  match goal with H : captures (Seq (Star _) Eol) _ _ _ _ _ |- _ => inv H end.
  match goal with H : captures (Star _) _ _ _ _ _ |- _ =>
    caps_same H; apply matches_star_chr in H; rename H into Htl end.
  match goal with H : captures Eol _ _ _ _ _ |- _ => inv H end.
  subst.
  match goal with H : at_eol _ = true |- _ =>
    apply at_eol_spaces in H; rename H into Ha end.
  match goal with H : _ = m_groups m |- _ => rename H into Hm end.
  unfold group. rewrite <- Hm.
  match goal with |- context [set_cap "page" ?pg (set_cap "title" ?ttl
                                (set_cap "section_id" ?sid []))] =>
    destruct (groups_of_entry_line sid ttl pg) as (G1 & G2 & G3)
  end.
  rewrite G1, G2, G3.
  match type of Hg1 with blanks ?g1 = true =>
  match type of Hg2 with blanks ?g2 = true =>
  match type of Htl with forallb is_space ?t = true =>
    exists g1, g2, (t ++ a)
  end end end.
  split; [|split].
  - cbn [rev app]. rewrite !app_nil_r, <- !app_assoc. reflexivity.
  - unfold entry_line. repeat split; try assumption; try tauto.
    inv Hid;
      match goal with
      | H : matches DOTTED _ _ _ |- _ => left; apply matches_dotted in H; exact H
      | H : matches (Seq _ _) _ _ _ |- _ =>
          right; apply matches_alpha_id in H; exact H
      end.
  - rewrite forallb_app, Htl, Ha. reflexivity.
Qed.

Lemma entry_line_matches (sid gap1 ttl gap2 pg : str) :
  entry_line sid gap1 ttl gap2 pg ->
  matches TOC_ENTRY_PATTERN [] (sid ++ gap1 ++ ttl ++ gap2 ++ pg) [].
Proof.
  intros (Hid & Hg1 & Hl & Ht & Hg2 & Hp). unfold TOC_ENTRY_PATTERN.
  replace (sid ++ gap1 ++ ttl ++ gap2 ++ pg)
    with ([] ++ sid ++ gap1 ++ ttl ++ gap2 ++ pg ++ [] ++ [])
    by (simpl; rewrite app_nil_r; reflexivity).
  apply M_Seq; [apply M_Bol|].
  apply M_Seq.
  { apply M_Grp. destruct Hid as [Hd|Ha].
    - apply M_AltL, matches_dotted. exact Hd.
    - apply M_AltR, matches_alpha_id. exact Ha. }
  apply M_Seq; [apply matches_spaces; exact Hg1|].
  apply M_Seq; [apply M_Grp, matches_at_least3; split; assumption|].
  apply M_Seq; [apply matches_spaces; exact Hg2|].
  apply M_Seq; [apply M_Grp, matches_digits; exact Hp|].
  apply M_Seq; [apply M_Star0 | apply M_Eol; reflexivity].
Qed.

Lemma trimmed_no_blank_tail (u v : str) :
  trimmed (u ++ v) -> forallb is_space v = true -> v = [].
Proof.
  intros [_ H] Hv. rewrite rev_app_distr in H.
  destruct (rev v) as [|c r] eqn:E.
  - apply (f_equal (@rev ascii)) in E. rewrite rev_involutive in E. exact E.
  - simpl in H. assert (Hin : In c v) by (apply in_rev; rewrite E; left; reflexivity).
    rewrite forallb_forall in Hv. rewrite (Hv c Hin) in H. discriminate.
Qed.

(** X1: the Entry Recognizer accepts a line exactly when the trimmed line
    is an identifier (digits separated by periods, or a letter followed by
    word characters and white space), white space, a title of at least
    three characters none of which is a period, white space, and a run of
    digits. *)
Theorem recognised_lines (line : str) :
  accepts line = true <->
  exists sid gap1 ttl gap2 pg,
    strip line = sid ++ gap1 ++ ttl ++ gap2 ++ pg /\
    entry_line sid gap1 ttl gap2 pg.
Proof.
  rewrite accepts_iff_match. split.
  - intros H.
    destruct (re_match TOC_ENTRY_PATTERN (strip line)) as [m|] eqn:E;
      [|discriminate].
    destruct (toc_pattern_groups _ _ E) as (g1 & g2 & tail & El & Hshape & Ht).
    assert (tail = []).
    { apply (trimmed_no_blank_tail
               (group m "section_id" ++ g1 ++ group m "title" ++ g2
                ++ group m "page")); [|exact Ht].
      rewrite <- !app_assoc, <- El. apply strip_trimmed. }
    subst tail. rewrite app_nil_r in El. eauto 10.
  - intros (sid & g1 & ttl & g2 & pg & E & Hshape). rewrite E.
    unfold re_match, match_at. simpl firstn. simpl skipn.
    destruct (run _ _ _) eqn:R; [reflexivity|]. exfalso. revert R.
    rewrite <- (app_nil_r (sid ++ g1 ++ ttl ++ g2 ++ pg)).
    apply (run_complete match_obj TOC_ENTRY_PATTERN []
             (sid ++ g1 ++ ttl ++ g2 ++ pg) []).
    + apply entry_line_matches. exact Hshape.
    + intros cs'. discriminate.
Qed.

(** ** The fields of a recognised entry *)

Lemma parse_toc_entry_groups (line doc : str) (e : entry) :
  parse_toc_entry line doc = Some e ->
  exists m,
    re_match TOC_ENTRY_PATTERN (strip line) = Some m /\
    doc_title e = doc /\
    section_id e = strip (group m "section_id") /\
    title e = strip (group m "title") /\
    page e = int_of_digits (strip (group m "page")) /\
    (level e, parent_id e) = hierarchy (section_id e) /\
    full_path e = strip (section_id e ++ L " " ++ title e).
Proof.
  unfold parse_toc_entry. intros H.
  destruct (re_match TOC_ENTRY_PATTERN (strip line)) as [m|]; [|discriminate].
  exists m. destruct (hierarchy _) as [lv par] eqn:Eh.
  injection H as <-. simpl. rewrite Eh. repeat split; reflexivity.
Qed.

Lemma rstrip_split (s : str) :
  exists suf, s = rstrip s ++ suf /\ forallb is_space suf = true.
Proof.
  unfold rstrip.
  destruct (drop_while_split is_space (rev s)) as (pre & E & F).
  exists (rev pre). split.
  - rewrite <- rev_app_distr, <- E. symmetry. apply rev_involutive.
  - rewrite forallb_forall in *. intros c Hc. apply F, in_rev. exact Hc.
Qed.

Lemma lstrip_split (s : str) :
  exists pre, s = pre ++ lstrip s /\ forallb is_space pre = true.
Proof. apply drop_while_split. Qed.

(** Trimming removes white space at both ends and nothing else. *)
Lemma strip_split (s : str) :
  exists pre suf, s = pre ++ strip s ++ suf /\
                  forallb is_space pre = true /\ forallb is_space suf = true.
Proof.
  destruct (lstrip_split s) as (pre & E1 & F1).
  destruct (rstrip_split (lstrip s)) as (suf & E2 & F2).
  exists pre, suf. unfold strip. rewrite <- E2. auto.
Qed.

Lemma forallb_strip (p : ascii -> bool) (s : str) :
  forallb p s = true -> forallb p (strip s) = true.
Proof.
  destruct (strip_split s) as (pre & suf & E & _). intros H.
  rewrite E, !forallb_app in H.
  apply andb_prop in H as [_ H]. apply andb_prop in H as [H _]. exact H.
Qed.

Lemma strip_keeps_head (c : ascii) (r : str) :
  is_space c = false -> exists r', strip (c :: r) = c :: r'.
Proof.
  intros Hc. unfold strip, lstrip. simpl. rewrite Hc.
  destruct (rstrip_split (c :: r)) as (suf & E & F).
  destruct (rstrip (c :: r)) as [|c' r'] eqn:Er.
  - simpl in E. subst suf. simpl in F. rewrite Hc in F. discriminate.
  - injection E as <- _. eauto.
Qed.

Lemma strip_no_space (s : str) :
  forallb (fun c => negb (is_space c)) s = true -> strip s = s.
Proof.
  intros H. apply trimmed_strip. split.
  - destruct s as [|c s]; simpl in *; [exact I|].
    apply andb_prop in H as [H _]. apply negb_true_iff. exact H.
  - assert (H' : forallb (fun c => negb (is_space c)) (rev s) = true).
    { rewrite forallb_forall in *. intros c Hc. apply H, in_rev. exact Hc. }
    destruct (rev s) as [|c r]; simpl in *; [exact I|].
    apply andb_prop in H' as [H' _]. apply negb_true_iff. exact H'.
Qed.

Lemma split_chars (p : ascii -> bool) (sep : ascii) (s : str) :
  forallb (forallb p) (split sep s) = true ->
  forallb (fun c => p c || eqc c sep) s = true.
Proof.
  induction s as [|c s IH]; simpl; [reflexivity|].
  destruct (eqc c sep) eqn:E.
  - simpl. intros H. rewrite orb_true_r. apply IH. exact H.
  - destruct (split sep s) as [|w ws] eqn:Es.
    + exfalso. exact (split_nonempty _ _ Es).
    + simpl. intros H. apply andb_prop in H as [H1 H2].
      apply andb_prop in H1 as [Pc Pw]. rewrite Pc. simpl.
      apply IH. simpl. rewrite Pw, H2. reflexivity.
Qed.

Lemma forallb_impl (p q : ascii -> bool) (s : str) :
  (forall c, p c = true -> q c = true) ->
  forallb p s = true -> forallb q s = true.
Proof.
  intros Hpq. rewrite !forallb_forall. auto.
Qed.

Lemma dotted_digits_chars (s : str) :
  dotted_digits s = true ->
  forallb (fun c => is_digit c || eqc c "."%char) s = true.
Proof.
  unfold dotted_digits. intros H. apply split_chars.
  rewrite forallb_forall in *. intros w Hw.
  apply all_digits_forallb, H, Hw.
Qed.

Lemma digit_or_period_not_space (c : ascii) :
  is_digit c || eqc c "."%char = true -> negb (is_space c) = true.
Proof.
  intros Hc. apply orb_prop in Hc as [Hd|Hp].
  - destruct (is_space c) eqn:E; [|reflexivity].
    unfold is_digit, is_space, between in *.
    repeat rewrite ?andb_true_iff, ?orb_true_iff, ?Nat.leb_le, ?Nat.eqb_eq in *.
    lia.
  - apply eqc_eq in Hp. subst. reflexivity.
Qed.

Lemma dotted_digits_strip (s : str) : dotted_digits s = true -> strip s = s.
Proof.
  intros H. apply strip_no_space.
  apply (forallb_impl _ _ _ digit_or_period_not_space (dotted_digits_chars s H)).
Qed.

Lemma length_split_periods (s : str) :
  length (split "."%char s) = S (periods s).
Proof.
  unfold periods. induction s as [|c s IH]; simpl; [reflexivity|].
  destruct (eqc c "."%char); simpl; [rewrite IH; reflexivity|].
  destruct (split "."%char s) as [|w ws] eqn:Es.
  - exfalso. exact (split_nonempty _ _ Es).
  - simpl in *. exact IH.
Qed.

Lemma word_or_space_not_period (c : ascii) :
  word_or_space c = true -> eqc c "."%char = false.
Proof.
  intros H. destruct (eqc c "."%char) eqn:E; [|reflexivity].
  apply eqc_eq in E. subst. discriminate.
Qed.

Lemma letter_not_period (c : ascii) :
  is_ascii_letter c = true -> eqc c "."%char = false.
Proof.
  intros H. destruct (eqc c "."%char) eqn:E; [|reflexivity].
  apply eqc_eq in E. subst. discriminate.
Qed.

Lemma periods_none (s : str) :
  forallb no_period s = true -> periods s = 0.
Proof.
  unfold periods, no_period. induction s as [|c s IH]; simpl; [reflexivity|].
  intros H. apply andb_prop in H as [Hc Hs]. apply negb_true_iff in Hc.
  rewrite Hc. apply IH. exact Hs.
Qed.

Lemma alpha_id_no_period (s : str) :
  alpha_id s = true -> forallb no_period s = true.
Proof.
  destruct s as [|c r]; simpl; [discriminate|]. intros H.
  apply andb_prop in H as [Hc Hr]. unfold no_period at 1.
  rewrite (letter_not_period c Hc). simpl.
  apply (forallb_impl word_or_space); [|exact Hr].
  intros x Hx. unfold no_period. rewrite (word_or_space_not_period x Hx).
  reflexivity.
Qed.

Lemma letter_not_space (c : ascii) :
  is_ascii_letter c = true -> is_space c = false.
Proof.
  intros H. destruct (is_space c) eqn:E; [|reflexivity].
  unfold is_ascii_letter, is_space, between in *.
  repeat rewrite ?andb_true_iff, ?orb_true_iff, ?Nat.leb_le, ?Nat.eqb_eq in *.
  lia.
Qed.

Lemma letter_not_digit (c : ascii) :
  is_ascii_letter c = true -> is_digit c = false.
Proof.
  intros H. destruct (is_digit c) eqn:E; [|reflexivity].
  unfold is_ascii_letter, is_digit, between in *.
  repeat rewrite ?andb_true_iff, ?orb_true_iff, ?Nat.leb_le, ?Nat.eqb_eq in *.
  lia.
Qed.

Lemma letter_head_not_dotted (c : ascii) (r : str) :
  is_ascii_letter c = true -> dotted_digits (c :: r) = false.
Proof.
  intros H. unfold dotted_digits. simpl.
  rewrite (letter_not_period c H).
  destruct (split "."%char r) as [|w ws]; simpl;
    rewrite (letter_not_digit c H); reflexivity.
Qed.

Lemma dotted_digits_head (s : str) :
  dotted_digits s = true -> exists c r, s = c :: r /\ is_digit c = true.
Proof.
  destruct s as [|c r]; [discriminate|]. intros H. exists c, r.
  split; [reflexivity|]. unfold dotted_digits in H. simpl in H.
  destruct (eqc c "."%char); [discriminate|].
  destruct (split "."%char r); simpl in H;
    apply andb_prop in H as [H _]; apply andb_prop in H as [H _]; exact H.
Qed.

Lemma int_of_digits_nonneg (s : str) :
  forallb is_digit s = true -> (0 <= int_of_digits s)%Z.
Proof.
  unfold int_of_digits.
  assert (G : forall acc, (0 <= acc)%Z -> forallb is_digit s = true ->
            (0 <= fold_left (fun acc c => 10 * acc + digit_val c) s acc)%Z).
  { induction s as [|c s IH]; intros acc Ha H; cbn [fold_left]; [exact Ha|].
    cbn [forallb] in H. apply andb_prop in H as [Hc Hs]. apply IH; [|exact Hs].
    unfold is_digit, between in Hc.
    apply andb_prop in Hc as [Hlo _]. apply Nat.leb_le in Hlo.
    unfold digit_val. lia. }
  apply G. lia.
Qed.

Lemma drop_while_app_all (p : ascii -> bool) (u v : str) :
  forallb p u = true -> drop_while p (u ++ v) = drop_while p v.
Proof.
  induction u as [|c u IH]; simpl; [reflexivity|].
  intros H. apply andb_prop in H as [-> H]. apply IH. exact H.
Qed.

(** A trimmed text between two runs of white space is what trimming
    gives. *)
Lemma strip_unique (pre t suf : str) :
  forallb is_space pre = true -> forallb is_space suf = true -> trimmed t ->
  strip (pre ++ t ++ suf) = t.
Proof.
  intros Hp Hs [Hh Hl]. unfold strip, lstrip.
  rewrite drop_while_app_all by exact Hp.
  destruct t as [|c t'].
  - simpl. rewrite (drop_while_all _ _ Hs). reflexivity.
  - rewrite (drop_while_id is_space ((c :: t') ++ suf)) by exact Hh.
    unfold rstrip. rewrite rev_app_distr, drop_while_app_all.
    + rewrite (drop_while_id _ _ Hl). apply rev_involutive.
    + rewrite forallb_forall in *. intros x Hx. apply Hs, in_rev. exact Hx.
Qed.

(** What the groups of a recognised line give the identifier of the entry:
    a numeric identifier as it stands, or a trimmed one that begins with a
    letter and holds no period. *)
Lemma entry_id_cases (line doc : str) (e : entry) :
  parse_toc_entry line doc = Some e ->
  dotted_digits (section_id e) = true \/
  (exists c r, section_id e = c :: r /\ is_ascii_letter c = true) /\
  forallb no_period (section_id e) = true.
Proof.
  intros H. apply parse_toc_entry_groups in H.
  destruct H as (m & E & _ & Es & _).
  destruct (toc_pattern_groups _ _ E) as (g1 & g2 & tail & _ & Hshape & _).
  destruct Hshape as ([Hd|Ha] & _).
  - left. rewrite Es, (dotted_digits_strip _ Hd). exact Hd.
  - right. split.
    + destruct (group m "section_id") as [|c r] eqn:Eg; [discriminate|].
      simpl in Ha. apply andb_prop in Ha as [Hc _].
      destruct (strip_keeps_head c r (letter_not_space c Hc)) as (r' & Er).
      exists c, r'. rewrite Es. auto.
    + rewrite Es. apply forallb_strip, alpha_id_no_period. exact Ha.
Qed.

Lemma entry_id_head (line doc : str) (e : entry) :
  parse_toc_entry line doc = Some e ->
  exists c r, section_id e = c :: r /\
              (is_digit c || is_ascii_letter c) = true.
Proof.
  intros H. destruct (entry_id_cases line doc e H) as [Hd|[(c & r & Ec & Hc) _]].
  - destruct (dotted_digits_head _ Hd) as (c & r & Ec & Hc).
    exists c, r. rewrite Hc. auto.
  - exists c, r. rewrite Hc, orb_true_r. auto.
Qed.

(** X2: the identifier of a recognised entry begins with a digit or a
    letter, its title holds no period, the page read from the line is not
    negative, and its level is the number of periods of the identifier
    plus one. *)
Theorem recognised_entry_fields (line doc : str) (e : entry) :
  parse_toc_entry line doc = Some e ->
  (exists c r, section_id e = c :: r /\
               (is_digit c || is_ascii_letter c) = true) /\
  forallb no_period (title e) = true /\
  (0 <= page e)%Z /\
  level e = S (periods (section_id e)).
Proof.
  intros H. pose proof (entry_id_cases line doc e H) as Hid.
  pose proof (entry_id_head line doc e H) as Hhead.
  apply parse_toc_entry_groups in H.
  destruct H as (m & E & _ & Es & Et & Ep & Eh & _).
  destruct (toc_pattern_groups _ _ E) as (g1 & g2 & tail & _ & Hshape & _).
  destruct Hshape as (_ & _ & _ & Htt & _ & Hpg).
  assert (T : trimmed (section_id e)) by (rewrite Es; apply strip_trimmed).
  unfold hierarchy in Eh. rewrite (numeric_id_trimmed _ T) in Eh.
  split; [|split; [|split]].
  - exact Hhead.
  - rewrite Et. apply forallb_strip. exact Htt.
  - rewrite Ep. apply int_of_digits_nonneg, forallb_strip, all_digits_forallb.
    exact Hpg.
  - destruct Hid as [Hd|[(c & r & Ec & Hc) Hnp]].
    + rewrite Hd in Eh. injection Eh as -> _. apply length_split_periods.
    + rewrite Ec in Eh. rewrite (letter_head_not_dotted c r Hc) in Eh.
      injection Eh as -> _. rewrite (periods_none _ Hnp). reflexivity.
Qed.

Lemma recognised_entry_fields_witness :
  exists e, parse_toc_entry (L "10.2 Cable plug 40") doc0 = Some e /\
            level e = 2 /\ (0 <= page e)%Z.
Proof.
  eexists.
  match goal with |- ?X = Some ?e /\ _ =>
    assert (P : X = Some e) by (vm_compute; reflexivity)
  end.
  split; [exact P|].
  destruct (recognised_entry_fields _ _ _ P) as (_ & _ & Hp & Hl).
  split; [rewrite Hl; vm_compute; reflexivity | exact Hp].
Defined.

(** X3: the display path of a recognised entry is the identifier, one
    blank and the title; with an empty title it is the identifier alone. *)
Theorem full_path_of_entry (line doc : str) (e : entry) :
  parse_toc_entry line doc = Some e ->
  full_path e = match title e with
                | [] => section_id e
                | _ :: _ => section_id e ++ L " " ++ title e
                end.
Proof.
  intros H.
  destruct (entry_id_head line doc e H) as (c & r & Ec & Hc).
  apply parse_toc_entry_groups in H.
  destruct H as (m & _ & _ & Es & Et & _ & _ & Ef).
  assert (Ts : trimmed (section_id e)) by (rewrite Es; apply strip_trimmed).
  assert (Tt : trimmed (title e)) by (rewrite Et; apply strip_trimmed).
  rewrite Ef. destruct (title e) as [|t ts] eqn:Ett.
  - apply (strip_unique [] (section_id e) (L " ")); auto.
  - apply trimmed_strip. destruct Ts as [Hh _], Tt as [_ Hl]. split.
    + rewrite Ec in *. exact Hh.
    + rewrite !rev_app_distr.
      destruct (rev (t :: ts)) as [|x xs] eqn:Er; [|exact Hl].
      apply (f_equal (@length ascii)) in Er. rewrite length_rev in Er.
      discriminate.
Qed.

Lemma full_path_of_entry_witness :
  exists e, parse_toc_entry (L "10.2 Cable plug 40") doc0 = Some e /\
            full_path e = L "10.2 Cable plug".
Proof.
  eexists.
  match goal with |- ?X = Some ?e /\ _ =>
    assert (P : X = Some e) by (vm_compute; reflexivity)
  end.
  split; [exact P|].
  rewrite (full_path_of_entry _ _ _ P). vm_compute. reflexivity.
Defined.

(** ** Parent identifiers *)

Lemma join_split (sep : ascii) (s : str) : join [sep] (split sep s) = s.
Proof.
  induction s as [|c s IH]; simpl; [reflexivity|].
  destruct (eqc c sep) eqn:E.
  - apply eqc_eq in E. subst c.
    destruct (split sep s) as [|w ws] eqn:Es.
    + exfalso. exact (split_nonempty _ _ Es).
    + simpl in *. rewrite IH. reflexivity.
  - destruct (split sep s) as [|w [|w' ws]] eqn:Es.
    + exfalso. exact (split_nonempty _ _ Es).
    + simpl in *. rewrite IH. reflexivity.
    + simpl in *. rewrite <- IH. reflexivity.
Qed.

Lemma join_snoc (sep : str) (ps : list str) (q : str) :
  ps <> [] -> join sep (ps ++ [q]) = join sep ps ++ sep ++ q.
Proof.
  induction ps as [|p [|p' ps] IH]; intros Hne; [congruence|reflexivity|].
  change (join sep ((p :: p' :: ps) ++ [q]))
    with (p ++ sep ++ join sep ((p' :: ps) ++ [q])).
  rewrite IH by discriminate.
  change (join sep (p :: p' :: ps)) with (p ++ sep ++ join sep (p' :: ps)).
  rewrite <- !app_assoc. reflexivity.
Qed.

Lemma split_join_digits (ps : list str) :
  ps <> [] -> forallb all_digits ps = true ->
  split "."%char (join (L ".") ps) = ps.
Proof.
  induction ps as [|d [|d' ps] IH]; intros Hne H; [congruence| |].
  - simpl in *. apply andb_prop in H as [H _].
    apply split_digits, all_digits_forallb. exact H.
  - change (join (L ".") (d :: d' :: ps))
      with (d ++ "."%char :: join (L ".") (d' :: ps)).
    cbn [forallb] in H. apply andb_prop in H as [Hd H].
    rewrite split_at_dot by (apply all_digits_forallb; exact Hd).
    rewrite IH; [reflexivity | discriminate | exact H].
Qed.

Lemma forallb_removelast {A : Type} (p : A -> bool) (l : list A) :
  forallb p l = true -> forallb p (removelast l) = true.
Proof.
  induction l as [|x [|y l] IH]; simpl in *; try reflexivity.
  intros H. apply andb_prop in H as [-> H]. apply IH. exact H.
Qed.

(** X4: when a recognised entry has a parent, its identifier is the
    parent's identifier, a period and a final run of digits; the parent's
    identifier is itself digits separated by periods, one level up. *)
Theorem parent_is_one_level_up (line doc : str) (e : entry) (p : str) :
  parse_toc_entry line doc = Some e ->
  parent_id e = Some p ->
  exists q,
    section_id e = p ++ L "." ++ q /\
    all_digits q = true /\
    dotted_digits p = true /\
    level e = S (fst (hierarchy p)).
Proof.
  intros H Hp. apply parse_toc_entry_groups in H.
  destruct H as (m & _ & _ & Es & _ & _ & Eh & _).
  assert (T : trimmed (section_id e)) by (rewrite Es; apply strip_trimmed).
  unfold hierarchy in Eh. rewrite (numeric_id_trimmed _ T) in Eh.
  destruct (dotted_digits (section_id e)) eqn:D;
    [|injection Eh as _ Ep; congruence].
  set (parts := split "."%char (section_id e)) in *.
  injection Eh as El Ep. rewrite Hp in Ep.
  destruct (1 <? length parts) eqn:Lt; [|discriminate].
  injection Ep as ->. apply Nat.ltb_lt in Lt.
  assert (Hne : parts <> []) by (intros E0; rewrite E0 in Lt; simpl in Lt; lia).
  pose proof (@app_removelast_last str parts [] Hne) as Epq.
  remember (@removelast str parts) as ps eqn:Eps.
  remember (@last str parts []) as q eqn:Eq.
  assert (Hps : ps <> []).
  { intros E0. rewrite E0 in Epq. rewrite Epq in Lt. simpl in Lt. lia. }
  assert (Hall : forallb all_digits parts = true) by exact D.
  assert (Hallps : forallb all_digits ps = true)
    by (rewrite Eps; apply forallb_removelast; exact Hall).
  assert (Hq : all_digits q = true).
  { rewrite Epq, forallb_app in Hall. apply andb_prop in Hall as [_ Hq].
    simpl in Hq. rewrite andb_true_r in Hq. exact Hq. }
  pose proof (split_join_digits ps Hps Hallps) as Esj.
  change (L ".") with ["."%char] in *.
  assert (Dp : dotted_digits (join ["."%char] ps) = true).
  { unfold dotted_digits. rewrite Esj. exact Hallps. }
  exists q. split; [|split; [exact Hq | split; [exact Dp|]]].
  - transitivity (join ["."%char] parts);
      [symmetry; apply join_split|].
    rewrite Epq. apply join_snoc. exact Hps.
  - unfold hierarchy.
    rewrite numeric_id_trimmed
      by (rewrite <- (dotted_digits_strip _ Dp); apply strip_trimmed).
    rewrite Dp. cbn [fst]. rewrite Esj.
    rewrite El, Epq, length_app. simpl. lia.
Qed.

Lemma parent_is_one_level_up_witness :
  exists e, parse_toc_entry (L "10.2.7 Cable plug 40") doc0 = Some e /\
            parent_id e = Some (L "10.2") /\
            section_id e = L "10.2" ++ L "." ++ L "7" /\
            level e = 3.
Proof.
  eexists.
  match goal with |- ?X = Some ?e /\ _ =>
    assert (P : X = Some e) by (vm_compute; reflexivity)
  end.
  split; [exact P|]. split; [reflexivity|].
  destruct (parent_is_one_level_up _ _ _ (L "10.2") P eq_refl)
    as (q & E & _ & _ & Hl).
  split; [reflexivity | rewrite Hl; vm_compute; reflexivity].
Defined.

(** ** What the assembler hands on *)

Lemma accepts_strip (raw : str) : accepts (strip raw) = accepts raw.
Proof. rewrite !accepts_iff_match, strip_idempotent. reflexivity. Qed.

Lemma sorted_app {A : Type} (R : A -> A -> Prop) (l1 l2 : list A) :
  StronglySorted R l1 -> StronglySorted R l2 ->
  (forall x y, In x l1 -> In y l2 -> R x y) ->
  StronglySorted R (l1 ++ l2).
Proof.
  induction 1 as [|x l1 Hs IH Hx]; intros H2 Hc; simpl; [exact H2|].
  constructor.
  - apply IH; [exact H2|]. intros a b Ha Hb. apply Hc; [right|]; assumption.
  - apply Forall_app. split; [exact Hx|].
    apply Forall_forall. intros y Hy. apply Hc; [left; reflexivity | exact Hy].
Qed.

Lemma sorted_map {A B : Type} (R : B -> B -> Prop) (f : A -> B) (l : list A) :
  StronglySorted R (map f l) <-> StronglySorted (fun a b => R (f a) (f b)) l.
Proof.
  induction l as [|x l IH]; simpl.
  - split; constructor.
  - split; intros H; inv H; constructor; try (apply IH; assumption).
    + rewrite Forall_map in *. assumption.
    + rewrite Forall_map. assumption.
Qed.

Lemma sorted_constant {A : Type} (f : A -> nat) (i : nat) (l : list A) :
  (forall x, In x l -> f x = i) -> StronglySorted le (map f l).
Proof.
  induction l as [|x l IH]; intros H; simpl; constructor.
  - apply IH. intros y Hy. apply H. right. exact Hy.
  - apply Forall_forall. intros n Hn. apply in_map_iff in Hn as (y & <- & Hy).
    rewrite (H x), (H y); [lia | right; exact Hy | left; reflexivity].
Qed.

Lemma scan_indices_ascending (l : list str) :
  forall o,
    StronglySorted le
      (map fst (flat_map (fun it => toc_lines_of_page (fst it) (snd it))
                         (combine (seq o (length l)) l))) /\
    (forall i x,
       In (i, x) (flat_map (fun it => toc_lines_of_page (fst it) (snd it))
                           (combine (seq o (length l)) l)) -> o <= i).
Proof.
  induction l as [|t l IH]; intros o; cbn [length seq combine flat_map].
  - split; [constructor | intros i x []].
  - destruct (IH (S o)) as [Hs Hlo]. cbn [fst snd]. split.
    + rewrite map_app. apply sorted_app; [|exact Hs|].
      * apply (sorted_constant fst o). intros [j x] Hx.
        apply in_toc_lines_of_page in Hx as [-> _]. reflexivity.
      * intros a b Ha Hb.
        apply in_map_iff in Ha as ([j x] & <- & Hx).
        apply in_toc_lines_of_page in Hx as [-> _].
        apply in_map_iff in Hb as ([j' x'] & <- & Hx').
        apply Hlo in Hx'. simpl. lia.
    + intros i x Hin. apply in_app_iff in Hin as [Hin|Hin].
      * apply in_toc_lines_of_page in Hin as [-> _]. lia.
      * apply Hlo in Hin. lia.
Qed.

Lemma scan_lines_facts (text_pages : list str) (toc_lines : list (nat * str)) :
  find_toc_content text_pages = Ok toc_lines ->
  (forall i l, In (i, l) toc_lines -> trimmed l /\ accepts l = true) /\
  StronglySorted le (map fst toc_lines).
Proof.
  intros H. unfold find_toc_content in H.
  destruct (flat_map _ _) as [|x rest] eqn:E; [discriminate|].
  injection H as <-. rewrite <- E. split.
  - intros i l Hin. apply in_scan in Hin as (text & raw & _ & _ & Acc & ->).
    split; [apply strip_trimmed | rewrite accepts_strip; exact Acc].
  - apply (scan_indices_ascending text_pages 0).
Qed.

(** X5: when the scan succeeds, it returns at least one line; every line
    it returns is trimmed, is accepted by the Entry Recognizer as it
    stands, and carries the index of an existing page; the indices come in
    ascending order. *)
Theorem scan_result_shape (text_pages : list str) (toc_lines : list (nat * str)) :
  find_toc_content text_pages = Ok toc_lines ->
  toc_lines <> [] /\
  (forall i l, In (i, l) toc_lines ->
     i < length text_pages /\ trimmed l /\ accepts l = true) /\
  StronglySorted le (map fst toc_lines).
Proof.
  intros H. destruct (scan_lines_facts _ _ H) as [Hall Hs].
  split; [|split; [|exact Hs]].
  - unfold find_toc_content in H.
    destruct (flat_map _ _); [discriminate | injection H as <-; discriminate].
  - intros i l Hin. split; [|apply (Hall i l Hin)].
    eapply find_toc_content_index; [exact H | exact Hin].
Qed.

Lemma scan_result_shape_witness :
  [(0, L "1 Intro text 9"); (2, L "2 Next part 9")] <> [] /\
  (forall i l, In (i, l) [(0, L "1 Intro text 9"); (2, L "2 Next part 9")] ->
     i < length pages3 /\ trimmed l /\ accepts l = true) /\
  StronglySorted le (map fst [(0, L "1 Intro text 9"); (2, L "2 Next part 9")]).
Proof.
  apply (scan_result_shape pages3). vm_compute. reflexivity.
Defined.

(** X6: from the lines of a successful scan the assembler makes exactly
    one entry per line, in the order of the lines: the entry the Entry
    Recognizer gives for the line, with its page replaced by the index of
    the line's page plus one. *)
Theorem one_entry_per_line (text_pages : list str)
  (toc_lines : list (nat * str)) (doc : str) :
  find_toc_content text_pages = Ok toc_lines ->
  Forall2 (fun pl e =>
             exists e0, parse_toc_entry (snd pl) doc = Some e0 /\
                        e = set_page e0 (Z.of_nat (fst pl) + 1))
          toc_lines (parse_toc_entries toc_lines doc).
Proof.
  intros H. destruct (scan_lines_facts _ _ H) as (Hall & _). clear H.
  unfold parse_toc_entries.
  induction toc_lines as [|[i l] rest IH]; simpl; [constructor|].
  destruct (proj2 (parse_toc_entry_some_iff l doc)) as [e0 E0].
  { apply (Hall i l). left. reflexivity. }
  rewrite E0. simpl. constructor.
  - exists e0. auto.
  - apply IH. intros j l' Hin. apply (Hall j l'). right. exact Hin.
Qed.

Lemma one_entry_per_line_witness :
  Forall2 (fun pl e =>
             exists e0, parse_toc_entry (snd pl) doc0 = Some e0 /\
                        e = set_page e0 (Z.of_nat (fst pl) + 1))
          [(0, L "1 Intro text 9"); (2, L "2 Next part 9")]
          (parse_toc_entries [(0, L "1 Intro text 9"); (2, L "2 Next part 9")]
                             doc0).
Proof.
  apply (one_entry_per_line pages3). vm_compute. reflexivity.
Defined.

Lemma sorted_by_page_id (l : list entry) :
  StronglySorted (fun a b => (page a <= page b)%Z) l -> sorted_by_page l = l.
Proof.
  induction 1 as [|x l Hs IH Hx]; [reflexivity|].
  cbn [sorted_by_page fold_right]. fold (sorted_by_page l). rewrite IH.
  destruct l as [|y l]; [reflexivity|]. cbn [insert_by_page].
  inv Hx. destruct (page y <? page x)%Z eqn:E; [|reflexivity].
  apply Z.ltb_lt in E. lia.
Qed.

Lemma assembled_pages (toc_lines : list (nat * str)) (doc : str) :
  (forall i l, In (i, l) toc_lines -> accepts l = true) ->
  map page (parse_toc_entries toc_lines doc)
  = map (fun pl => (Z.of_nat (fst pl) + 1)%Z) toc_lines.
Proof.
  unfold parse_toc_entries.
  induction toc_lines as [|[i l] rest IH]; intros Hall; simpl; [reflexivity|].
  destruct (proj2 (parse_toc_entry_some_iff l doc)) as [e0 E0].
  { apply (Hall i l). left. reflexivity. }
  rewrite E0. simpl. f_equal. apply IH.
  intros j l' Hin. apply (Hall j l'). right. exact Hin.
Qed.

Lemma sorted_lines_pages (toc_lines : list (nat * str)) :
  StronglySorted le (map fst toc_lines) ->
  StronglySorted Z.le (map (fun pl => (Z.of_nat (fst pl) + 1)%Z) toc_lines).
Proof.
  induction toc_lines as [|pl rest IH]; simpl; intros H; [constructor|].
  inv H. constructor; [apply IH; assumption|].
  rewrite Forall_map in *.
  match goal with H : Forall _ rest |- _ =>
    eapply Forall_impl; [|exact H] end.
  intros b Hb. simpl in Hb. lia.
Qed.

(** X7: the entries assembled from a document come with ascending page
    numbers, so the sort by page that precedes the extraction leaves their
    order as it is. *)
Theorem assembled_entries_already_sorted (text_pages : list str)
  (toc_lines : list (nat * str)) (doc : str) :
  find_toc_content text_pages = Ok toc_lines ->
  sorted_by_page (parse_toc_entries toc_lines doc)
  = parse_toc_entries toc_lines doc.
Proof.
  intros H. destruct (scan_lines_facts _ _ H) as (Hall & Hs).
  apply sorted_by_page_id.
  apply (sorted_map Z.le page). rewrite assembled_pages.
  - apply sorted_lines_pages. exact Hs.
  - intros i l Hin. apply (Hall i l Hin).
Qed.

Lemma assembled_entries_already_sorted_witness :
  sorted_by_page
    (parse_toc_entries [(0, L "1 Intro text 5"); (0, L "2 Next part 7")] doc0)
  = parse_toc_entries [(0, L "1 Intro text 5"); (0, L "2 Next part 7")] doc0.
Proof.
  apply (assembled_entries_already_sorted pages1). vm_compute. reflexivity.
Defined.

(** ** Errors and results of the extraction *)

Lemma bind_ok {A B : Type} (m : result A) (f : A -> result B) (b : B) :
  bind m f = Ok b -> exists a, m = Ok a /\ f a = Ok b.
Proof. destruct m as [a|e]; simpl; [eauto | discriminate]. Qed.

Lemma bind_raise {A B : Type} (m : result A) (f : A -> result B) (x : exn) :
  bind m f = Raise x -> m = Raise x \/ exists a, m = Ok a /\ f a = Raise x.
Proof. destruct m as [a|e]; simpl; [eauto | intros [= ->]; auto]. Qed.

Lemma index_raise {A : Type} (l : list A) (i : Z) (x : exn) :
  index l i = Raise x -> x = IndexError.
Proof.
  unfold index. destruct (_ <? 0)%Z; [congruence|].
  destruct (nth_error _ _); congruence.
Qed.

Lemma middle_pages_raise (text_pages : list str) (zs : list Z) :
  forall acc x,
    fold_left (append_page text_pages) zs acc = Raise x ->
    acc = Raise x \/ x = IndexError.
Proof.
  induction zs as [|z zs IH]; intros acc x H; simpl in H; [auto|].
  apply IH in H as [H|H]; [|auto].
  unfold append_page in H. apply bind_raise in H as [H|(parts & _ & H)]; [auto|].
  apply bind_raise in H as [H|(t & _ & H)]; [|discriminate].
  right. eapply index_raise. exact H.
Qed.

(** The only exception the extraction raises is IndexError. *)
Lemma extraction_only_index_error (text_pages : list str) (e : entry)
  (next : option entry) (x : exn) :
  _extract_section_content text_pages e next = Raise x -> x = IndexError.
Proof.
  unfold _extract_section_content. cbv zeta. intros H.
  apply bind_raise in H as [H|(t & _ & H)]; [eapply index_raise; exact H|].
  apply bind_raise in H as [H|(parts & _ & H)].
  { apply middle_pages_raise in H as [H|H]; [discriminate | exact H]. }
  apply bind_raise in H as [H|(parts' & _ & H)]; [|discriminate].
  destruct next as [nx|]; [|discriminate].
  destruct (_ <? _)%Z; [|discriminate].
  apply bind_raise in H as [H|(t' & _ & H)]; [eapply index_raise; exact H|].
  destruct (re_search _ _); discriminate.
Qed.

(** X8: the extraction raises IndexError, and nothing else, in two cases:
    the page sequence is empty, or the next entry's page number is at most
    minus the number of pages (its page index, counted from the end, falls
    before the first page).  In every other case it returns a content. *)
Theorem extraction_index_error (text_pages : list str) (e : entry)
  (next : option entry) :
  (_extract_section_content text_pages e next = Raise IndexError <->
   text_pages = [] \/
   exists nx, next = Some nx /\ (page nx <= - page_count text_pages)%Z) /\
  ((exists c, _extract_section_content text_pages e next = Ok c) \/
   _extract_section_content text_pages e next = Raise IndexError).
Proof.
  pose proof (extraction_raises_exactly text_pages e next) as Hex.
  pose proof (extraction_only_index_error text_pages e next) as Honly.
  destruct (_extract_section_content text_pages e next) as [c|x] eqn:E.
  - split; [|left; eauto]. split; [discriminate|].
    destruct (proj1 Hex (ex_intro _ c eq_refl)) as [Hne Hnx].
    intros [->|(nx & En & Hp)]; [congruence|].
    specialize (Hnx nx En). lia.
  - rewrite (Honly x eq_refl) in *. split; [|right; reflexivity].
    split; [|reflexivity]. intros _.
    destruct text_pages as [|p0 ps] eqn:Ep; [left; reflexivity|right].
    destruct next as [nx|].
    + exists nx. split; [reflexivity|].
      destruct (Z_le_gt_dec (page nx) (- page_count (p0 :: ps))) as [Hle|Hgt];
        [exact Hle|].
      exfalso. destruct (proj2 Hex) as [c Hc]; [|discriminate].
      split; [discriminate|]. intros nx' [= <-]. lia.
    + exfalso. destruct (proj2 Hex) as [c Hc]; [|discriminate].
      split; [discriminate|]. intros nx' [=].
Qed.

(** X9: whatever the extraction returns is trimmed: the content of a
    section neither begins nor ends with white space. *)
Theorem extracted_content_is_trimmed (text_pages : list str) (e : entry)
  (next : option entry) (c : str) :
  _extract_section_content text_pages e next = Ok c -> trimmed c.
Proof.
  unfold _extract_section_content. cbv zeta. intros H.
  apply bind_ok in H as (t & _ & H).
  apply bind_ok in H as (parts & _ & H).
  apply bind_ok in H as (parts' & _ & H).
  injection H as <-. apply strip_trimmed.
Qed.

Lemma extracted_content_is_trimmed_witness :
  trimmed (L "Intro text 9" ++ [nl] ++ L "hello body").
Proof.
  apply (extracted_content_is_trimmed pages3 (nth 0 toc3 (Entry [] [] [] 0 0 None [] []))
           (nth_error toc3 1)).
  vm_compute. reflexivity.
Defined.

Lemma map_nth_seq (l : list str) :
  forall k, map (fun i => nth i l []) (seq k (length l - k)) = skipn k l.
Proof.
  induction l as [|x l IH]; intros k.
  - simpl. destruct k; reflexivity.
  - destruct k as [|k].
    + simpl. f_equal. rewrite <- seq_shift, map_map.
      specialize (IH 0). rewrite Nat.sub_0_r in IH. simpl in IH. exact IH.
    + simpl. rewrite <- seq_shift, map_map. apply IH.
Qed.

Lemma seq_offset (a m : nat) : seq a m = map (fun k => a + k) (seq 0 m).
Proof.
  induction a as [|a IH]; simpl.
  - symmetry. apply map_id.
  - rewrite <- seq_shift, IH, map_map. reflexivity.
Qed.

Lemma pages_from (text_pages : list str) (a : Z) :
  (0 <= a)%Z ->
  map (page_at text_pages) (range a (page_count text_pages))
  = skipn (Z.to_nat a) text_pages.
Proof.
  intros Ha. rewrite <- map_nth_seq. unfold range, page_count, page_at.
  replace (Z.to_nat (Z.of_nat (length text_pages) - a))
    with (length text_pages - Z.to_nat a) by lia.
  rewrite (seq_offset (Z.to_nat a)), !map_map.
  apply map_ext. intros k. f_equal. lia.
Qed.

(** X10: for an entry without a next entry the content runs from its
    start page to the end of the document: the text of the start page
    after the first occurrence of its identifier (the whole page without
    one), then every later page, each part trimmed and the parts joined
    by single blanks. *)
Theorem last_entry_reads_to_the_end (text_pages : list str) (e : entry) :
  text_pages <> [] ->
  let sp := start_page_of text_pages e in
  _extract_section_content text_pages e None
  = Ok (strip (join (L " ")
                 (strip (after_heading (section_id e) (page_at text_pages sp))
                  :: map strip (skipn (S (Z.to_nat sp)) text_pages)))).
Proof.
  intros Hne sp.
  rewrite extract_section_content_spec; [|exact Hne | intros nx [=]].
  pose proof (start_page_valid text_pages e Hne) as Hsp. fold sp in Hsp.
  unfold trimmed_content, fragments. fold sp. cbn [end_page_of].
  rewrite pages_between_range by lia.
  rewrite Z.min_id, pages_from by lia.
  replace (Z.to_nat (sp + 1)) with (S (Z.to_nat sp)) by lia.
  rewrite app_nil_r. reflexivity.
Qed.

Lemma last_entry_reads_to_the_end_witness :
  _extract_section_content pages3 (nth 1 toc3 (Entry [] [] [] 0 0 None [] [])) None
  = Ok (L "Next part 9" ++ [nl] ++ L "more").
Proof.
  rewrite (last_entry_reads_to_the_end pages3); [|discriminate].
  vm_compute. reflexivity.
Defined.

(** ** The list of sections *)

Section SectionsLoop.

Variable h : nat * entry -> result str.

Let step (acc : result (list section)) (it : nat * entry) :=
  parsed_sections <- acc ;;
  content <- h it ;;
  Ok (parsed_sections ++ [Section_ (snd it) content]).

Lemma sections_fold_raise (l : list (nat * entry)) (x : exn) :
  fold_left step l (Raise x) = Raise x.
Proof. induction l as [|it l IH]; simpl; [reflexivity | exact IH]. Qed.

Lemma sections_fold_inv (l : list (nat * entry)) :
  forall acc secs,
    fold_left step l (Ok acc) = Ok secs ->
    exists rest,
      secs = acc ++ rest /\
      Forall2 (fun it s => sec_entry s = snd it /\ h it = Ok (content s)) l rest.
Proof.
  induction l as [|it l IH]; intros acc secs H; cbn [fold_left] in H.
  - injection H as <-. exists []. rewrite app_nil_r. split; [reflexivity|constructor].
  - assert (Est : step (Ok acc) it
                  = match h it with
                    | Ok c => Ok (acc ++ [Section_ (snd it) c])
                    | Raise x => Raise x
                    end)
      by (unfold step; simpl; destruct (h it); reflexivity).
    rewrite Est in H. destruct (h it) as [c|x] eqn:E.
    + apply IH in H as (rest & -> & F). exists (Section_ (snd it) c :: rest).
      rewrite <- app_assoc. split; [reflexivity|]. constructor; [|exact F].
      simpl. auto.
    + rewrite sections_fold_raise in H. discriminate.
Qed.

End SectionsLoop.

Lemma map_snd_enumerate {A : Type} (l : list A) : map snd (enumerate l) = l.
Proof.
  unfold enumerate. generalize 0.
  induction l as [|x l IH]; intros o; simpl; [reflexivity|].
  rewrite IH. reflexivity.
Qed.

Lemma parse_document_sections_inv (text_pages : list str) (toc : list entry)
  (secs : list section) :
  parse_document_sections text_pages toc = Ok secs ->
  Forall2 (fun it s =>
             sec_entry s = snd it /\
             _extract_section_content text_pages (snd it)
               (nth_error (sorted_by_page toc) (fst it + 1)) = Ok (content s))
          (enumerate (sorted_by_page toc)) secs.
Proof.
  unfold parse_document_sections. cbv zeta. intros H.
  apply (sections_fold_inv
           (fun it => _extract_section_content text_pages (snd it)
                        (nth_error (sorted_by_page toc) (fst it + 1))))
    in H.
  destruct H as (rest & -> & F). exact F.
Qed.

Lemma forall2_map_eq {A B C : Type} (f : A -> C) (g : B -> C)
  (l : list A) (l' : list B) :
  Forall2 (fun a b => g b = f a) l l' -> map g l' = map f l.
Proof.
  induction 1 as [|a b l l' E _ IH]; simpl; [reflexivity|].
  rewrite E, IH. reflexivity.
Qed.

Lemma sections_entries (text_pages : list str) (toc : list entry)
  (secs : list section) :
  parse_document_sections text_pages toc = Ok secs ->
  map sec_entry secs = sorted_by_page toc.
Proof.
  intros H. apply parse_document_sections_inv in H.
  rewrite <- (map_snd_enumerate (sorted_by_page toc)).
  apply forall2_map_eq. eapply Forall2_impl; [|exact H].
  intros it s [E _]. exact E.
Qed.

(** X11: when the sections are extracted, there is one per entry, their
    entries are the given entries sorted by ascending page with entries of
    one page kept in their given order, and the content of each is
    extracted against the entry of the section that follows it in that
    order (against none for the last). *)
Theorem sections_follow_sorted_entries (text_pages : list str)
  (toc : list entry) (secs : list section) :
  parse_document_sections text_pages toc = Ok secs ->
  Permutation toc (map sec_entry secs) /\
  StronglySorted (fun a b => (page a <= page b)%Z) (map sec_entry secs) /\
  (forall p, filter (fun x => (page x =? p)%Z) (map sec_entry secs)
             = filter (fun x => (page x =? p)%Z) toc) /\
  (forall i s,
     nth_error secs i = Some s ->
     _extract_section_content text_pages (sec_entry s)
       (option_map sec_entry (nth_error secs (i + 1))) = Ok (content s)).
Proof.
  intros H. pose proof (sections_entries _ _ _ H) as E.
  rewrite E. split; [apply sorted_by_page_perm|].
  split; [apply sorted_by_page_sorted|].
  split; [intros p; apply sorted_by_page_stable|].
  intros i s Hi. apply parse_document_sections_inv in H.
  rewrite <- nth_error_map, E.
  assert (Hlen : i < length secs) by (apply nth_error_Some; congruence).
  pose proof (Forall2_length H) as Hl.
  destruct (nth_error (enumerate (sorted_by_page toc)) i) as [it|] eqn:Eit;
    [|apply nth_error_None in Eit; lia].
  assert (Hit : fst it = i).
  { rewrite nth_error_enumerate in Eit.
    destruct (nth_error (sorted_by_page toc) i); [|discriminate].
    injection Eit as <-. reflexivity. }
  assert (R : sec_entry s = snd it /\
              _extract_section_content text_pages (snd it)
                (nth_error (sorted_by_page toc) (fst it + 1)) = Ok (content s)).
  { clear - H Eit Hi. revert i Eit Hi.
    induction H as [|a b l l' R _ IH]; intros [|i] Ea Eb; simpl in *;
      try discriminate.
    - injection Ea as <-. injection Eb as <-. exact R.
    - eapply IH; eassumption. }
  destruct R as [Es Ec]. rewrite Es, <- Hit. exact Ec.
Qed.

Lemma sections_follow_sorted_entries_witness :
  Permutation toc3 (map sec_entry secs3) /\
  StronglySorted (fun a b => (page a <= page b)%Z) (map sec_entry secs3) /\
  (forall p, filter (fun x => (page x =? p)%Z) (map sec_entry secs3)
             = filter (fun x => (page x =? p)%Z) toc3) /\
  (forall i s,
     nth_error secs3 i = Some s ->
     _extract_section_content pages3 (sec_entry s)
       (option_map sec_entry (nth_error secs3 (i + 1))) = Ok (content s)).
Proof.
  apply (sections_follow_sorted_entries pages3 toc3 secs3).
  vm_compute. reflexivity.
Defined.

(** X12: without any page the extraction of the sections returns the empty
    list for an empty entry list and raises IndexError for any other. *)
Theorem sections_of_no_pages (toc : list entry) :
  parse_document_sections [] toc
  = match toc with
    | [] => Ok []
    | _ :: _ => Raise IndexError
    end.
Proof.
  destruct toc as [|e0 toc']; [reflexivity|].
  unfold parse_document_sections. cbv zeta.
  pose proof (length_sorted_by_page (e0 :: toc')) as Hl.
  destruct (sorted_by_page (e0 :: toc')) as [|x rest] eqn:Es;
    [discriminate|].
  unfold enumerate. cbn [length seq combine fold_left bind fst snd].
  destruct (_extract_section_content [] x _) as [c|y] eqn:E.
  - exfalso.
    destruct (proj1 (extraction_raises_exactly _ _ _) (ex_intro _ c E)) as [Hne _].
    congruence.
  - rewrite (extraction_only_index_error _ _ _ _ E). cbn [bind].
    apply sections_fold_raise.
Qed.

(** ** What the report counts *)

Lemma existsb_filter_nil {A : Type} (p : A -> bool) (l : list A) :
  existsb p l = false <-> filter p l = [].
Proof.
  induction l as [|x l IH]; simpl; [tauto|].
  destruct (p x); simpl; [split; discriminate | exact IH].
Qed.

Lemma length_filter_flat_map {A B : Type} (p : B -> bool) (f : A -> list B)
  (g : A -> nat) (l : list A) :
  (forall x, In x l -> length (filter p (f x)) = g x) ->
  length (filter p (flat_map f l)) = list_sum (map g l).
Proof.
  induction l as [|x l IH]; intros H; simpl; [reflexivity|].
  rewrite filter_app, length_app, (H x) by (left; reflexivity).
  rewrite IH by (intros y Hy; apply H; right; exact Hy). reflexivity.
Qed.

Lemma length_filter_indicator {A : Type} (p : A -> bool) (l : list A) :
  length (filter p l) = list_sum (map (fun x => if p x then 1 else 0) l).
Proof.
  induction l as [|x l IH]; simpl; [reflexivity|].
  destruct (p x); simpl; rewrite IH; reflexivity.
Qed.

Lemma length_filter_map {A B : Type} (p : B -> bool) (f : A -> B) (l : list A) :
  length (filter p (map f l)) = length (filter (fun x => p (f x)) l).
Proof.
  induction l as [|x l IH]; simpl; [reflexivity|].
  destruct (p (f x)); simpl; rewrite IH; reflexivity.
Qed.

Lemma length_filter_prod {A B : Type} (p : A -> B -> bool)
  (l : list A) (l' : list B) :
  length (filter (fun pr => p (fst pr) (snd pr)) (list_prod l l'))
  = list_sum (map (fun x => length (filter (p x) l')) l).
Proof.
  induction l as [|x l IH]; simpl; [reflexivity|].
  rewrite filter_app, length_app, IH, length_filter_map. reflexivity.
Qed.

Section MergeCounts.

Variables T P : list frame_row.

(** The rows one left row contributes to the merge. *)
Let rows_of (l : frame_row) : list merged_row :=
  match filter (same_key l) P with
  | [] => [left_only l]
  | ms => map (both l) ms
  end.

Lemma merge_outer_rows :
  merge_outer T P
  = flat_map rows_of T
    ++ map right_only
         (filter (fun r => negb (existsb (fun l => same_key l r) T)) P).
Proof. reflexivity. Qed.

Lemma rows_of_toc_only (l : frame_row) :
  length (filter (fun r => isna (title_parsed r)) (rows_of l))
  = if negb (existsb (same_key l) P) then 1 else 0.
Proof.
  unfold rows_of. destruct (existsb (same_key l) P) eqn:E.
  - destruct (filter (same_key l) P) as [|m ms] eqn:F.
    + apply existsb_filter_nil in F. congruence.
    + rewrite (filter_const_in _ false); [reflexivity|].
      intros r Hr. apply in_map_iff in Hr as (x & <- & _). reflexivity.
  - apply existsb_filter_nil in E. rewrite E. reflexivity.
Qed.

Lemma rows_of_parsed_only (l : frame_row) :
  filter (fun r => isna (title_toc r)) (rows_of l) = [].
Proof.
  unfold rows_of. destruct (filter (same_key l) P) as [|m ms]; [reflexivity|].
  apply (filter_const_in _ false).
  intros r Hr. apply in_map_iff in Hr as (x & <- & _). reflexivity.
Qed.

Lemma rows_of_matched (l : frame_row) :
  length (dropna (rows_of l)) = length (filter (same_key l) P).
Proof.
  unfold rows_of, dropna. destruct (filter (same_key l) P) as [|m ms]; [reflexivity|].
  rewrite (filter_const_in _ true).
  - apply length_map.
  - intros r Hr. apply in_map_iff in Hr as (x & <- & _). reflexivity.
Qed.

Lemma merge_toc_only :
  length (filter (fun r => isna (title_parsed r)) (merge_outer T P))
  = length (filter (fun l => negb (existsb (same_key l) P)) T).
Proof.
  rewrite merge_outer_rows, filter_app, length_app.
  rewrite (length_filter_flat_map _ _
             (fun l => if negb (existsb (same_key l) P) then 1 else 0))
    by (intros l _; apply rows_of_toc_only).
  rewrite (filter_const_in _ false)
    by (intros r Hr; apply in_map_iff in Hr as (x & <- & _); reflexivity).
  rewrite length_filter_indicator. simpl. lia.
Qed.

Lemma merge_parsed_only :
  length (filter (fun r => isna (title_toc r)) (merge_outer T P))
  = length (filter (fun r => negb (existsb (fun l => same_key l r) T)) P).
Proof.
  rewrite merge_outer_rows, filter_app, length_app.
  rewrite (length_filter_flat_map _ _ (fun _ => 0))
    by (intros l _; rewrite rows_of_parsed_only; reflexivity).
  rewrite (filter_const_in _ true)
    by (intros r Hr; apply in_map_iff in Hr as (x & <- & _); reflexivity).
  rewrite length_map.
  assert (Z0 : list_sum (map (fun _ : frame_row => 0) T) = 0)
    by (induction T; simpl; auto).
  rewrite Z0. reflexivity.
Qed.

Lemma merge_matched :
  length (dropna (merge_outer T P))
  = length (filter (fun pr => same_key (fst pr) (snd pr)) (list_prod T P)).
Proof.
  rewrite merge_outer_rows. unfold dropna at 1.
  rewrite filter_app, length_app.
  rewrite (length_filter_flat_map _ _ (fun l => length (filter (same_key l) P)))
    by (intros l _; apply rows_of_matched).
  rewrite (filter_const_in _ false)
    by (intros r Hr; apply in_map_iff in Hr as (x & <- & _); reflexivity).
  rewrite (length_filter_prod same_key). simpl. lia.
Qed.

(** Every row of the merge is of exactly one of the three kinds. *)
Lemma merge_partition :
  length (merge_outer T P)
  = length (dropna (merge_outer T P))
    + length (filter (fun r => isna (title_parsed r)) (merge_outer T P))
    + length (filter (fun r => isna (title_toc r)) (merge_outer T P)).
Proof.
  assert (G : forall ms : list merged_row,
            (forall m, In m ms ->
               (exists l r, m = both l r) \/ (exists l, m = left_only l)
               \/ (exists r, m = right_only r)) ->
            length ms
            = length (dropna ms)
              + length (filter (fun r => isna (title_parsed r)) ms)
              + length (filter (fun r => isna (title_toc r)) ms)).
  { induction ms as [|m ms IH]; intros H; [reflexivity|].
    specialize (IH (fun x Hx => H x (or_intror Hx))).
    destruct (H m (or_introl eq_refl)) as [(l & r & ->)|[(l & ->)|(r & ->)]];
      simpl in *; lia. }
  apply G. intros m Hm. rewrite merge_outer_rows in Hm.
  apply in_app_iff in Hm as [Hm|Hm].
  - apply in_flat_map in Hm as (l & _ & Hm). unfold rows_of in Hm.
    destruct (filter (same_key l) P) as [|x xs].
    + destruct Hm as [<-|[]]. right. left. eauto.
    + apply in_map_iff in Hm as (r & <- & _). left. eauto.
  - apply in_map_iff in Hm as (r & <- & _). right. right. eauto.
Qed.

End MergeCounts.

Lemma existsb_map {A B : Type} (p : B -> bool) (f : A -> B) (l : list A) :
  existsb p (map f l) = existsb (fun x => p (f x)) l.
Proof.
  induction l as [|x l IH]; simpl; [reflexivity | rewrite IH; reflexivity].
Qed.

Lemma tally_toc_only (toc : list entry) (parsed : list section) :
  length (filter (fun l => negb (existsb (same_key l)
                                   (map (fun s => of_entry (sec_entry s)) parsed)))
                 (map of_entry toc))
  = length (unmatched_entries toc parsed).
Proof.
  rewrite length_filter_map. unfold unmatched_entries. f_equal.
  apply filter_ext. intros e. rewrite existsb_map. reflexivity.
Qed.

Lemma tally_parsed_only (toc : list entry) (parsed : list section) :
  length (filter (fun r => negb (existsb (fun l => same_key l r)
                                   (map of_entry toc)))
                 (map (fun s => of_entry (sec_entry s)) parsed))
  = length (unmatched_sections toc parsed).
Proof.
  rewrite length_filter_map. unfold unmatched_sections. f_equal.
  apply filter_ext. intros s. rewrite existsb_map. reflexivity.
Qed.

Lemma tally_matched (toc : list entry) (parsed : list section) :
  length (filter (fun pr => same_key (fst pr) (snd pr))
                 (list_prod (map of_entry toc)
                            (map (fun s => of_entry (sec_entry s)) parsed)))
  = length (matching_pairs toc parsed).
Proof.
  unfold matching_pairs.
  rewrite (length_filter_prod same_key), (length_filter_prod same_id), map_map.
  f_equal. apply map_ext. intros e. rewrite length_filter_map. reflexivity.
Qed.

Lemma toc_only_row_cells (r : merged_row) :
  toc_only_row (cells_of_row r) = isna (title_parsed r).
Proof. destruct r as [k tt pt [tp|] pp]; reflexivity. Qed.

Lemma parsed_only_row_cells (r : merged_row) :
  parsed_only_row (cells_of_row r) = isna (title_toc r).
Proof. destruct r as [k [tt|] pt tp pp]; reflexivity. Qed.

Lemma matched_row_cells (r : merged_row) :
  matched_row (cells_of_row r)
  = negb (isna (title_toc r) || isna (page_toc r)
          || isna (title_parsed r) || isna (page_parsed r)).
Proof. destruct r as [k [tt|] [pt|] [tp|] [pp|]]; reflexivity. Qed.

(** The report on two non-empty lists, with its counts named. *)
Lemma report_of_lists (toc : list entry) (parsed : list section) :
  toc <> [] -> parsed <> [] ->
  exists extra_rows,
    generate_validation_report toc parsed
    = Ok (Workbook
            (Sheet [L "Metric"; L "Value"]
               ([ [CStr (L "Total Sections in TOC"); count toc];
                  [CStr (L "Total Sections Parsed"); count parsed];
                  [CStr (L "Sections Matched"); count (matching_pairs toc parsed)];
                  [CStr (L "Sections in TOC only");
                   count (unmatched_entries toc parsed)];
                  [CStr (L "Sections in Parsed only");
                   count (unmatched_sections toc parsed)] ] ++ extra_rows))
            (Sheet [L "section_id"; L "title_toc"; L "page_toc";
                    L "title_parsed"; L "page_parsed"]
               (map cells_of_row
                    (merge_outer (map of_entry toc)
                       (map (fun s => of_entry (sec_entry s)) parsed))))).
Proof.
  intros Ht Hp.
  destruct toc as [|e0 toc']; [congruence|].
  destruct parsed as [|s0 parsed']; [congruence|].
  unfold generate_validation_report. cbn [bind].
  set (T := map of_entry (e0 :: toc')).
  set (P := map (fun s => of_entry (sec_entry s)) (s0 :: parsed')).
  assert (E1 : count (dropna (merge_outer T P))
               = count (matching_pairs (e0 :: toc') (s0 :: parsed'))).
  { unfold count. rewrite merge_matched. unfold T, P. rewrite tally_matched.
    reflexivity. }
  assert (E2 : count (filter (fun r => isna (title_parsed r)) (merge_outer T P))
               = count (unmatched_entries (e0 :: toc') (s0 :: parsed'))).
  { unfold count. rewrite merge_toc_only. unfold T, P. rewrite tally_toc_only.
    reflexivity. }
  assert (E3 : count (filter (fun r => isna (title_toc r)) (merge_outer T P))
               = count (unmatched_sections (e0 :: toc') (s0 :: parsed'))).
  { unfold count. rewrite merge_parsed_only. unfold T, P.
    rewrite tally_parsed_only. reflexivity. }
  rewrite E1, E2, E3.
  destruct (filter (fun r => isna (title_parsed r)) (merge_outer T P));
    destruct (filter (fun r => isna (title_toc r)) (merge_outer T P));
    eexists; cbn [app]; rewrite <- ?app_assoc; cbn [app];
    try (rewrite app_nil_r); reflexivity.
Qed.

(** X13: for a non-empty entry list and a non-empty section list the
    report is written without error.  Its summary begins with the two list
    lengths, the number of pairs of an entry and a section with the same
    section_id (Matched), the number of entries whose section_id no section
    carries (TOC only) and the number of sections whose section_id no entry
    carries (Parsed only).  The detailed table holds exactly that many rows
    of each kind, and no other row. *)
Theorem report_counts (toc : list entry) (parsed : list section) :
  toc <> [] -> parsed <> [] ->
  exists wb,
    generate_validation_report toc parsed = Ok wb /\
    firstn 5 (rows (summary wb))
    = [ [CStr (L "Total Sections in TOC"); CInt (Z.of_nat (length toc))];
        [CStr (L "Total Sections Parsed"); CInt (Z.of_nat (length parsed))];
        [CStr (L "Sections Matched");
         CInt (Z.of_nat (length (matching_pairs toc parsed)))];
        [CStr (L "Sections in TOC only");
         CInt (Z.of_nat (length (unmatched_entries toc parsed)))];
        [CStr (L "Sections in Parsed only");
         CInt (Z.of_nat (length (unmatched_sections toc parsed)))] ] /\
    count_rows matched_row (detailed wb) = length (matching_pairs toc parsed) /\
    count_rows toc_only_row (detailed wb)
    = length (unmatched_entries toc parsed) /\
    count_rows parsed_only_row (detailed wb)
    = length (unmatched_sections toc parsed) /\
    length (rows (detailed wb))
    = length (matching_pairs toc parsed)
      + length (unmatched_entries toc parsed)
      + length (unmatched_sections toc parsed).
Proof.
  intros Ht Hp. destruct (report_of_lists toc parsed Ht Hp) as (extra & E).
  eexists. split; [exact E|]. cbn [summary detailed rows].
  set (T := map of_entry toc).
  set (P := map (fun s => of_entry (sec_entry s)) parsed).
  assert (M : length (dropna (merge_outer T P))
              = length (matching_pairs toc parsed))
    by (rewrite merge_matched; apply tally_matched).
  assert (A : length (filter (fun r => isna (title_parsed r)) (merge_outer T P))
              = length (unmatched_entries toc parsed))
    by (rewrite merge_toc_only; apply tally_toc_only).
  assert (B : length (filter (fun r => isna (title_toc r)) (merge_outer T P))
              = length (unmatched_sections toc parsed))
    by (rewrite merge_parsed_only; apply tally_parsed_only).
  split; [reflexivity|]. unfold count_rows. cbn [rows].
  rewrite !length_filter_map, length_map.
  rewrite (filter_ext _ _ toc_only_row_cells),
          (filter_ext _ _ parsed_only_row_cells),
          (filter_ext _ _ matched_row_cells).
  fold (dropna (merge_outer T P)).
  rewrite (merge_partition T P), M, A, B. auto.
Qed.

Lemma report_counts_witness :
  exists wb,
    generate_validation_report toc_dup secs_dup = Ok wb /\
    firstn 5 (rows (summary wb))
    = [ [CStr (L "Total Sections in TOC"); CInt 2];
        [CStr (L "Total Sections Parsed"); CInt 2];
        [CStr (L "Sections Matched"); CInt 4];
        [CStr (L "Sections in TOC only"); CInt 0];
        [CStr (L "Sections in Parsed only"); CInt 0] ] /\
    count_rows matched_row (detailed wb) = 4 /\
    count_rows toc_only_row (detailed wb) = 0 /\
    count_rows parsed_only_row (detailed wb) = 0 /\
    length (rows (detailed wb)) = 4 + 0 + 0.
Proof.
  apply (report_counts toc_dup secs_dup); discriminate.
Defined.


(** ** The record files *)

Lemma escape_char_printable (c : ascii) :
  forallb printable (escape_char c) = true.
Proof.
  assert (All : forallb (fun n => forallb printable (escape_char (ascii_of_nat n)))
                        (seq 0 256) = true) by (vm_compute; reflexivity).
  rewrite forallb_forall in All. specialize (All (nat_of_ascii c)).
  rewrite ascii_nat_embedding in All. apply All, in_seq.
  pose proof (nat_ascii_bounded c). lia.
Qed.

Lemma flat_map_printable {A : Type} (f : A -> str) (l : list A) :
  (forall x, forallb printable (f x) = true) ->
  forallb printable (flat_map f l) = true.
Proof.
  intros H. induction l as [|x l IH]; simpl; [reflexivity|].
  rewrite forallb_app, H, IH. reflexivity.
Qed.

Lemma dumps_str_printable (s : str) : forallb printable (dumps_str s) = true.
Proof.
  unfold dumps_str. rewrite !forallb_app.
  rewrite (flat_map_printable escape_char s escape_char_printable). reflexivity.
Qed.

Lemma uint_printable (d : Decimal.uint) :
  forallb printable (L (NilEmpty.string_of_uint d)) = true.
Proof. induction d; simpl; auto. Qed.

Lemma dumps_int_printable (z : Z) : forallb printable (dumps_int z) = true.
Proof.
  assert (U : forall d, forallb printable (L (NilZero.string_of_uint d)) = true).
  { intros d. unfold NilZero.string_of_uint.
    destruct d; try reflexivity; apply uint_printable. }
  unfold dumps_int, NilZero.string_of_int.
  destruct (Z.to_int z) as [d|d]; [apply U|].
  change (forallb printable ("-"%char :: L (NilZero.string_of_uint d)) = true).
  simpl. apply U.
Qed.

Lemma join_printable (sep : str) (parts : list str) :
  forallb printable sep = true ->
  (forall p, In p parts -> forallb printable p = true) ->
  forallb printable (join sep parts) = true.
Proof.
  intros Hs. induction parts as [|p [|p' ps] IH]; intros H; [reflexivity| |].
  - simpl. apply H. left. reflexivity.
  - change (join sep (p :: p' :: ps)) with (p ++ sep ++ join sep (p' :: ps)).
    rewrite !forallb_app, Hs, (H p) by (left; reflexivity).
    rewrite IH by (intros q Hq; apply H; right; exact Hq). reflexivity.
Qed.

Lemma dumps_opt_printable (v : option str) :
  forallb printable (dumps_opt v) = true.
Proof. destruct v; [apply dumps_str_printable | reflexivity]. Qed.

Lemma dumps_list_printable (l : list str) :
  forallb printable (dumps_list l) = true.
Proof.
  unfold dumps_list. rewrite !forallb_app, join_printable; [reflexivity..|].
  intros p Hp. apply in_map_iff in Hp as (x & <- & _). apply dumps_str_printable.
Qed.

Lemma dumps_dict_printable (items : list (str * str)) :
  (forall kv, In kv items -> forallb printable (snd kv) = true) ->
  forallb printable (dumps_dict items) = true.
Proof.
  intros H. unfold dumps_dict.
  rewrite !forallb_app, join_printable; [reflexivity..|].
  intros p Hp. apply in_map_iff in Hp as (kv & <- & Hkv).
  rewrite !forallb_app. apply andb_true_iff. split.
  - apply dumps_str_printable.
  - apply andb_true_iff. split; [reflexivity | exact (H kv Hkv)].
Qed.

Lemma entry_items_printable (e : entry) (kv : str * str) :
  In kv (entry_items e) -> forallb printable (snd kv) = true.
Proof.
  unfold entry_items. intros H.
  repeat (destruct H as [<-|H];
          [first [apply dumps_str_printable | apply dumps_int_printable
                 | apply dumps_opt_printable | apply dumps_list_printable]|]).
  destruct H.
Qed.

Lemma dumps_entry_printable (e : entry) :
  forallb printable (dumps_entry e) = true.
Proof. apply dumps_dict_printable, entry_items_printable. Qed.

Lemma dumps_section_printable (s : section) :
  forallb printable (dumps_section s) = true.
Proof.
  apply dumps_dict_printable. intros kv H. apply in_app_iff in H as [H|H].
  - eapply entry_items_printable. exact H.
  - destruct H as [<-|[]]. apply dumps_str_printable.
Qed.

(** X15: every record is written in printable ASCII, whatever characters
    its texts hold: no line break, no control character and no character
    above the tilde reaches the file inside a record. *)
Theorem records_are_printable :
  (forall e, forallb printable (dumps_entry e) = true) /\
  (forall s, forallb printable (dumps_section s) = true).
Proof. split; [exact dumps_entry_printable | exact dumps_section_printable]. Qed.

Lemma printable_not_nl (c : ascii) :
  printable c = true -> eqc c nl = false.
Proof.
  intros H. destruct (eqc c nl) eqn:E; [|reflexivity].
  apply eqc_eq in E. subst. discriminate.
Qed.

Lemma split_at_sep (sep : ascii) (u rest : str) :
  (forall c, In c u -> eqc c sep = false) ->
  split sep (u ++ sep :: rest) = u :: split sep rest.
Proof.
  induction u as [|c u IH]; intros H; simpl.
  - rewrite eqc_refl. reflexivity.
  - rewrite (H c) by (left; reflexivity).
    rewrite IH by (intros x Hx; apply H; right; exact Hx). reflexivity.
Qed.

Lemma jsonl_lines {A : Type} (dumps : A -> str) (data : list A) :
  (forall x, forallb printable (dumps x) = true) ->
  split nl (save_jsonl dumps data) = map dumps data ++ [[]].
Proof.
  intros H. unfold save_jsonl.
  induction data as [|x data IH]; [reflexivity|].
  cbn [flat_map map app]. rewrite <- app_assoc. cbn [app].
  rewrite split_at_sep, IH; [reflexivity|].
  intros c Hc. apply printable_not_nl.
  specialize (H x). rewrite forallb_forall in H. apply H. exact Hc.
Qed.

(** X16: each record file holds its records one per line and in order:
    cutting the file at the line breaks gives back the encoded entries (or
    sections), followed by one empty text for the line break that ends the
    file. *)
Theorem record_files_hold_one_record_per_line :
  (forall data : list entry,
     split nl (save_jsonl dumps_entry data) = map dumps_entry data ++ [[]]) /\
  (forall data : list section,
     split nl (save_jsonl dumps_section data)
     = map dumps_section data ++ [[]]).
Proof.
  split; intros data; apply jsonl_lines;
    [exact dumps_entry_printable | exact dumps_section_printable].
Qed.

(** ** The run as a whole *)

Lemma extract_outcome (w : world) (path : str) :
  (path_exists w path = false /\
   extract_text_from_pdf w path
   = inl (FileNotFoundError (L "PDF file not found at: " ++ path))) \/
  (path_exists w path = true /\
   exists msg, read_pages w path = inl msg /\
     extract_text_from_pdf w path
     = inl (IOError (L "Error opening or reading PDF file: " ++ msg))) \/
  (path_exists w path = true /\
   exists text_pages, read_pages w path = inr text_pages /\
     extract_text_from_pdf w path = inr text_pages).
Proof.
  unfold extract_text_from_pdf.
  destruct (path_exists w path); cbn [negb]; [right | left; auto].
  destruct (read_pages w path) as [msg|text_pages]; [left | right]; eauto.
Qed.

Lemma scan_outcome (text_pages : list str) :
  (find_toc_content text_pages
   = Raise (RuntimeError
              "Could not find Table of Contents content in the document.") /\
   forall i text raw, nth_error text_pages i = Some text ->
                      In raw (split nl text) -> accepts raw = false)
  \/
  (exists toc_lines,
     find_toc_content text_pages = Ok toc_lines /\
     exists i text raw, nth_error text_pages i = Some text /\
                        In raw (split nl text) /\ accepts raw = true).
Proof.
  pose proof (in_scan text_pages) as S.
  unfold find_toc_content.
  destruct (flat_map _ _) as [|[j l0] rest] eqn:E.
  - left. split; [reflexivity|]. intros i text raw Hn Hin.
    destruct (accepts raw) eqn:Acc; [|reflexivity].
    exfalso. apply (proj2 (S i (strip raw))). exists text, raw. auto.
  - right. eexists. split; [reflexivity|].
    destruct (proj1 (S j l0)) as (text & raw & Hn & Hin & Acc & _);
      [left; reflexivity|].
    exists j, text, raw. auto.
Qed.

Lemma assembled_nonempty (text_pages : list str)
  (toc_lines : list (nat * str)) (doc : str) :
  find_toc_content text_pages = Ok toc_lines ->
  parse_toc_entries toc_lines doc <> [].
Proof.
  intros H. destruct (scan_lines_facts _ _ H) as (Hall & _).
  assert (Len : length (parse_toc_entries toc_lines doc) = length toc_lines).
  { rewrite <- (length_map page), assembled_pages.
    - apply length_map.
    - intros i l Hin. apply (Hall i l Hin). }
  unfold find_toc_content in H.
  destruct (flat_map _ _) as [|x rest]; [discriminate|].
  injection H as <-. intros E. rewrite E in Len. discriminate.
Qed.

Lemma list_sum_at_least {A : Type} (g : A -> nat) (l : list A) :
  (forall x, In x l -> 1 <= g x) -> length l <= list_sum (map g l).
Proof.
  induction l as [|x l IH]; intros H; simpl; [lia|].
  pose proof (H x (or_introl eq_refl)).
  assert (length l <= list_sum (map g l))
    by (apply IH; intros y Hy; apply H; right; exact Hy).
  lia.
Qed.

(** Sections that carry the entries themselves leave no entry and no
    section without a partner. *)
Lemma no_gap_between_copies (toc : list entry) (secs : list section) :
  map sec_entry secs = toc ->
  unmatched_entries toc secs = [] /\
  unmatched_sections toc secs = [] /\
  length toc <= length (matching_pairs toc secs).
Proof.
  intros <-. split; [|split].
  - apply filter_nil_iff. intros e He. apply in_map_iff in He as (s & <- & Hs).
    apply negb_false_iff, existsb_exists. exists s.
    split; [exact Hs | apply str_eqb_eq; reflexivity].
  - apply filter_nil_iff. intros s Hs.
    apply negb_false_iff, existsb_exists. exists (sec_entry s).
    split; [apply in_map; exact Hs | apply str_eqb_eq; reflexivity].
  - unfold matching_pairs. rewrite (length_filter_prod same_id).
    apply list_sum_at_least. intros e He.
    apply in_map_iff in He as (s & <- & Hs).
    assert (Hin : In s (filter (same_id (sec_entry s)) secs)).
    { apply filter_In. split; [exact Hs | apply str_eqb_eq; reflexivity]. }
    destruct (filter _ secs); [destruct Hin | simpl; lia].
Qed.

(** The report on lists in which nothing is left without a partner: the
    summary has its five rows and no list of mismatches. *)
Lemma report_without_gap (toc : list entry) (parsed : list section) :
  toc <> [] -> parsed <> [] ->
  unmatched_entries toc parsed = [] ->
  unmatched_sections toc parsed = [] ->
  exists wb,
    generate_validation_report toc parsed = Ok wb /\
    rows (summary wb)
    = [ [CStr (L "Total Sections in TOC"); CInt (Z.of_nat (length toc))];
        [CStr (L "Total Sections Parsed"); CInt (Z.of_nat (length parsed))];
        [CStr (L "Sections Matched");
         CInt (Z.of_nat (length (matching_pairs toc parsed)))];
        [CStr (L "Sections in TOC only"); CInt 0];
        [CStr (L "Sections in Parsed only"); CInt 0] ].
Proof.
  intros Ht Hp U1 U2.
  assert (A : filter (fun r => isna (title_parsed r))
                (merge_outer (map of_entry toc)
                   (map (fun s => of_entry (sec_entry s)) parsed)) = []).
  { apply length_zero_iff_nil.
    rewrite merge_toc_only, tally_toc_only, U1. reflexivity. }
  assert (B : filter (fun r => isna (title_toc r))
                (merge_outer (map of_entry toc)
                   (map (fun s => of_entry (sec_entry s)) parsed)) = []).
  { apply length_zero_iff_nil.
    rewrite merge_parsed_only, tally_parsed_only, U2. reflexivity. }
  assert (M : length (dropna (merge_outer (map of_entry toc)
                        (map (fun s => of_entry (sec_entry s)) parsed)))
              = length (matching_pairs toc parsed))
    by (rewrite merge_matched; apply tally_matched).
  destruct toc as [|e0 toc']; [congruence|].
  destruct parsed as [|s0 parsed']; [congruence|].
  unfold generate_validation_report. cbn [bind].
  rewrite A, B. eexists. split; [reflexivity|].
  cbn [summary rows]. unfold count. rewrite M. reflexivity.
Qed.

(** What [main] does once the pages are read and the scan has succeeded. *)
Lemma run_after_scan (w : world) (text_pages : list str)
  (toc_lines : list (nat * str)) :
  extract_text_from_pdf w PDF_PATH = inr text_pages ->
  find_toc_content text_pages = Ok toc_lines ->
  exists secs wb,
    parse_toc_entries toc_lines doc0 <> [] /\
    map sec_entry secs = parse_toc_entries toc_lines doc0 /\
    rows (summary wb)
    = [ [CStr (L "Total Sections in TOC");
         CInt (Z.of_nat (length (parse_toc_entries toc_lines doc0)))];
        [CStr (L "Total Sections Parsed");
         CInt (Z.of_nat (length (parse_toc_entries toc_lines doc0)))];
        [CStr (L "Sections Matched");
         CInt (Z.of_nat (length (matching_pairs
                                   (parse_toc_entries toc_lines doc0) secs)))];
        [CStr (L "Sections in TOC only"); CInt 0];
        [CStr (L "Sections in Parsed only"); CInt 0] ] /\
    length (parse_toc_entries toc_lines doc0)
    <= length (matching_pairs (parse_toc_entries toc_lines doc0) secs) /\
    main w
    = ([ Makedirs OUTPUT_DIR;
         WriteText OUTPUT_DIR (L "usb_pd_toc_fixed.jsonl")
           (save_jsonl dumps_entry (parse_toc_entries toc_lines doc0));
         WriteText OUTPUT_DIR (L "usb_pd_spec_fixed.jsonl")
           (save_jsonl dumps_section secs);
         WriteWorkbook OUTPUT_DIR (L "validation_report_fixed.xlsx") wb ],
       None).
Proof.
  intros Hx Hf.
  pose proof (assembled_nonempty _ _ doc0 Hf) as Hne.
  destruct (assembled_sections_total _ _ doc0 Hf) as (secs & Es).
  assert (Hsorted : sorted_by_page (parse_toc_entries toc_lines doc0)
                    = parse_toc_entries toc_lines doc0).
  { destruct (scan_lines_facts _ _ Hf) as (Hall & Hs).
    apply sorted_by_page_id.
    apply (sorted_map Z.le page). rewrite assembled_pages.
    - apply sorted_lines_pages. exact Hs.
    - intros i l Hin. apply (Hall i l Hin). }
  pose proof (sections_entries _ _ _ Es) as Hm. rewrite Hsorted in Hm.
  destruct (no_gap_between_copies _ _ Hm) as (U1 & U2 & Hle).
  assert (Hsecs : secs <> []).
  { intros ->. apply Hne. rewrite <- Hm. reflexivity. }
  destruct (report_without_gap _ _ Hne Hsecs U1 U2) as (wb & Er & Rows).
  assert (Hlen : length secs = length (parse_toc_entries toc_lines doc0))
    by (rewrite <- Hm; symmetry; apply length_map).
  rewrite Hlen in Rows.
  exists secs, wb. repeat split; try assumption.
  unfold main. rewrite Hx, Hf. cbv zeta. rewrite Es, Er. reflexivity.
Qed.

(** X17: a run writes either all three files or none.  It ends with an
    exception, having only created the output directory, exactly when the
    document is missing (FileNotFoundError), cannot be opened or read
    (IOError), or has no line that the Entry Recognizer accepts
    (RuntimeError).  On every other document the extraction of the sections
    and the report raise nothing: the two record files and the workbook are
    written, in this order, and the run ends without an exception. *)
Theorem run_writes_all_files_or_none (w : world) :
  (exists f,
     main w = ([Makedirs OUTPUT_DIR], Some f) /\
     ((path_exists w PDF_PATH = false /\
       f = FileNotFoundError (L "PDF file not found at: " ++ PDF_PATH)) \/
      (path_exists w PDF_PATH = true /\
       exists msg, read_pages w PDF_PATH = inl msg /\
         f = IOError (L "Error opening or reading PDF file: " ++ msg)) \/
      (path_exists w PDF_PATH = true /\
       exists text_pages, read_pages w PDF_PATH = inr text_pages /\
         (forall i text raw, nth_error text_pages i = Some text ->
                             In raw (split nl text) -> accepts raw = false) /\
         f = Raised (RuntimeError
               "Could not find Table of Contents content in the document."))))
  \/
  (exists text_pages toc secs wb,
     path_exists w PDF_PATH = true /\
     read_pages w PDF_PATH = inr text_pages /\
     (exists i text raw, nth_error text_pages i = Some text /\
                         In raw (split nl text) /\ accepts raw = true) /\
     main w
     = ([ Makedirs OUTPUT_DIR;
          WriteText OUTPUT_DIR (L "usb_pd_toc_fixed.jsonl")
            (save_jsonl dumps_entry toc);
          WriteText OUTPUT_DIR (L "usb_pd_spec_fixed.jsonl")
            (save_jsonl dumps_section secs);
          WriteWorkbook OUTPUT_DIR (L "validation_report_fixed.xlsx") wb ],
        None)).
Proof.
  destruct (extract_outcome w PDF_PATH)
    as [[Hp Hx]|[(Hp & msg & Hr & Hx)|(Hp & text_pages & Hr & Hx)]].
  - left. eexists. split; [unfold main; rewrite Hx; reflexivity|].
    left. auto.
  - left. eexists. split; [unfold main; rewrite Hx; reflexivity|].
    right. left. eauto.
  - destruct (scan_outcome text_pages) as [[Hf Hnone]|(toc_lines & Hf & Hsome)].
    + left. eexists. split; [unfold main; rewrite Hx, Hf; reflexivity|].
      right. right. split; [exact Hp|]. exists text_pages. auto.
    + right.
      destruct (run_after_scan w text_pages toc_lines Hx Hf)
        as (secs & wb & _ & _ & _ & _ & Hmain).
      exists text_pages, (parse_toc_entries toc_lines doc0), secs, wb. auto.
Qed.

(** X18: in a run that ends without an exception, the sections written
    carry the entries written, one section per entry and in the same order,
    so the report cannot show a gap: its summary consists of five rows, the
    two totals are the same number, at least that many pairs are matched,
    and both Sections in TOC only and Sections in Parsed only are 0. *)
Theorem complete_run_reports_no_gap (w : world) (effs : list effect) :
  main w = (effs, None) ->
  exists toc secs wb,
    effs = [ Makedirs OUTPUT_DIR;
             WriteText OUTPUT_DIR (L "usb_pd_toc_fixed.jsonl")
               (save_jsonl dumps_entry toc);
             WriteText OUTPUT_DIR (L "usb_pd_spec_fixed.jsonl")
               (save_jsonl dumps_section secs);
             WriteWorkbook OUTPUT_DIR (L "validation_report_fixed.xlsx") wb ] /\
    toc <> [] /\
    map sec_entry secs = toc /\
    rows (summary wb)
    = [ [CStr (L "Total Sections in TOC"); CInt (Z.of_nat (length toc))];
        [CStr (L "Total Sections Parsed"); CInt (Z.of_nat (length toc))];
        [CStr (L "Sections Matched");
         CInt (Z.of_nat (length (matching_pairs toc secs)))];
        [CStr (L "Sections in TOC only"); CInt 0];
        [CStr (L "Sections in Parsed only"); CInt 0] ] /\
    length toc <= length (matching_pairs toc secs).
Proof.
  intros H.
  destruct (extract_text_from_pdf w PDF_PATH) as [f|text_pages] eqn:Hx.
  { unfold main in H. rewrite Hx in H. discriminate. }
  destruct (find_toc_content text_pages) as [toc_lines|e] eqn:Hf.
  2: { unfold main in H. rewrite Hx, Hf in H. discriminate. }
  destruct (run_after_scan w text_pages toc_lines Hx Hf)
    as (secs & wb & Hne & Hm & Rows & Hle & Hmain).
  rewrite Hmain in H. injection H as <-.
  exists (parse_toc_entries toc_lines doc0), secs, wb. auto.
Qed.

Lemma complete_run_reports_no_gap_witness :
  exists toc secs wb,
    fst (main (world_of pages1))
    = [ Makedirs OUTPUT_DIR;
        WriteText OUTPUT_DIR (L "usb_pd_toc_fixed.jsonl")
          (save_jsonl dumps_entry toc);
        WriteText OUTPUT_DIR (L "usb_pd_spec_fixed.jsonl")
          (save_jsonl dumps_section secs);
        WriteWorkbook OUTPUT_DIR (L "validation_report_fixed.xlsx") wb ] /\
    toc <> [] /\
    map sec_entry secs = toc /\
    rows (summary wb)
    = [ [CStr (L "Total Sections in TOC"); CInt (Z.of_nat (length toc))];
        [CStr (L "Total Sections Parsed"); CInt (Z.of_nat (length toc))];
        [CStr (L "Sections Matched");
         CInt (Z.of_nat (length (matching_pairs toc secs)))];
        [CStr (L "Sections in TOC only"); CInt 0];
        [CStr (L "Sections in Parsed only"); CInt 0] ] /\
    length toc <= length (matching_pairs toc secs).
Proof.
  apply (complete_run_reports_no_gap (world_of pages1)).
  vm_compute. reflexivity.
Defined.

(** ** The heading of an entry on its own page *)

Lemma split_substring (sep : ascii) (s : str) :
  (exists w ws post, split sep s = w :: ws /\ s = w ++ post) /\
  (forall raw, In raw (split sep s) -> exists pre post, s = pre ++ raw ++ post).
Proof.
  induction s as [|c s ((w & ws & post & Ew & Es) & IH)]; cbn [split].
  - split.
    + exists [], [], []. auto.
    + intros raw [<-|[]]. exists [], []. reflexivity.
  - destruct (eqc c sep).
    + split.
      * exists [], (split sep s), (c :: s). auto.
      * intros raw [<-|Hin].
        -- exists [], (c :: s). reflexivity.
        -- destruct (IH raw Hin) as (pre & post' & E).
           exists (c :: pre), post'. rewrite E at 1. reflexivity.
    + rewrite Ew. split.
      * exists (c :: w), ws, post. rewrite Es at 1. auto.
      * intros raw [<-|Hin].
        -- exists [], post. rewrite Es at 1. reflexivity.
        -- destruct (IH raw) as (pre & post' & E).
           { rewrite Ew. right. exact Hin. }
           exists (c :: pre), post'. rewrite E at 1. reflexivity.
Qed.

Lemma ci_prefix_self (p rest : str) : ci_prefix p (p ++ rest) = true.
Proof.
  induction p as [|a p IH]; simpl; [reflexivity|].
  rewrite eqc_refl. exact IH.
Qed.

Lemma find_ci_occurrence (p pre s : str) :
  ci_prefix p s = true ->
  exists i, find_ci p (pre ++ s) = Some i /\ i <= length pre.
Proof.
  intros H. induction pre as [|c pre (i & E & Hi)].
  - exists 0. simpl. destruct s; simpl in *; rewrite H; auto.
  - cbn [app find_ci]. destruct (ci_prefix p (c :: pre ++ s)).
    + exists 0. split; [reflexivity | lia].
    + rewrite E. exists (S i). simpl. split; [reflexivity | lia].
Qed.

Lemma scan_line_origin (text_pages : list str) (toc_lines : list (nat * str))
  (i : nat) (l : str) :
  find_toc_content text_pages = Ok toc_lines ->
  In (i, l) toc_lines ->
  exists text raw, nth_error text_pages i = Some text /\
                   In raw (split nl text) /\ accepts raw = true /\ l = strip raw.
Proof.
  intros H Hin. unfold find_toc_content in H.
  destruct (flat_map _ _) as [|x rest] eqn:E; [discriminate|].
  injection H as <-. rewrite <- E in Hin. apply in_scan in Hin. exact Hin.
Qed.

Lemma entry_line_of (toc_lines : list (nat * str)) (doc : str) (e : entry) :
  In e (parse_toc_entries toc_lines doc) ->
  exists i l e0, In (i, l) toc_lines /\ parse_toc_entry l doc = Some e0 /\
                 e = set_page e0 (Z.of_nat i + 1).
Proof.
  unfold parse_toc_entries. rewrite in_flat_map.
  intros ([i l] & Hin & He). simpl in He.
  destruct (parse_toc_entry l doc) as [e0|] eqn:E0; [|contradiction].
  destruct He as [<-|[]]. exists i, l, e0. auto.
Qed.

(** The identifier of a recognised entry stands in its line. *)
Lemma id_in_line (line doc : str) (e : entry) :
  parse_toc_entry line doc = Some e ->
  exists pre post, line = pre ++ section_id e ++ post.
Proof.
  intros H. apply parse_toc_entry_groups in H.
  destruct H as (m & E & _ & Es & _).
  destruct (toc_pattern_groups _ _ E) as (g1 & g2 & tail & El & _).
  destruct (strip_split line) as (a & b & Ea & _).
  destruct (strip_split (group m "section_id")) as (a' & b' & Eg & _).
  rewrite <- Es in Eg.
  exists (a ++ a'),
         (b' ++ g1 ++ group m "title" ++ g2 ++ group m "page" ++ tail ++ b).
  rewrite Ea at 1. rewrite El at 1. rewrite Eg at 1.
  rewrite <- !app_assoc. reflexivity.
Qed.

(** X19: on the entries assembled from a document, the search for the
    entry's own heading on its start page always succeeds, because the
    line the entry was read from stands on that page: the content starts
    after the first occurrence of the identifier there, at or before that
    line, and the whole page is never taken. *)
Theorem own_heading_is_found (text_pages : list str)
  (toc_lines : list (nat * str)) (doc : str) (e : entry) :
  find_toc_content text_pages = Ok toc_lines ->
  In e (parse_toc_entries toc_lines doc) ->
  exists text pre post k,
    index text_pages (Z.max 0 (Z.min (page e - 1)
                                 (Z.of_nat (length text_pages) - 1)))
    = Ok text /\
    text = pre ++ section_id e ++ post /\
    k <= length pre /\
    re_search (escaped_ci (section_id e)) text
    = Some (Match k (k + length (section_id e)) []).
Proof.
  intros Hf He.
  destruct (entry_line_of _ _ _ He) as (i & l & e0 & Hin & E0 & ->).
  destruct (scan_line_origin _ _ _ _ Hf Hin) as (text & raw & Hn & Hraw & _ & ->).
  destruct (id_in_line _ _ _ E0) as (a & b & El).
  destruct (strip_split raw) as (a0 & b0 & Er & _).
  destruct (proj2 (split_substring nl text) raw Hraw) as (p0 & q0 & Et).
  assert (Hi : i < length text_pages) by (apply nth_error_Some; congruence).
  destruct e0 as [dt sid ti pg lv par fp tg]. cbn [set_page page section_id] in *.
  set (pre := p0 ++ a0 ++ a).
  set (post := b ++ b0 ++ q0).
  assert (Etext : text = pre ++ sid ++ post).
  { unfold pre, post. rewrite Et at 1. rewrite Er at 1. rewrite El at 1.
    rewrite <- !app_assoc. reflexivity. }
  destruct (find_ci_occurrence sid pre (sid ++ post) (ci_prefix_self sid post))
    as (k & Ek & Hk).
  exists text, pre, post, k. repeat split.
  - replace (Z.max 0 (Z.min (Z.of_nat i + 1 - 1) (Z.of_nat (length text_pages) - 1)))
      with (Z.of_nat i) by lia.
    rewrite (index_valid text_pages (Z.of_nat i) []) by lia.
    rewrite Nat2Z.id. f_equal. apply nth_error_nth. exact Hn.
  - exact Etext.
  - exact Hk.
  - rewrite search_escaped_ci, Etext, Ek. reflexivity.
Qed.

Lemma own_heading_is_found_witness :
  exists text pre post k,
    index pages3 (Z.max 0 (Z.min (page (nth 1 toc3 (Entry [] [] [] 0 0 None [] [])) - 1)
                             (Z.of_nat (length pages3) - 1)))
    = Ok text /\
    text = pre ++ section_id (nth 1 toc3 (Entry [] [] [] 0 0 None [] [])) ++ post /\
    k <= length pre /\
    re_search (escaped_ci (section_id (nth 1 toc3 (Entry [] [] [] 0 0 None [] []))))
              text
    = Some (Match k (k + length (section_id (nth 1 toc3 (Entry [] [] [] 0 0 None [] []))))
              []).
Proof.
  apply (own_heading_is_found pages3
           [(0, L "1 Intro text 9"); (2, L "2 Next part 9")] doc0).
  - vm_compute. reflexivity.
  - vm_compute. right. left. reflexivity.
Defined.

(** X20: when the next entry is on the page of the entry itself, the
    content is taken from that one page twice: the text after the first
    occurrence of the entry's identifier, then a blank, then the text
    before the first occurrence of the next entry's identifier (each the
    whole page when the identifier does not occur), each part trimmed.
    The second part is not cut off where the first one begins. *)
Theorem entries_of_one_page_share_it (text_pages : list str) (e nx : entry) :
  (1 <= page e <= page_count text_pages)%Z ->
  page nx = page e ->
  let text := page_at text_pages (page e - 1) in
  _extract_section_content text_pages e (Some nx)
  = Ok (strip (join (L " ") [strip (after_heading (section_id e) text);
                             strip (before_heading (section_id nx) text)])).
Proof.
  intros Hp Hnx text.
  assert (Hne : text_pages <> []).
  { intros ->. unfold page_count in Hp. simpl in Hp. lia. }
  assert (Hsp : start_page_of text_pages e = (page e - 1)%Z)
    by (unfold start_page_of; lia).
  pose proof (degenerate_window_content text_pages e nx Hne) as D.
  cbv zeta in D. rewrite Hsp in D. apply D.
  - unfold valid_entry. lia.
  - unfold end_page_of. lia.
Qed.

Lemma entries_of_one_page_share_it_witness :
  _extract_section_content pages1
    (nth 0 toc1 (Entry [] [] [] 0 0 None [] []))
    (Some (nth 1 toc1 (Entry [] [] [] 0 0 None [] [])))
  = Ok (L "Intro text 5" ++ [nl] ++ L "2 Next part 7 1 Intro text 5").
Proof.
  rewrite (entries_of_one_page_share_it pages1).
  - vm_compute. reflexivity.
  - vm_compute. split; discriminate.
  - vm_compute. reflexivity.
Defined.

(** ** The tags of a title *)

Lemma first_some_found {A B : Type} (f : A -> option B) (l : list A) (y : B) :
  first_some f l = Some y -> exists x, In x l /\ f x = Some y.
Proof.
  induction l as [|x l IH]; simpl; [discriminate|].
  destruct (f x) as [y'|] eqn:E.
  - intros [= <-]. exists x. auto.
  - intros H. destruct (IH H) as (x' & Hin & E'). exists x'. auto.
Qed.

Lemma first_some_none {A B : Type} (f : A -> option B) (l : list A) :
  first_some f l = None -> forall x, In x l -> f x = None.
Proof.
  induction l as [|x l IH]; simpl; [intros _ y []|].
  destruct (f x) eqn:E; [discriminate|].
  intros H y [<-|Hy]; [exact E | apply IH; assumption].
Qed.

(** A search succeeds exactly when the pattern matches somewhere in the
    text. *)
Lemma search_finds (r : regex) (s : str) :
  is_match (re_search r s) = true <->
  exists pre u post, s = pre ++ u ++ post /\ matches r (rev pre) u post.
Proof.
  unfold re_search. split.
  - destruct (first_some _ _) as [m|] eqn:E; [intros _ | discriminate].
    apply first_some_found in E as (i & _ & E).
    unfold match_at in E. apply run_sound in E.
    destruct E as (u & a' & _ & E1 & M & _). simpl in E1, M.
    exists (firstn i s), u, a'.
    split; [|exact M]. rewrite <- E1. symmetry. apply firstn_skipn.
  - intros (pre & u & post & -> & M).
    destruct (first_some _ _) as [m|] eqn:E; [reflexivity|]. exfalso.
    apply first_some_none with (x := length pre) in E.
    + revert E. unfold match_at.
      rewrite firstn_app, firstn_all, Nat.sub_diag, app_nil_r.
      rewrite skipn_app, skipn_all, Nat.sub_diag. cbn [skipn app].
      apply (run_complete match_obj r (rev pre) u post M).
      intros cs'. discriminate.
    + apply in_seq. rewrite !length_app. lia.
Qed.

Lemma matches_lit_ci (p : str) :
  forall b w a,
    matches (Lit chr_ci p) b w a <-> map to_lower w = map to_lower p.
Proof.
  induction p as [|c p IH]; intros b w a; cbn [Lit map].
  - split.
    + intros H. inv H. reflexivity.
    + destruct w; [constructor | discriminate].
  - split.
    + intros H. inv H.
      match goal with H : matches (chr_ci _) _ _ _ |- _ => inv H end.
      match goal with H : matches (Lit _ _) _ _ _ |- _ =>
        apply IH in H; rename H into Hw end.
      match goal with H : eqc _ _ = true |- _ => apply eqc_eq in H; rename H into Hc end.
      cbn [app map]. rewrite Hc, Hw. reflexivity.
    + destruct w as [|x w]; [discriminate|]. cbn [map]. intros [= Hc Hw].
      change (x :: w) with ([x] ++ w). constructor.
      * constructor. rewrite Hc. apply eqc_refl.
      * apply IH. exact Hw.
Qed.

Lemma lower_word_head (w p : str) (c : ascii) :
  map to_lower w = c :: p -> is_word c = true ->
  (forall x, to_lower x = c -> is_word x = true) ->
  exists x r, w = x :: r /\ is_word x = true.
Proof.
  destruct w as [|x r]; [discriminate|]. cbn [map]. intros [= Hx _] _ H.
  exists x, r. auto.
Qed.

Lemma lower_word_char (c : ascii) :
  is_word c = true -> forall x, to_lower x = c -> is_word x = true.
Proof.
  intros Hc. assert (G : forallb (fun n => let x := ascii_of_nat n in
                                    implb (is_word (to_lower x)) (is_word x))
                                 (seq 0 256) = true) by (vm_compute; reflexivity).
  intros x <-. rewrite forallb_forall in G.
  specialize (G (nat_of_ascii x)). cbv zeta in G.
  rewrite ascii_nat_embedding in G.
  rewrite Hc in G. apply G. apply in_seq.
  pose proof (nat_ascii_bounded x). lia.
Qed.

Lemma reference_word_head (w : str) :
  map to_lower w = L "figure" \/ map to_lower w = L "table" ->
  exists x r, w = x :: r /\ is_word x = true.
Proof.
  intros [H|H]; eapply lower_word_head;
    try exact H; try reflexivity; apply lower_word_char; reflexivity.
Qed.

(** What the figure and table pattern denotes. *)
Lemma matches_figure_table (b u a : str) :
  matches FIGURE_TABLE_PATTERN b u a <->
  exists w gap ds,
    u = w ++ gap ++ ds /\
    clean_head is_word b /\
    (map to_lower w = L "figure" \/ map to_lower w = L "table") /\
    blanks gap = true /\ all_digits ds = true.
Proof.
  unfold FIGURE_TABLE_PATTERN. split.
  - intros H. inv H.
    match goal with H : matches WordB _ _ _ |- _ => inv H end.
    match goal with H : matches (Seq _ _) _ _ _ |- _ => inv H end.
    match goal with H : matches (Seq _ _) _ _ _ |- _ => inv H end.
    match goal with H : matches SPACES _ _ _ |- _ =>
      apply matches_spaces in H; rename H into Hg end.
    match goal with H : matches DIGITS _ _ _ |- _ =>
      apply matches_digits in H; rename H into Hd end.
    match goal with H : xorb _ _ = true |- _ => rename H into Hb end.
    match goal with H : matches (Alt _ _) _ ?w _ |- _ =>
      assert (Hw : map to_lower w = L "figure" \/ map to_lower w = L "table")
        by (inv H;
            match goal with H' : matches _ _ w _ |- _ =>
              first [ left; exact (proj1 (matches_lit_ci (L "Figure") _ _ _) H')
                    | right; exact (proj1 (matches_lit_ci (L "Table") _ _ _) H') ]
            end);
      clear H
    end.
    destruct (reference_word_head _ Hw) as (x & r & -> & Hx).
    cbn [app rev] in *.
    unfold word_before, word_after in Hb. cbn [seen ahead app] in Hb.
    rewrite Hx in Hb.
    exists (x :: r), s2, s3. split; [reflexivity|].
    split; [|auto].
    destruct b as [|c b']; simpl in *; [exact I|].
    destruct (is_word c); [discriminate | reflexivity].
  - intros (w & gap & ds & -> & Hb & Hw & Hg & Hd).
    destruct (reference_word_head _ Hw) as (x & r & -> & Hx).
    change ((x :: r) ++ gap ++ ds) with ([] ++ (x :: r) ++ gap ++ ds).
    constructor.
    + constructor. unfold word_before, word_after. cbn [seen ahead app].
      rewrite Hx. destruct b as [|c b']; simpl in *; [reflexivity|].
      rewrite Hb. reflexivity.
    + apply (M_Seq _ _ _ (x :: r) (gap ++ ds) a).
      * destruct Hw as [Hw|Hw]; [apply M_AltL | apply M_AltR];
          apply matches_lit_ci; exact Hw.
      * constructor; [apply matches_spaces; exact Hg
                     | apply matches_digits; exact Hd].
Qed.

(** X21: a title gets a tag exactly when it holds a reference to a figure
    or a table: the word Figure or Table in any letter case, not preceded by
    a letter, digit or underscore, followed by white space and a digit.
    There is never more than one tag; it is figure when the text Figure, in
    exactly this letter case, stands anywhere in the title, and table in
    every other case. *)
Theorem tag_iff_reference (title : str) :
  (derive_tags title <> [] <->
   exists pre w gap d post,
     title = pre ++ w ++ gap ++ d :: post /\ reference pre w gap d) /\
  (derive_tags title = [] \/
   derive_tags title = [L "figure"] /\ contains (L "Figure") title = true \/
   derive_tags title = [L "table"] /\ contains (L "Figure") title = false).
Proof.
  rewrite derive_tags_cases. split.
  - transitivity (is_match (re_search FIGURE_TABLE_PATTERN title) = true).
    { destruct (is_match _); [|split; [congruence | discriminate]].
      destruct (contains _ _); split; intros _; [reflexivity | discriminate
                                                | reflexivity | discriminate]. }
    rewrite search_finds. split.
    + intros (pre & u & post & -> & M).
      apply matches_figure_table in M
        as (w & gap & ds & -> & Hb & Hw & Hg & Hd).
      destruct ds as [|d ds]; [discriminate|]. simpl in Hd.
      apply andb_prop in Hd as [Hd _].
      exists pre, w, gap, d, (ds ++ post). split.
      * rewrite <- !app_assoc. reflexivity.
      * unfold reference. auto.
    + intros (pre & w & gap & d & post & -> & Hb & Hw & Hg & Hd).
      exists pre, (w ++ gap ++ [d]), post. split.
      * rewrite <- !app_assoc. reflexivity.
      * apply matches_figure_table. exists w, gap, [d].
        repeat split; try assumption. simpl. rewrite Hd. reflexivity.
  - destruct (is_match _); [|auto].
    destruct (contains _ _); auto.
Qed.
